(** * PISM geometry update: driving stress, surface/mask consistency,
      explicit mass continuity

    A shallow embedding of [src/base/iMgeometry.cc]
    ([IceModel::computeDrivingStress],
    [IceModel::updateSurfaceElevationAndMask] and
    [IceModel::massContExplicitStep]) and the properties of these three
    procedures.
    Further sections embed the strain-rate invariants of
    [src/base/rheology/FlowLaw.hh], [interpolate] of
    [src/util/iceModelVec.hh], and, of [src/base/iMinit.cc], the grid
    options, the allocation of the sub-models and the first step of the
    boundary models.

    Conventions of the embedding.
    - [PetscScalar] is embedded as a real number of [R]: the arithmetic is
      the exact arithmetic the discretisation is written in, with neither
      rounding, infinities nor NaN.  [PetscInt] is [Z].
    - A two-dimensional [IceModelVec2] is a total function from grid
      indices to values, ghost points included; a write [v(i,j) = x] is
      the pointwise update [upd].
    - The mask field holds the enumerators of [PismMask]: the array
      [mask[i][j]] and the accessor [vMask.value(i,j)] are two names of
      the same storage, written and read within one visit of a point.
    - A procedure that returns a [PetscErrorCode] and mutates members of
      [IceModel] is a function from the model to an error code and the
      model as the procedure leaves it.
    - The halo exchanges ([beginGhostComm]/[endGhostComm]) and the global
      reductions belong to the distributed-array layer; statements are
      about the points a process owns, the ones its loops visit. *)

From Stdlib Require Import Reals Lra Lia ZArith String List Bool FinFun Sorted.
Import ListNotations.

Local Open Scope R_scope.

(** ** Grid fields *)

(** The values of an [IceModelVec2], indexed by [(i,j)]. *)
Definition field (A : Type) : Type := Z -> Z -> A.

(** The assignment [f(i,j) = v]. *)
Definition upd {A : Type} (f : field A) (i j : Z) (v : A) : field A :=
  fun i' j' => if (Z.eqb i' i && Z.eqb j' j)%bool then v else f i' j'.

(** [IceGrid]: the owned index ranges [xs <= i < xs+xm], [ys <= j < ys+ym],
    the grid spacing and the current model year. *)
Record IceGrid : Type := {
  xs : Z; xm : Z;
  ys : Z; ym : Z;
  dx : R; dy : R;
  year : R
}.

Definition owned (g : IceGrid) (i j : Z) : Prop :=
  (xs g <= i < xs g + xm g)%Z /\ (ys g <= j < ys g + ym g)%Z.

(** The indices [lo, lo+1, ..., lo+n-1] a loop
    [for (k = lo; k < lo+n; ++k)] goes through, in order. *)
Definition range (lo n : Z) : list Z :=
  map (fun k => (lo + Z.of_nat k)%Z) (seq 0 (Z.to_nat n)).

(** The points visited by the two nested loops, in the order visited. *)
Definition owned_points (g : IceGrid) : list (Z * Z) :=
  flat_map (fun i => map (fun j => (i, j)) (range (ys g) (ym g)))
           (range (xs g) (xm g)).

(** Equality of grid points is decidable. *)
Definition point_eq_dec (p q : Z * Z) : {p = q} + {p <> q}.
Proof. decide equality; apply Z.eq_dec. Defined.

(** The order of the visits: [i] runs in the outer loop, [j] in the inner
    one. *)
Definition visited_earlier (p q : Z * Z) : Prop :=
  (fst p < fst q)%Z \/ (fst p = fst q /\ (snd p < snd q)%Z).

(** ** The mask *)

(** Modelled from the spec: the enumeration [PismMask] is declared in a
    header that is not under src/; section 3 of the specification lists
    its values. *)
Inductive PismMask : Type :=
| MASK_UNKNOWN
| MASK_SHEET
| MASK_DRAGGING_SHEET
| MASK_FLOATING
| MASK_OCEAN_AT_TIME_0.

(** The comparison [vMask.value(i,j) == MASK_...]. *)
Definition mask_eqb (a b : PismMask) : bool :=
  match a, b with
  | MASK_UNKNOWN, MASK_UNKNOWN
  | MASK_SHEET, MASK_SHEET
  | MASK_DRAGGING_SHEET, MASK_DRAGGING_SHEET
  | MASK_FLOATING, MASK_FLOATING
  | MASK_OCEAN_AT_TIME_0, MASK_OCEAN_AT_TIME_0 => true
  | _, _ => false
  end.

(** Modelled from the spec: [IceModelVec2Mask::is_floating] is not under
    src/.  The floating classes are FLOATING and the permanent ocean
    OCEAN_AT_TIME_0 (which the source comments also call
    FLOATING_OCEAN0). *)
Definition is_floating (m : PismMask) : bool :=
  match m with
  | MASK_FLOATING | MASK_OCEAN_AT_TIME_0 => true
  | _ => false
  end.

(** Modelled from the spec: [IceModelVec2Mask::is_grounded] is not under
    src/.  The grounded classes are SHEET and DRAGGING_SHEET. *)
Definition is_grounded (m : PismMask) : bool :=
  match m with
  | MASK_SHEET | MASK_DRAGGING_SHEET => true
  | _ => false
  end.

(** ** Configuration, physical parameters, boundary models *)

(** The flags and numbers read through [config.get_flag] and
    [config.get]. *)
Record NCConfigVariable : Type := {
  is_dry_simulation : bool;
  do_plastic_till : bool;
  use_ssa_velocity : bool;
  sea_water_density : R;
  ocean_kill : bool;
  floating_ice_killed : bool;
  include_bmr_in_continuity : bool;
  do_superpose : bool;
  compute_surf_grad_inward_ssa : bool
}.

(** [ice->rho] and [ice->exponent()]. *)
Record IceFlowLaw : Type := {
  rho : R;
  exponent : R
}.

(** What the ocean model answers for a year and a step length. *)
Record PISMOceanModel : Type := {
  sea_level_elevation : R -> R -> R;
  shelf_base_mass_flux : R -> R -> field R
}.

(** What the surface model answers for a year and a step length. *)
Record PISMSurfaceModel : Type := {
  ice_surface_mass_flux : R -> R -> field R
}.

(** ** The model state *)

(** The members of [IceModel] the three procedures read or write.
    [ocean] and [surface] are pointers: [None] is the null pointer. *)
Record IceModel : Type := {
  grid : IceGrid;
  config : NCConfigVariable;
  ice : IceFlowLaw;
  ocean : option PISMOceanModel;
  surface : option PISMSurfaceModel;
  dt : R;
  transformForSurfaceGradient : bool;
  computeSIAVelocities : bool;
  vh : field R;
  vH : field R;
  vbed : field R;
  vMask : field PismMask;
  vuvbar0 : field R;
  vuvbar1 : field R;
  vub : field R;
  vvb : field R;
  vubarSSA : field R;
  vvbarSSA : field R;
  vbasalMeltRate : field R
}.

Definition set_vh (m : IceModel) (f : field R) : IceModel :=
  {| grid := grid m; config := config m; ice := ice m; ocean := ocean m;
     surface := surface m; dt := dt m;
     transformForSurfaceGradient := transformForSurfaceGradient m;
     computeSIAVelocities := computeSIAVelocities m;
     vh := f; vH := vH m; vbed := vbed m; vMask := vMask m;
     vuvbar0 := vuvbar0 m; vuvbar1 := vuvbar1 m; vub := vub m; vvb := vvb m;
     vubarSSA := vubarSSA m; vvbarSSA := vvbarSSA m;
     vbasalMeltRate := vbasalMeltRate m |}.

Definition set_vMask (m : IceModel) (f : field PismMask) : IceModel :=
  {| grid := grid m; config := config m; ice := ice m; ocean := ocean m;
     surface := surface m; dt := dt m;
     transformForSurfaceGradient := transformForSurfaceGradient m;
     computeSIAVelocities := computeSIAVelocities m;
     vh := vh m; vH := vH m; vbed := vbed m; vMask := f;
     vuvbar0 := vuvbar0 m; vuvbar1 := vuvbar1 m; vub := vub m; vvb := vvb m;
     vubarSSA := vubarSSA m; vvbarSSA := vvbarSSA m;
     vbasalMeltRate := vbasalMeltRate m |}.

Definition set_vH (m : IceModel) (f : field R) : IceModel :=
  {| grid := grid m; config := config m; ice := ice m; ocean := ocean m;
     surface := surface m; dt := dt m;
     transformForSurfaceGradient := transformForSurfaceGradient m;
     computeSIAVelocities := computeSIAVelocities m;
     vh := vh m; vH := f; vbed := vbed m; vMask := vMask m;
     vuvbar0 := vuvbar0 m; vuvbar1 := vuvbar1 m; vub := vub m; vvb := vvb m;
     vubarSSA := vubarSSA m; vvbarSSA := vvbarSSA m;
     vbasalMeltRate := vbasalMeltRate m |}.

(** [h[i][j] = x] and [mask[i][j] = x]. *)
Definition write_h (m : IceModel) (i j : Z) (x : R) : IceModel :=
  set_vh m (upd (vh m) i j x).

Definition write_mask (m : IceModel) (i j : Z) (x : PismMask) : IceModel :=
  set_vMask m (upd (vMask m) i j x).

(** ** Error codes *)

(** The messages of the [SETERRQ] calls. *)
Inductive ErrorMessage : Type :=
| ocean_is_NULL
| surface_is_NULL
| Thickness_negative_at_point (i j : Z).

Inductive PetscErrorCode : Type :=
| PETSC_OK
| SETERRQ (n : Z) (msg : ErrorMessage).

(** A procedure over a state [S]: the error code it returns and the state
    it leaves. *)
Definition Petsc (S : Type) : Type := S -> PetscErrorCode * S.

(** [ierr = c; CHKERRQ(ierr); k]: an error of [c] is returned at once. *)
Definition CHKERRQ {S : Type} (c k : Petsc S) : Petsc S :=
  fun s => match c s with
           | (PETSC_OK, s') => k s'
           | (e, s') => (e, s')
           end.

Notation "c ;; k" := (CHKERRQ c k) (at level 61, right associativity).

(** [for (k in l) { body(k) }], left as soon as a body returns an error. *)
Fixpoint for_each {A S : Type} (l : list A) (body : A -> Petsc S) : Petsc S :=
  match l with
  | [] => fun s => (PETSC_OK, s)
  | k :: l' => body k ;; for_each l' body
  end.

(** The two nested loops over the owned points. *)
Definition for_owned {S : Type} (g : IceGrid) (body : Z -> Z -> Petsc S)
  : Petsc S :=
  for_each (range (xs g) (xm g)) (fun i =>
    for_each (range (ys g) (ym g)) (fun j => body i j)).

(** ** Visits *)

Section Visits.

Context {A : Type}.
Variable eq_dec : forall a b : A, {a = b} + {a <> b}.

(** The part of the loop range visited before [a], and the part after. *)
Fixpoint visited_before (a : A) (l : list A) : list A :=
  match l with
  | [] => []
  | b :: l' => if eq_dec b a then [] else b :: visited_before a l'
  end.

Fixpoint visited_after (a : A) (l : list A) : list A :=
  match l with
  | [] => []
  | b :: l' => if eq_dec b a then l' else visited_after a l'
  end.

End Visits.

(** ** Constants and helpers declared outside the translation unit *)

(** The constants and functions [iMgeometry.cc] uses whose definitions are
    not under src/: the constants of the PISM headers, the mask codes, the
    finite differences of [IceModelVec2S] and the C library's [pow].
    Nothing is assumed about them. *)
Class Externals : Type := {
  secpera : R;
  standard_gravity : R;
  (** the integer value of an enumerator of [PismMask] *)
  mask_value : PismMask -> Z;
  (** [PismModMask], the integer code of a stored mask value *)
  PismModMask : PismMask -> Z;
  pow : R -> R -> R;
  diff_x : IceGrid -> field R -> Z -> Z -> R;
  diff_y : IceGrid -> field R -> Z -> Z -> R;
  diff_x_p : IceGrid -> field R -> Z -> Z -> R;
  diff_y_p : IceGrid -> field R -> Z -> Z -> R
}.

Definition PetscSqr (x : R) : R := x * x.

Section Geometry.

Context {ext : Externals}.

(** ** [IceModel::computeDrivingStress] *)

(** The constants at the head of the procedure. *)
Definition etapow (n : R) : R := (2 * n + 2) / n.
Definition invpow (n : R) : R := 1 / etapow n.
Definition dinvpow (n : R) : R := (- n - 2) / (2 * n + 2).
Definition minThickEtaTransform : R := 5.

(** The surface gradient [(h_x, h_y)] of the [else] branch (lines 70-94). *)
Definition surface_gradient (m : IceModel) (i j : Z) : R * R :=
  let n := exponent (ice m) in
  let H := vH m in
  if (is_grounded (vMask m i j) && transformForSurfaceGradient m)%bool then
    let '(h_x, h_y) :=
      if Rgt_dec (H i j) 0 then
        let myH := if Rlt_dec (H i j) minThickEtaTransform
                   then minThickEtaTransform else H i j in
        let eta := pow myH (etapow n) in
        let factor := invpow n * pow eta (dinvpow n) in
        (factor * (pow (H (i+1)%Z j) (etapow n) - pow (H (i-1)%Z j) (etapow n))
           / (2 * dx (grid m)),
         factor * (pow (H i (j+1)%Z) (etapow n) - pow (H i (j-1)%Z) (etapow n))
           / (2 * dy (grid m)))
      else (0, 0) in
    (h_x + diff_x (grid m) (vbed m) i j, h_y + diff_y (grid m) (vbed m) i j)
  else if compute_surf_grad_inward_ssa (config m) then
    (diff_x_p (grid m) (vh m) i j, diff_y_p (grid m) (vh m) i j)
  else
    (diff_x (grid m) (vh m) i j, diff_y (grid m) (vh m) i j).

(** The body of the loop (lines 65-98) on the two output fields. *)
Definition driving_stress_point (m : IceModel) (i j : Z)
  : Petsc (field R * field R) :=
  fun '(vtaudx, vtaudy) =>
    let pressure := rho (ice m) * standard_gravity * vH m i j in
    if Rle_dec pressure 0 then
      (PETSC_OK, (upd vtaudx i j 0, upd vtaudy i j 0))
    else
      let '(h_x, h_y) := surface_gradient m i j in
      (PETSC_OK, (upd vtaudx i j (- pressure * h_x),
                  upd vtaudy i j (- pressure * h_y))).

Definition computeDrivingStress (m : IceModel) : Petsc (field R * field R) :=
  for_owned (grid m) (driving_stress_point m).

Definition driving_stress_body (m : IceModel) (p : Z * Z)
  : Petsc (field R * field R) :=
  driving_stress_point m (fst p) (snd p).

(** The two components of the output at a point. *)
Definition stress_view (p : Z * Z) (t : field R * field R) : R * R :=
  (fst t (fst p) (snd p), snd t (fst p) (snd p)).

(** ** [IceModel::updateSurfaceElevationAndMask] *)

Definition hgrounded (m : IceModel) (i j : Z) : R :=
  vbed m i j + vH m i j.

Definition hfloating (currentSeaLevel : R) (m : IceModel) (i j : Z) : R :=
  currentSeaLevel
  + (1 - rho (ice m) / sea_water_density (config m)) * vH m i j.

(** Lines 169-202: the flotation criterion with its hysteresis, for a
    point of a wet run that is not OCEAN_AT_TIME_0. *)
Definition flotation_criterion (currentSeaLevel : R) (i j : Z) (m : IceModel)
  : IceModel :=
  let hg := hgrounded m i j in
  let hf := hfloating currentSeaLevel m i j in
  if is_floating (vMask m i j) then
    if Rgt_dec hg (hf + 1) then
      let m := write_h m i j hg in
      if use_ssa_velocity (config m) then
        if do_plastic_till (config m) then
          write_mask m i j MASK_DRAGGING_SHEET
        else
          write_mask m i j MASK_UNKNOWN
      else
        write_mask m i j MASK_SHEET
    else
      write_h m i j hf
  else
    if Rgt_dec hg (hf - 1) then
      let m := write_h m i j hg in
      if (use_ssa_velocity (config m) && do_plastic_till (config m))%bool then
        write_mask m i j MASK_DRAGGING_SHEET
      else m
    else
      write_mask (write_h m i j hf) i j MASK_FLOATING.

(** Lines 211-214: the sum of the codes of the eight box-stencil
    neighbours, read from the mask as it is when the point is visited. *)
Definition neighmasksum (mask : field PismMask) (i j : Z) : Z :=
  (PismModMask (mask (i-1) (j+1)) + PismModMask (mask i (j+1))
   + PismModMask (mask (i+1) (j+1))
   + PismModMask (mask (i-1) j) + PismModMask (mask (i+1) j)
   + PismModMask (mask (i-1) (j-1)) + PismModMask (mask i (j-1))
   + PismModMask (mask (i+1) (j-1)))%Z.

(** The right-hand side [7*MASK_SHEET + MASK_DRAGGING_SHEET + 0.1]. *)
Definition vote_threshold : R :=
  IZR (7 * mask_value MASK_SHEET + mask_value MASK_DRAGGING_SHEET) + 1 / 10.

(** Lines 207-222: the vote by neighbours. *)
Definition vote_by_neighbors (i j : Z) (m : IceModel) : IceModel :=
  if mask_eqb (vMask m i j) MASK_UNKNOWN then
    if Rle_dec (IZR (neighmasksum (vMask m) i j)) vote_threshold then
      write_mask m i j MASK_SHEET
    else
      write_mask m i j MASK_DRAGGING_SHEET
  else m.

(** The body of the loop (lines 148-224). *)
Definition update_point (currentSeaLevel : R) (i j : Z) : Petsc IceModel :=
  fun m =>
    if Rlt_dec (vH m i j) 0 then
      (SETERRQ 1 (Thickness_negative_at_point i j), m)
    else if is_dry_simulation (config m) then
      (PETSC_OK, write_h m i j (hgrounded m i j))
    else if mask_eqb (vMask m i j) MASK_OCEAN_AT_TIME_0 then
      (PETSC_OK, write_h m i j (hfloating currentSeaLevel m i j))
    else
      (PETSC_OK,
       vote_by_neighbors i j (flotation_criterion currentSeaLevel i j m)).

(** The sea level the procedure asks the ocean model for. *)
Definition currentSeaLevel (m : IceModel) (o : PISMOceanModel) : R :=
  sea_level_elevation o (year (grid m)) (dt m / secpera).

Definition updateSurfaceElevationAndMask : Petsc IceModel :=
  fun m =>
    match ocean m with
    | None => (SETERRQ 1 ocean_is_NULL, m)
    | Some o => for_owned (grid m) (update_point (currentSeaLevel m o)) m
    end.

(** The members [updateSurfaceElevationAndMask] only reads. *)
Definition same_inputs (m m' : IceModel) : Prop :=
  grid m' = grid m /\ config m' = config m /\ ice m' = ice m /\
  ocean m' = ocean m /\ vH m' = vH m /\ vbed m' = vbed m.

(** The values a point holds: surface elevation and mask. *)
Definition point_view (p : Z * Z) (m : IceModel) : R * PismMask :=
  (vh m (fst p) (snd p), vMask m (fst p) (snd p)).

(** The loop of the procedure, over the points in the order visited. *)
Definition update_body (sl : R) (p : Z * Z) : Petsc IceModel :=
  update_point sl (fst p) (snd p).

Definition update_loop (sl : R) (l : list (Z * Z)) : Petsc IceModel :=
  for_each l (update_body sl).

(** The model as the loop has left it when it reaches the point [(i,j)]. *)
Definition when_visited (sl : R) (m : IceModel) (i j : Z) : IceModel :=
  snd (update_loop sl
         (visited_before point_eq_dec (i, j) (owned_points (grid m))) m).

(** ** [IceModel::massContExplicitStep] *)

Definition inC_fofv : R := 1 / 10000 * PetscSqr secpera.
Definition outC_fofv : R := 2 / PI.

(** The factor [1 - outC_fofv * atan(inC_fofv * (u^2 + v^2))] of lines
    338-347. *)
Definition fofv (u v : R) : R :=
  1 - outC_fofv * atan (inC_fofv * (PetscSqr u + PetscSqr v)).

(** The thickness averaged onto the staggered grid, [He], [Hw], [Hn],
    [Hs] (lines 335-358). *)
Record Staggered : Type := { He : R; Hw : R; Hn : R; Hs : R }.

Definition staggered_thickness (m : IceModel) (i j : Z) : Staggered :=
  let H := vH m in
  let ubarssa := vubarSSA m in
  let vbarssa := vvbarSSA m in
  if (do_superpose (config m)
      && mask_eqb (vMask m i j) MASK_DRAGGING_SHEET)%bool then
    let fv := fofv (ubarssa i j) (vbarssa i j) in
    let fve := fofv (ubarssa (i+1)%Z j) (vbarssa (i+1)%Z j) in
    let fvw := fofv (ubarssa (i-1)%Z j) (vbarssa (i-1)%Z j) in
    let fvn := fofv (ubarssa i (j+1)%Z) (vbarssa i (j+1)%Z) in
    let fvs := fofv (ubarssa i (j-1)%Z) (vbarssa i (j-1)%Z) in
    let fvH := fv * H i j in
    {| He := 0.5 * (fvH + fve * H (i+1)%Z j);
       Hw := 0.5 * (fvw * H (i-1)%Z j + fvH);
       Hn := 0.5 * (fvH + fvn * H i (j+1)%Z);
       Hs := 0.5 * (fvs * H i (j-1)%Z + fvH) |}
  else
    {| He := 0.5 * (H i j + H (i+1)%Z j);
       Hw := 0.5 * (H (i-1)%Z j + H i j);
       Hn := 0.5 * (H i j + H i (j+1)%Z);
       Hs := 0.5 * (H i (j-1)%Z + H i j) |}.

(** Lines 362-366: the divergence of the SIA flux on the staggered grid. *)
Definition divQ_SIA (m : IceModel) (i j : Z) : R :=
  let st := staggered_thickness m i j in
  if computeSIAVelocities m then
    (vuvbar0 m i j * He st - vuvbar0 m (i-1)%Z j * Hw st) / dx (grid m)
    + (vuvbar1 m i j * Hn st - vuvbar1 m i (j-1)%Z * Hs st) / dy (grid m)
  else 0.

(** Lines 362-376: [divQ] after its two increments. *)
Definition divQ (m : IceModel) (i j : Z) : R :=
  let H := vH m in
  let ub := vub m in
  let vb := vvb m in
  let divQ := divQ_SIA m i j in
  let divQ :=
    divQ
    + (ub i j * (if Rlt_dec (ub i j) 0 then H (i+1)%Z j - H i j
                 else H i j - H (i-1)%Z j) / dx (grid m)
       + vb i j * (if Rlt_dec (vb i j) 0 then H i (j+1)%Z - H i j
                   else H i j - H i (j-1)%Z) / dy (grid m)) in
  let divQ :=
    divQ
    + H i j * ((ub (i+1)%Z j - ub (i-1)%Z j) / (2 * dx (grid m))
               + (vb i (j+1)%Z - vb i (j-1)%Z) / (2 * dy (grid m))) in
  divQ.

(** Lines 378-403: the new thickness at [(i,j)] from the value [Hnew]
    that [vHnew(i,j)] holds on entry. *)
Definition new_thickness (acab shelfbmassflux : field R) (m : IceModel)
  (i j : Z) (Hnew : R) : R :=
  let Hnew := Hnew + (acab i j - divQ m i j) * dt m in
  let Hnew :=
    if include_bmr_in_continuity (config m) then
      if is_floating (vMask m i j) then Hnew - shelfbmassflux i j * dt m
      else Hnew - vbasalMeltRate m i j * dt m
    else Hnew in
  let Hnew := if Rlt_dec Hnew 0 then 0 else Hnew in
  let Hnew :=
    if (ocean_kill (config m)
        && mask_eqb (vMask m i j) MASK_OCEAN_AT_TIME_0)%bool
    then 0 else Hnew in
  let Hnew :=
    if (floating_ice_killed (config m) && is_floating (vMask m i j))%bool
    then 0 else Hnew in
  Hnew.

(** The state of the loop: the work field [vHnew] and the counter
    [icecount]. *)
Record Continuity : Type := { vHnew : field R; icecount : R }.

(** The body of the loop (lines 328-403). *)
Definition massCont_point (acab shelfbmassflux : field R) (m : IceModel)
  (i j : Z) : Petsc Continuity :=
  fun c =>
    let icecount := if Rgt_dec (vH m i j) 0 then icecount c + 1
                    else icecount c in
    (PETSC_OK,
     {| vHnew := upd (vHnew c) i j
                   (new_thickness acab shelfbmassflux m i j (vHnew c i j));
        icecount := icecount |}).

(** The procedure up to the copy of [vHnew] into [vH] (line 437).  The
    diagnostic rates [vdHdt], [gdHdtav] and [dvoldt], which are global
    reductions, are left out, and so is [check_maximum_thickness]. *)
Definition massContExplicitStep : Petsc IceModel :=
  fun m =>
    match surface m with
    | None => (SETERRQ 1 surface_is_NULL, m)
    | Some s =>
      let acab := ice_surface_mass_flux s (year (grid m)) (dt m / secpera) in
      match ocean m with
      | None => (SETERRQ 2 ocean_is_NULL, m)
      | Some o =>
        let shelfbmassflux :=
          shelf_base_mass_flux o (year (grid m)) (dt m / secpera) in
        match for_owned (grid m) (massCont_point acab shelfbmassflux m)
                        {| vHnew := vH m; icecount := 0 |} with
        | (PETSC_OK, c) => (PETSC_OK, set_vH m (vHnew c))
        | (e, _) => (e, m)
        end
      end
    end.

(** The body of the continuity loop on a point of the loop range. *)
Definition massCont_body (acab shelfbmassflux : field R) (m : IceModel)
  (p : Z * Z) : Petsc Continuity :=
  massCont_point acab shelfbmassflux m (fst p) (snd p).

(** The surface mass balance and the sub-shelf flux the step asks for. *)
Definition acab (m : IceModel) (s : PISMSurfaceModel) : field R :=
  ice_surface_mass_flux s (year (grid m)) (dt m / secpera).

Definition shelfbmassflux (m : IceModel) (o : PISMOceanModel) : field R :=
  shelf_base_mass_flux o (year (grid m)) (dt m / secpera).

(** *** The sliding part of the flux divergence, in the words of the
    specification *)

(** The neighbour the ice arrives from: the one the velocity points away
    from. *)
Definition upstream (u : R) (k : Z) : Z :=
  if Rlt_dec u 0 then (k + 1)%Z else (k - 1)%Z.

(** The advective term in the words of the specification: the velocity
    times the one-sided difference of the thickness taken on the side of
    the sign of the velocity. *)
Definition upwind_x (m : IceModel) (i j : Z) : R :=
  if Rlt_dec (vub m i j) 0
  then vub m i j * (vH m (i+1)%Z j - vH m i j) / dx (grid m)
  else vub m i j * (vH m i j - vH m (i-1)%Z j) / dx (grid m).

Definition upwind_y (m : IceModel) (i j : Z) : R :=
  if Rlt_dec (vvb m i j) 0
  then vvb m i j * (vH m i (j+1)%Z - vH m i j) / dy (grid m)
  else vvb m i j * (vH m i j - vH m i (j-1)%Z) / dy (grid m).

(** The dilation term: the thickness times the centred divergence of the
    velocity. *)
Definition dilation (m : IceModel) (i j : Z) : R :=
  vH m i j * ((vub m (i+1)%Z j - vub m (i-1)%Z j) / (2 * dx (grid m))
              + (vvb m i (j+1)%Z - vvb m i (j-1)%Z) / (2 * dy (grid m))).

(** ** Runs *)

(** What happens to the model over a run: a call of the consistency
    update, a call of the continuity step, or anything the driver and the
    other components do between two calls, which may change the
    configuration and every field but the mask. *)
Inductive model_step : IceModel -> IceModel -> Prop :=
| step_updateSurfaceElevationAndMask (m : IceModel) :
    model_step m (snd (updateSurfaceElevationAndMask m))
| step_massContExplicitStep (m : IceModel) :
    model_step m (snd (massContExplicitStep m))
| step_elsewhere (m m' : IceModel) :
    vMask m' = vMask m -> model_step m m'.

(** Any number of steps. *)
Inductive model_run : IceModel -> IceModel -> Prop :=
| run_done (m : IceModel) : model_run m m
| run_step (m m' m'' : IceModel) :
    model_step m m' -> model_run m' m'' -> model_run m m''.

End Geometry.

(** ** Further notions on the geometry procedures *)

(** The test of line 336: the point takes the superposed branch of the
    staggered averaging. *)
Definition superposed (m : IceModel) (i j : Z) : bool :=
  (do_superpose (config m)
   && mask_eqb (vMask m i j) MASK_DRAGGING_SHEET)%bool.

(** The sum of a list of reals. *)
Definition Rsum (l : list R) : R := fold_right Rplus 0 l.

(** The test [vH(i,j) > 0.0] of line 328, as a boolean. *)
Definition has_ice (m : IceModel) (p : Z * Z) : bool :=
  if Rgt_dec (vH m (fst p) (snd p)) 0 then true else false.

(** ** Strain-rate invariants ([base/rheology/FlowLaw.hh]) *)

(** [secondInvariant_2D], lines 35-38. *)
Definition secondInvariant_2D (u_x u_y v_x v_y : R) : R :=
  0.5 * (u_x * u_x + v_y * v_y + (u_x + v_y) * (u_x + v_y)
         + 0.5 * (u_y + v_x) * (u_y + v_x)).

(** [secondInvariantDu_2D], lines 41-43; the array argument is the
    function from its indices to its entries. *)
Definition secondInvariantDu_2D (Du : nat -> R) : R :=
  0.5 * (Du 0%nat * Du 0%nat + Du 1%nat * Du 1%nat
         + (Du 0%nat + Du 1%nat) * (Du 0%nat + Du 1%nat)
         + 2.0 * Du 2%nat * Du 2%nat).

(** ** Interpolation ([util/iceModelVec.hh]) *)

(** What [interpolate] asks the grid for: the indices of the four grid
    points around [(x,y)] ([compute_point_neighbors]: left, right, bottom,
    top) and the four weights ([compute_interp_weights]).  Both are
    declared outside src/ and nothing is assumed about them. *)
Record InterpolationGrid : Type := {
  compute_point_neighbors : R -> R -> Z * Z * Z * Z;
  compute_interp_weights : R -> R -> nat -> R
}.

(** [interpolate], lines 84-97. *)
Definition interpolate (grid : InterpolationGrid) (f : field R) (x y : R)
  : R :=
  let '(i_left, i_right, j_bottom, j_top) :=
    compute_point_neighbors grid x y in
  let w := compute_interp_weights grid x y in
  w 0%nat * f i_left j_bottom
  + w 1%nat * f i_right j_bottom
  + w 2%nat * f i_right j_top
  + w 3%nat * f i_left j_top.

(** ** Initialisation ([base/iMinit.cc]) *)

(** The exceptions the initialisation throws, with the values their
    messages print. *)
Inductive RuntimeError : Type :=
| range_argument_is_invalid
| grid_size_is_invalid (Mx My Mz : Z)
| grid_extent_is_invalid (Lx_km Ly_km Lz : R)
| invalid_ssa_method (method : string)
| invalid_stress_balance_model (model : string)
| unknown_hydrology_model (model : string)
| yield_stress_model_is_not_supported (model : string).

(** *** [IceModel::set_grid_from_options] *)

(** The command line, as the classes of [options::] (not under src/) let
    the code read it: a real or an integer option answers with a value
    for the default the call passes; a list option is set or not.
    Nothing is assumed about the answers. *)
Record CommandLine : Type := {
  options_Real : string -> R -> R;
  options_Integer : string -> Z -> Z;
  options_RealList : string -> option (list R)
}.

(** The parameters of the grid the procedure reads ([grid.x0()], ...) and
    those it passes to [grid.set_size_and_extent] and
    [grid.set_vertical_levels]. *)
Record GridParameters (Spacing : Type) : Type := {
  grid_x0 : R; grid_y0 : R;
  grid_Lx : R; grid_Ly : R; grid_Lz : R;
  grid_Mx : Z; grid_My : Z; grid_Mz : Z;
  grid_spacing : Spacing
}.

Arguments grid_x0 {Spacing}.
Arguments grid_y0 {Spacing}.
Arguments grid_Lx {Spacing}.
Arguments grid_Ly {Spacing}.
Arguments grid_Lz {Spacing}.
Arguments grid_Mx {Spacing}.
Arguments grid_My {Spacing}.
Arguments grid_Mz {Spacing}.
Arguments grid_spacing {Spacing}.

Section SetGridFromOptions.

Context {Spacing : Type}.

(** [string_to_spacing], declared outside src/, applied to the
    configuration string [grid_ice_vertical_spacing]. *)
Variable string_to_spacing : string -> Spacing.

(** Lines 163-246.  [x_range[0]] and [x_range[1]] are read once the size
    of the list is known to be 2. *)
Definition set_grid_from_options (cl : CommandLine)
  (grid_ice_vertical_spacing : string) (g : GridParameters Spacing)
  : RuntimeError + GridParameters Spacing :=
  let x0 := grid_x0 g in
  let y0 := grid_y0 g in
  let Lx := grid_Lx g in
  let Ly := grid_Ly g in
  let Lz := grid_Lz g in
  let Mx := grid_Mx g in
  let My := grid_My g in
  let Mz := grid_Mz g in
  let Lx := 1000.0 * options_Real cl "-Lx" (Lx / 1000.0) in
  let Ly := 1000.0 * options_Real cl "-Ly" (Ly / 1000.0) in
  let Lz := options_Real cl "-Lz" Lz in
  let validate (x0 y0 Lx Ly : R) : RuntimeError + GridParameters Spacing :=
    let Mx := options_Integer cl "-Mx" Mx in
    let My := options_Integer cl "-My" My in
    let Mz := options_Integer cl "-Mz" Mz in
    if ((Mx <? 3) || (My <? 3) || (Mz <? 2))%Z then
      inl (grid_size_is_invalid Mx My Mz)
    else if Rle_dec Lx 0.0 then
      inl (grid_extent_is_invalid (Lx / 1000.0) (Ly / 1000.0) Lz)
    else if Rle_dec Ly 0.0 then
      inl (grid_extent_is_invalid (Lx / 1000.0) (Ly / 1000.0) Lz)
    else if Rle_dec Lz 0.0 then
      inl (grid_extent_is_invalid (Lx / 1000.0) (Ly / 1000.0) Lz)
    else
      inr {| grid_x0 := x0; grid_y0 := y0;
             grid_Lx := Lx; grid_Ly := Ly; grid_Lz := Lz;
             grid_Mx := Mx; grid_My := My; grid_Mz := Mz;
             grid_spacing := string_to_spacing grid_ice_vertical_spacing |} in
  match options_RealList cl "-x_range", options_RealList cl "-y_range" with
  | Some x_range, Some y_range =>
    if (negb (length x_range =? 2)%nat || negb (length y_range =? 2)%nat)%bool
    then inl range_argument_is_invalid
    else
      validate ((nth 0 x_range 0 + nth 1 x_range 0) / 2.0)
               ((nth 0 y_range 0 + nth 1 y_range 0) / 2.0)
               ((nth 1 x_range 0 - nth 0 x_range 0) / 2.0)
               ((nth 1 y_range 0 - nth 0 y_range 0) / 2.0)
  | _, _ => validate x0 y0 Lx Ly
  end.

End SetGridFromOptions.

(** *** The sub-models and their allocation *)

(** The objects the allocation creates.  A constructor argument that is a
    pointer, or the referent of one, is kept as the pointer the
    constructor receives ([None] for the null pointer). *)
Inductive EnthalpyConverter : Type :=
| new_EnthalpyConverter
| new_varcEnthalpyConverter.

Inductive ShallowStressBalance : Type :=
| ZeroSliding (EC : option EnthalpyConverter)
| PrescribedSliding (EC : option EnthalpyConverter)
| SSAFEM (EC : option EnthalpyConverter)
| SSAFD (EC : option EnthalpyConverter).

Inductive SSB_Modifier : Type :=
| ConstantInColumn (EC : option EnthalpyConverter)
| SIAFD (EC : option EnthalpyConverter).

Record StressBalance : Type := {
  sliding : ShallowStressBalance;
  modifier : SSB_Modifier
}.

Inductive Hydrology : Type :=
| NullTransportHydrology
| RoutingHydrology
| DistributedHydrology (stress_balance : option StressBalance).

Inductive YieldStress : Type :=
| ConstantYieldStress
| MohrCoulombYieldStress (subglacial_hydrology : option Hydrology).

Inductive BedDef : Type :=
| PBPointwiseIsostasy
| PBLingleClark.

(** An [IcebergRemover] on which [init()] has been called. *)
Inductive IcebergRemover : Type := initialized_IcebergRemover.

Inductive BedThermalUnit : Type := new_BedThermalUnit.

(** The configuration the allocation reads. *)
Record AllocationConfig : Type := {
  use_linear_in_temperature_heat_capacity : bool;
  kill_icebergs : bool;
  stress_balance_model : string;
  ssa_method : string;
  hydrology_model : string;
  yield_stress_model : string;
  bed_deformation_model : string
}.

Section Allocation.

(** What the factories of the boundary models create ([ps.create()],
    [pa.create()], [po.create()]); the factories are outside src/. *)
Context {SurfaceModel AtmosphereModel OceanModel : Type}.
Variable ps_create : SurfaceModel.
Variable pa_create : AtmosphereModel.
Variable po_create : OceanModel.

(** The pointers of [IceModel] the allocation sets.  A surface model goes
    with the atmosphere model attached to it, if any. *)
Record Submodels : Type := {
  EC : option EnthalpyConverter;
  iceberg_remover : option IcebergRemover;
  stress_balance : option StressBalance;
  subglacial_hydrology : option Hydrology;
  basal_yield_stress_model : option YieldStress;
  btu : option BedThermalUnit;
  beddef : option BedDef;
  surface_model : option (SurfaceModel * option AtmosphereModel);
  external_surface_model : bool;
  ocean_model : option OceanModel;
  external_ocean_model : bool
}.

(** Assignments to these pointers. *)
Definition set_EC (s : Submodels) (v : option EnthalpyConverter)
  : Submodels :=
  {| EC := v; iceberg_remover := iceberg_remover s;
     stress_balance := stress_balance s;
     subglacial_hydrology := subglacial_hydrology s;
     basal_yield_stress_model := basal_yield_stress_model s;
     btu := btu s; beddef := beddef s;
     surface_model := surface_model s;
     external_surface_model := external_surface_model s;
     ocean_model := ocean_model s;
     external_ocean_model := external_ocean_model s |}.

Definition set_iceberg_remover (s : Submodels) (v : option IcebergRemover)
  : Submodels :=
  {| EC := EC s; iceberg_remover := v;
     stress_balance := stress_balance s;
     subglacial_hydrology := subglacial_hydrology s;
     basal_yield_stress_model := basal_yield_stress_model s;
     btu := btu s; beddef := beddef s;
     surface_model := surface_model s;
     external_surface_model := external_surface_model s;
     ocean_model := ocean_model s;
     external_ocean_model := external_ocean_model s |}.

Definition set_stress_balance (s : Submodels) (v : option StressBalance)
  : Submodels :=
  {| EC := EC s; iceberg_remover := iceberg_remover s;
     stress_balance := v;
     subglacial_hydrology := subglacial_hydrology s;
     basal_yield_stress_model := basal_yield_stress_model s;
     btu := btu s; beddef := beddef s;
     surface_model := surface_model s;
     external_surface_model := external_surface_model s;
     ocean_model := ocean_model s;
     external_ocean_model := external_ocean_model s |}.

Definition set_subglacial_hydrology (s : Submodels) (v : option Hydrology)
  : Submodels :=
  {| EC := EC s; iceberg_remover := iceberg_remover s;
     stress_balance := stress_balance s;
     subglacial_hydrology := v;
     basal_yield_stress_model := basal_yield_stress_model s;
     btu := btu s; beddef := beddef s;
     surface_model := surface_model s;
     external_surface_model := external_surface_model s;
     ocean_model := ocean_model s;
     external_ocean_model := external_ocean_model s |}.

Definition set_basal_yield_stress_model (s : Submodels)
  (v : option YieldStress) : Submodels :=
  {| EC := EC s; iceberg_remover := iceberg_remover s;
     stress_balance := stress_balance s;
     subglacial_hydrology := subglacial_hydrology s;
     basal_yield_stress_model := v;
     btu := btu s; beddef := beddef s;
     surface_model := surface_model s;
     external_surface_model := external_surface_model s;
     ocean_model := ocean_model s;
     external_ocean_model := external_ocean_model s |}.

Definition set_btu (s : Submodels) (v : option BedThermalUnit) : Submodels :=
  {| EC := EC s; iceberg_remover := iceberg_remover s;
     stress_balance := stress_balance s;
     subglacial_hydrology := subglacial_hydrology s;
     basal_yield_stress_model := basal_yield_stress_model s;
     btu := v; beddef := beddef s;
     surface_model := surface_model s;
     external_surface_model := external_surface_model s;
     ocean_model := ocean_model s;
     external_ocean_model := external_ocean_model s |}.

Definition set_beddef (s : Submodels) (v : option BedDef) : Submodels :=
  {| EC := EC s; iceberg_remover := iceberg_remover s;
     stress_balance := stress_balance s;
     subglacial_hydrology := subglacial_hydrology s;
     basal_yield_stress_model := basal_yield_stress_model s;
     btu := btu s; beddef := v;
     surface_model := surface_model s;
     external_surface_model := external_surface_model s;
     ocean_model := ocean_model s;
     external_ocean_model := external_ocean_model s |}.

(** [surface = ...; external_surface_model = false]. *)
Definition set_surface (s : Submodels)
  (v : option (SurfaceModel * option AtmosphereModel)) : Submodels :=
  {| EC := EC s; iceberg_remover := iceberg_remover s;
     stress_balance := stress_balance s;
     subglacial_hydrology := subglacial_hydrology s;
     basal_yield_stress_model := basal_yield_stress_model s;
     btu := btu s; beddef := beddef s;
     surface_model := v;
     external_surface_model := false;
     ocean_model := ocean_model s;
     external_ocean_model := external_ocean_model s |}.

(** [ocean = ...; external_ocean_model = false]. *)
Definition set_ocean (s : Submodels) (v : option OceanModel) : Submodels :=
  {| EC := EC s; iceberg_remover := iceberg_remover s;
     stress_balance := stress_balance s;
     subglacial_hydrology := subglacial_hydrology s;
     basal_yield_stress_model := basal_yield_stress_model s;
     btu := btu s; beddef := beddef s;
     surface_model := surface_model s;
     external_surface_model := external_surface_model s;
     ocean_model := v;
     external_ocean_model := false |}.

(** A procedure that may throw: the exception, if any, and the object as
    the procedure leaves it. *)
Definition Throwing (S : Type) : Type := S -> option RuntimeError * S.

(** One call after another; an exception ends the sequence. *)
Definition and_then {S : Type} (c k : Throwing S) : Throwing S :=
  fun s => match c s with
           | (None, s') => k s'
           | (Some e, s') => (Some e, s')
           end.

(** Lines 570-581. *)
Definition allocate_enthalpy_converter (config : AllocationConfig)
  : Throwing Submodels :=
  fun s =>
    match EC s with
    | Some _ => (None, s)
    | None =>
      if use_linear_in_temperature_heat_capacity config then
        (None, set_EC s (Some new_varcEnthalpyConverter))
      else
        (None, set_EC s (Some new_EnthalpyConverter))
    end.

(** The first chain of tests of [allocate_stressbalance], lines 592-610. *)
Definition choose_sliding (config : AllocationConfig)
  (EC : option EnthalpyConverter) : RuntimeError + ShallowStressBalance :=
  let model := stress_balance_model config in
  if (String.eqb model "none" || String.eqb model "sia")%bool then
    inr (ZeroSliding EC)
  else if (String.eqb model "prescribed_sliding"
           || String.eqb model "prescribed_sliding+sia")%bool then
    inr (PrescribedSliding EC)
  else if (String.eqb model "ssa" || String.eqb model "ssa+sia")%bool then
    let method := ssa_method config in
    if String.eqb method "fem" then inr (SSAFEM EC)
    else if String.eqb method "fd" then inr (SSAFD EC)
    else inl (invalid_ssa_method method)
  else inl (invalid_stress_balance_model model).

(** The second chain, lines 612-619.  The test
    [model == "prescribed_sliding+sia" || "ssa+sia"] has a string literal
    for its second operand, which counts as true. *)
Definition choose_modifier (config : AllocationConfig)
  (EC : option EnthalpyConverter) : RuntimeError + SSB_Modifier :=
  let model := stress_balance_model config in
  if (String.eqb model "none" || String.eqb model "ssa"
      || String.eqb model "prescribed_sliding")%bool then
    inr (ConstantInColumn EC)
  else if (String.eqb model "prescribed_sliding+sia" || true)%bool then
    inr (SIAFD EC)
  else inl (invalid_stress_balance_model model).

(** Lines 584-623. *)
Definition allocate_stressbalance (config : AllocationConfig)
  : Throwing Submodels :=
  fun s =>
    match stress_balance s with
    | Some _ => (None, s)
    | None =>
      match choose_sliding config (EC s) with
      | inl e => (Some e, s)
      | inr sliding =>
        match choose_modifier config (EC s) with
        | inl e => (Some e, s)
        | inr modifier =>
          (None,
           set_stress_balance s
             (Some {| sliding := sliding; modifier := modifier |}))
        end
      end
    end.

(** Lines 625-640. *)
Definition allocate_iceberg_remover (config : AllocationConfig)
  : Throwing Submodels :=
  fun s =>
    match iceberg_remover s with
    | Some _ => (None, s)
    | None =>
      if kill_icebergs config then
        (None, set_iceberg_remover s (Some initialized_IcebergRemover))
      else (None, s)
    end.

(** Lines 643-650. *)
Definition allocate_bedrock_thermal_unit : Throwing Submodels :=
  fun s =>
    match btu s with
    | Some _ => (None, s)
    | None => (None, set_btu s (Some new_BedThermalUnit))
    end.

(** Lines 653-670. *)
Definition allocate_subglacial_hydrology (config : AllocationConfig)
  : Throwing Submodels :=
  fun s =>
    let hydrology_model := hydrology_model config in
    match subglacial_hydrology s with
    | Some _ => (None, s)
    | None =>
      if String.eqb hydrology_model "null" then
        (None, set_subglacial_hydrology s (Some NullTransportHydrology))
      else if String.eqb hydrology_model "routing" then
        (None, set_subglacial_hydrology s (Some RoutingHydrology))
      else if String.eqb hydrology_model "distributed" then
        (None,
         set_subglacial_hydrology s
           (Some (DistributedHydrology (stress_balance s))))
      else (Some (unknown_hydrology_model hydrology_model), s)
    end.

(** Lines 673-694. *)
Definition allocate_basal_yield_stress (config : AllocationConfig)
  : Throwing Submodels :=
  fun s =>
    match basal_yield_stress_model s with
    | Some _ => (None, s)
    | None =>
      let model := stress_balance_model config in
      if (String.eqb model "ssa" || String.eqb model "ssa+sia")%bool then
        let yield_stress_model := yield_stress_model config in
        if String.eqb yield_stress_model "constant" then
          (None, set_basal_yield_stress_model s (Some ConstantYieldStress))
        else if String.eqb yield_stress_model "mohr_coulomb" then
          (None,
           set_basal_yield_stress_model s
             (Some (MohrCoulombYieldStress (subglacial_hydrology s))))
        else
          (Some (yield_stress_model_is_not_supported yield_stress_model), s)
      else (None, s)
    end.

(** Lines 935-954. *)
Definition allocate_bed_deformation (config : AllocationConfig)
  : Throwing Submodels :=
  fun s =>
    let model := bed_deformation_model config in
    match beddef s with
    | None =>
      if String.eqb model "none" then (None, set_beddef s None)
      else if String.eqb model "iso" then
        (None, set_beddef s (Some PBPointwiseIsostasy))
      else if String.eqb model "lc" then
        (None, set_beddef s (Some PBLingleClark))
      else (None, s)
    | Some _ => (None, s)
    end.

(** Lines 736-755. *)
Definition allocate_couplers : Throwing Submodels :=
  fun s =>
    let s :=
      match surface_model s with
      | None => set_surface s (Some (ps_create, Some pa_create))
      | Some _ => s
      end in
    match ocean_model s with
    | None => (None, set_ocean s (Some po_create))
    | Some _ => (None, s)
    end.

(** Lines 702-733, in the order of the calls. *)
Definition allocate_submodels (config : AllocationConfig)
  : Throwing Submodels :=
  and_then (allocate_enthalpy_converter config)
  (and_then (allocate_iceberg_remover config)
  (and_then (allocate_stressbalance config)
  (and_then (allocate_subglacial_hydrology config)
  (and_then (allocate_basal_yield_stress config)
  (and_then allocate_bedrock_thermal_unit
  (and_then (allocate_bed_deformation config)
            allocate_couplers)))))).

End Allocation.

(** *** What a run of the allocation keeps *)

(** [keeps_allocated s s']: every pointer that is set in [s] is the same
    pointer in [s'], and a boundary model that is set in [s] has the same
    [external] flag in [s']. *)
Definition keeps_allocated {SurfaceModel AtmosphereModel OceanModel : Type}
  (s s' : @Submodels SurfaceModel AtmosphereModel OceanModel) : Prop :=
  (forall v, EC s = Some v -> EC s' = Some v)
  /\ (forall v, iceberg_remover s = Some v -> iceberg_remover s' = Some v)
  /\ (forall v, stress_balance s = Some v -> stress_balance s' = Some v)
  /\ (forall v, subglacial_hydrology s = Some v ->
        subglacial_hydrology s' = Some v)
  /\ (forall v, basal_yield_stress_model s = Some v ->
        basal_yield_stress_model s' = Some v)
  /\ (forall v, btu s = Some v -> btu s' = Some v)
  /\ (forall v, beddef s = Some v -> beddef s' = Some v)
  /\ (forall v, surface_model s = Some v ->
        surface_model s' = Some v
        /\ external_surface_model s' = external_surface_model s)
  /\ (forall v, ocean_model s = Some v ->
        ocean_model s' = Some v
        /\ external_ocean_model s' = external_ocean_model s).

(** *** The first step of the boundary models *)

(** [std::min_element] on a vector that is not empty, whose first element
    is [x]: the first of the smallest elements. *)
Fixpoint min_element (x : R) (l : list R) : R :=
  match l with
  | [] => x
  | y :: l' => min_element (if Rlt_dec y x then y else x) l'
  end.

Section InitStepCouplers.

(** [grid.time->increment_date] and the methods of the boundary models
    are outside src/.  [max_timestep(t, dt, restrict)] receives [dt] and
    [restrict] by reference: it gets their values and gives the values it
    leaves. *)
Context {SurfaceModel OceanModel : Type}.
Variable increment_date : R -> R -> R.
Variable surface_max_timestep : SurfaceModel -> R -> R -> bool -> R * bool.
Variable ocean_max_timestep : OceanModel -> R -> R -> bool -> R * bool.
Variable surface_update : R -> R -> SurfaceModel -> SurfaceModel.
Variable ocean_update : R -> R -> OceanModel -> OceanModel.

(** Lines 779-808 of [init_step_couplers]: the length of the step. *)
Definition init_step_max_dt (current_time : R) (surface : SurfaceModel)
  (ocean : OceanModel) : R :=
  let max_dt := 0.0 in
  let restrict_dt := false in
  let one_year_from_now := increment_date current_time 1.0 in
  let dt_restrictions := [one_year_from_now - current_time] in
  let apcc_dt := 0.0 in
  let '(apcc_dt, restrict_dt) :=
    surface_max_timestep surface current_time apcc_dt restrict_dt in
  let dt_restrictions :=
    if restrict_dt then dt_restrictions ++ [apcc_dt] else dt_restrictions in
  let opcc_dt := 0.0 in
  let '(opcc_dt, restrict_dt) :=
    ocean_max_timestep ocean current_time opcc_dt restrict_dt in
  let dt_restrictions :=
    if restrict_dt then dt_restrictions ++ [opcc_dt] else dt_restrictions in
  let max_dt :=
    match dt_restrictions with
    | [] => max_dt
    | x :: l => min_element x l
    end in
  if Rlt_dec max_dt 1.0 then 1.0 else max_dt.

(** Lines 774-812. *)
Definition init_step_couplers (current_time : R)
  (m : SurfaceModel * OceanModel) : SurfaceModel * OceanModel :=
  let max_dt := init_step_max_dt current_time (fst m) (snd m) in
  (surface_update current_time max_dt (fst m),
   ocean_update current_time max_dt (snd m)).

End InitStepCouplers.

(** ** Example values *)

(** Values for the constants and helpers of [Externals], for the examples
    below: the year in seconds, the acceleration of gravity, the integer
    codes of the masks with the codes above FLOATING folded back by 4,
    centred differences. *)
Definition example_mask_value (m : PismMask) : Z :=
  match m with
  | MASK_UNKNOWN => -1
  | MASK_SHEET => 1
  | MASK_DRAGGING_SHEET => 2
  | MASK_FLOATING => 3
  | MASK_OCEAN_AT_TIME_0 => 7
  end.

Definition example_externals : Externals := {|
  secpera := 31556926;
  standard_gravity := 9.81;
  mask_value := example_mask_value;
  PismModMask := fun m =>
    if (example_mask_value m >? 3)%Z then (example_mask_value m - 4)%Z
    else example_mask_value m;
  pow := Rpower;
  diff_x := fun g f i j => (f (i+1)%Z j - f (i-1)%Z j) / (2 * dx g);
  diff_y := fun g f i j => (f i (j+1)%Z - f i (j-1)%Z) / (2 * dy g);
  diff_x_p := fun g f i j => (f (i+1)%Z j - f (i-1)%Z j) / (2 * dx g);
  diff_y_p := fun g f i j => (f i (j+1)%Z - f i (j-1)%Z) / (2 * dy g)
|}.

(** A process that owns the single point [(0,0)]. *)
Definition example_grid : IceGrid :=
  {| xs := 0; xm := 1; ys := 0; ym := 1; dx := 1000; dy := 1000; year := 0 |}.

(** A wet run, SIA only, with every option of the continuity step off. *)
Definition example_config : NCConfigVariable := {|
  is_dry_simulation := false;
  do_plastic_till := false;
  use_ssa_velocity := false;
  sea_water_density := 1000;
  ocean_kill := false;
  floating_ice_killed := false;
  include_bmr_in_continuity := false;
  do_superpose := false;
  compute_surf_grad_inward_ssa := false
|}.

Definition example_dry_config : NCConfigVariable := {|
  is_dry_simulation := true;
  do_plastic_till := false;
  use_ssa_velocity := false;
  sea_water_density := 1000;
  ocean_kill := false;
  floating_ice_killed := false;
  include_bmr_in_continuity := false;
  do_superpose := false;
  compute_surf_grad_inward_ssa := false
|}.

(** SSA velocities in use, without plastic till: the configuration in
    which a point that grounds is first marked UNKNOWN. *)
Definition example_ssa_config : NCConfigVariable := {|
  is_dry_simulation := false;
  do_plastic_till := false;
  use_ssa_velocity := true;
  sea_water_density := 1000;
  ocean_kill := false;
  floating_ice_killed := false;
  include_bmr_in_continuity := false;
  do_superpose := false;
  compute_surf_grad_inward_ssa := false
|}.

(** SSA velocities superposed on the SIA. *)
Definition example_superpose_config : NCConfigVariable := {|
  is_dry_simulation := false;
  do_plastic_till := false;
  use_ssa_velocity := true;
  sea_water_density := 1000;
  ocean_kill := false;
  floating_ice_killed := false;
  include_bmr_in_continuity := false;
  do_superpose := true;
  compute_surf_grad_inward_ssa := false
|}.

Definition example_ocean : PISMOceanModel :=
  {| sea_level_elevation := fun _ _ => 0;
     shelf_base_mass_flux := fun _ _ _ _ => 0 |}.

(** A surface model with the constant mass balance [mb]. *)
Definition example_surface (mb : R) : PISMSurfaceModel :=
  {| ice_surface_mass_flux := fun _ _ _ _ => mb |}.

(** Sea level 0, ice of density 920 on an ocean of density 1000, uniform
    thickness [H], bed [bed] and mask [mask], no velocity, no SIA flux,
    surface mass balance [mb], and a step [dt = 1]. *)
Definition example_model (cfg : NCConfigVariable) (H bed mb : R)
  (mask : PismMask) : IceModel := {|
  grid := example_grid;
  config := cfg;
  ice := {| rho := 920; exponent := 3 |};
  ocean := Some example_ocean;
  surface := Some (example_surface mb);
  dt := 1;
  transformForSurfaceGradient := false;
  computeSIAVelocities := true;
  vh := fun _ _ => 0;
  vH := fun _ _ => H;
  vbed := fun _ _ => bed;
  vMask := fun _ _ => mask;
  vuvbar0 := fun _ _ => 0;
  vuvbar1 := fun _ _ => 0;
  vub := fun _ _ => 0;
  vvb := fun _ _ => 0;
  vubarSSA := fun _ _ => 0;
  vvbarSSA := fun _ _ => 0;
  vbasalMeltRate := fun _ _ => 0
|}.

(** A wet run in which the ice of the fixed ocean and of floating points
    is removed. *)
Definition example_kill_config : NCConfigVariable := {|
  is_dry_simulation := false;
  do_plastic_till := false;
  use_ssa_velocity := false;
  sea_water_density := 1000;
  ocean_kill := true;
  floating_ice_killed := true;
  include_bmr_in_continuity := false;
  do_superpose := false;
  compute_surf_grad_inward_ssa := false
|}.

(** Grounded ice of thickness [100 + 10 i^2] on a flat bed that slides at
    the uniform velocity [(u, v)], without SIA flux and without mass
    balance; the surface gradient is the transformed one. *)
Definition example_sliding_model (u v : R) : IceModel := {|
  grid := example_grid;
  config := example_config;
  ice := {| rho := 920; exponent := 3 |};
  ocean := Some example_ocean;
  surface := Some (example_surface 0);
  dt := 1;
  transformForSurfaceGradient := true;
  computeSIAVelocities := false;
  vh := fun _ _ => 0;
  vH := fun i _ => 100 + 10 * IZR (i * i);
  vbed := fun _ _ => 0;
  vMask := fun _ _ => MASK_SHEET;
  vuvbar0 := fun _ _ => 0;
  vuvbar1 := fun _ _ => 0;
  vub := fun _ _ => u;
  vvb := fun _ _ => v;
  vubarSSA := fun _ _ => 0;
  vvbarSSA := fun _ _ => 0;
  vbasalMeltRate := fun _ _ => 0
|}.

(** A command line without options: every option answers with its
    default. *)
Definition example_command_line : CommandLine := {|
  options_Real := fun _ d => d;
  options_Integer := fun _ d => d;
  options_RealList := fun _ => None
|}.

(** The command line [-x_range 0,10 -y_range 0,20]. *)
Definition example_ranges_command_line : CommandLine := {|
  options_Real := fun _ d => d;
  options_Integer := fun _ d => d;
  options_RealList := fun name =>
    if String.eqb name "-x_range" then Some [0; 10]
    else if String.eqb name "-y_range" then Some [0; 20]
    else None
|}.

(** A grid of 61 by 61 by 31 points, 2000 wide and 4000 high, with the
    name of the spacing for the spacing. *)
Definition example_grid_parameters : GridParameters string := {|
  grid_x0 := 0; grid_y0 := 0;
  grid_Lx := 1000; grid_Ly := 1000; grid_Lz := 4000;
  grid_Mx := 61; grid_My := 61; grid_Mz := 31;
  grid_spacing := "quadratic"%string
|}.

(** A configuration that asks for every kind of sub-model. *)
Definition example_allocation_config : AllocationConfig := {|
  use_linear_in_temperature_heat_capacity := false;
  kill_icebergs := true;
  stress_balance_model := "ssa+sia"%string;
  ssa_method := "fd";
  hydrology_model := "distributed";
  yield_stress_model := "mohr_coulomb";
  bed_deformation_model := "lc"
|}.

(** A model in which nothing is allocated yet, with boundary models of
    the one-element type. *)
Definition example_unallocated : @Submodels unit unit unit := {|
  EC := None;
  iceberg_remover := None;
  stress_balance := None;
  subglacial_hydrology := None;
  basal_yield_stress_model := None;
  btu := None;
  beddef := None;
  surface_model := None;
  external_surface_model := true;
  ocean_model := None;
  external_ocean_model := true
|}.

(** * Properties *)

(** ** Fields and index ranges *)

Lemma upd_same {A : Type} (f : field A) (i j : Z) (v : A) :
  upd f i j v i j = v.
Proof. unfold upd. now rewrite !Z.eqb_refl. Qed.

Lemma upd_other {A : Type} (f : field A) (i j i' j' : Z) (v : A) :
  (i', j') <> (i, j) -> upd f i j v i' j' = f i' j'.
Proof.
  intros Hne. unfold upd.
  destruct (Z.eqb_spec i' i) as [-> | _]; [ | reflexivity ].
  destruct (Z.eqb_spec j' j) as [-> | _]; [ | reflexivity ].
  now elim Hne.
Qed.

Lemma In_range (lo n k : Z) :
  In k (range lo n) <-> (lo <= k < lo + n)%Z.
Proof.
  unfold range. rewrite in_map_iff. split.
  - intros [x [<- Hx]]. apply in_seq in Hx. lia.
  - intros Hk. exists (Z.to_nat (k - lo)). split; [ lia | ].
    apply in_seq. lia.
Qed.

Lemma NoDup_range (lo n : Z) : NoDup (range lo n).
Proof.
  unfold range. apply Injective_map_NoDup.
  - intros a b Hab. lia.
  - apply seq_NoDup.
Qed.

Lemma In_owned_points (g : IceGrid) (i j : Z) :
  In (i, j) (owned_points g) <-> owned g i j.
Proof.
  unfold owned_points, owned. rewrite in_flat_map. split.
  - intros [i' [Hi Hj]]. apply in_map_iff in Hj.
    destruct Hj as [j' [Heq Hj]]. inversion Heq; subst.
    now rewrite In_range in Hi, Hj.
  - intros [Hi Hj]. exists i. split; [ now apply In_range | ].
    apply in_map. now apply In_range.
Qed.

Lemma NoDup_owned_points (g : IceGrid) : NoDup (owned_points g).
Proof.
  unfold owned_points.
  generalize (NoDup_range (xs g) (xm g)).
  induction (range (xs g) (xm g)) as [ | i l IH]; intros Hnd; simpl.
  - constructor.
  - inversion Hnd as [ | ? ? Hi Hl]; subst.
    apply NoDup_app; [ | now apply IH | ].
    + apply Injective_map_NoDup; [ | apply NoDup_range ].
      intros a b Hab. now inversion Hab.
    + intros [i' j'] Hin1 Hin2.
      apply in_map_iff in Hin1. destruct Hin1 as [j0 [Heq _]].
      inversion Heq; subst.
      apply in_flat_map in Hin2. destruct Hin2 as [i0 [Hi0 Hin2]].
      apply in_map_iff in Hin2. destruct Hin2 as [j1 [Heq1 _]].
      inversion Heq1; subst. contradiction.
Qed.

(** The loops visit the owned points in increasing order. *)
Lemma range_sorted (lo n : Z) : StronglySorted Z.lt (range lo n).
Proof.
  unfold range. generalize 0%nat as start.
  induction (Z.to_nat n) as [ | len IH]; intros start; simpl;
    constructor; [ apply IH | ].
  apply Forall_forall. intros k Hk. apply in_map_iff in Hk.
  destruct Hk as [x [<- Hx]]. apply in_seq in Hx. lia.
Qed.

Lemma StronglySorted_app {A : Type} (lt : A -> A -> Prop) (l1 l2 : list A) :
  StronglySorted lt l1 -> StronglySorted lt l2 ->
  (forall a b, In a l1 -> In b l2 -> lt a b) ->
  StronglySorted lt (l1 ++ l2).
Proof.
  intros H1 H2 Hcross. induction H1 as [ | a l1 Hl1 IH Ha]; simpl; [ exact H2 | ].
  constructor.
  - apply IH. intros x y Hx Hy. apply Hcross; [ now right | exact Hy ].
  - apply Forall_forall. intros x Hx. apply in_app_or in Hx.
    destruct Hx as [Hx | Hx].
    + rewrite Forall_forall in Ha. now apply Ha.
    + apply Hcross; [ now left | exact Hx ].
Qed.

Lemma owned_points_sorted (g : IceGrid) :
  StronglySorted visited_earlier (owned_points g).
Proof.
  unfold owned_points.
  pose proof (range_sorted (ys g) (ym g)) as Hjs.
  pose proof (range_sorted (xs g) (xm g)) as His.
  induction His as [ | i rows His IH Hi]; simpl; [ constructor | ].
  apply StronglySorted_app; [ | exact IH | ].
  - clear IH. induction Hjs as [ | j js Hjs IHj Hj]; simpl; constructor;
      [ exact IHj | ].
    rewrite Forall_forall in Hj |- *. intros [i' j'] Hin.
    apply in_map_iff in Hin. destruct Hin as [j0 [Heq Hj0]].
    inversion Heq; subst. right. simpl. split; [ reflexivity | now apply Hj ].
  - intros [i1 j1] [i2 j2] H1 H2.
    apply in_map_iff in H1. destruct H1 as [j0 [Heq _]]. inversion Heq; subst.
    apply in_flat_map in H2. destruct H2 as [i0 [Hi0 H2]].
    apply in_map_iff in H2. destruct H2 as [j3 [Heq2 _]]. inversion Heq2; subst.
    left. simpl. rewrite Forall_forall in Hi. now apply Hi.
Qed.

(** ** Loops *)

Section Loops.

Context {A S : Type}.
Variable eq_dec : forall a b : A, {a = b} + {a <> b}.
Variable body : A -> Petsc S.

Lemma visit_split (a : A) (l : list A) :
  In a l -> l = visited_before eq_dec a l ++ a :: visited_after eq_dec a l.
Proof.
  induction l as [ | b l IH]; simpl; [ easy | ].
  intros Hin. destruct (eq_dec b a) as [-> | Hne]; [ reflexivity | ].
  destruct Hin as [-> | Hin]; [ now elim Hne | ].
  simpl. now rewrite <- IH.
Qed.

Lemma visited_before_incl (a b : A) (l : list A) :
  In b (visited_before eq_dec a l) -> In b l /\ b <> a.
Proof.
  induction l as [ | c l IH]; simpl; [ easy | ].
  destruct (eq_dec c a) as [-> | Hne]; simpl; [ easy | ].
  intros [-> | Hin]; [ auto | ]. destruct (IH Hin). auto.
Qed.

Lemma visited_after_incl (a b : A) (l : list A) :
  NoDup l -> In b (visited_after eq_dec a l) -> In b l /\ b <> a.
Proof.
  induction l as [ | c l IH]; simpl; [ easy | ].
  intros Hnd Hin. inversion Hnd as [ | ? ? Hc Hl]; subst.
  destruct (eq_dec c a) as [-> | Hne].
  - split; [ now right | ]. intros ->. contradiction.
  - destruct (IH Hl Hin). auto.
Qed.

Lemma for_each_app (l1 l2 : list A) (s : S) :
  for_each (l1 ++ l2) body s = (for_each l1 body ;; for_each l2 body) s.
Proof.
  revert s. induction l1 as [ | a l1 IH]; intros s; simpl.
  - reflexivity.
  - unfold CHKERRQ. destruct (body a s) as [[ | n msg] s']; simpl.
    + rewrite IH. reflexivity.
    + reflexivity.
Qed.

(** A property every body keeps, whatever it returns, holds of the state
    the loop leaves. *)
Lemma for_each_invariant (P : S -> Prop) (l : list A) :
  (forall a s, In a l -> P s -> P (snd (body a s))) ->
  forall s, P s -> P (snd (for_each l body s)).
Proof.
  induction l as [ | a l IH]; intros Hbody s Hs; simpl; [ exact Hs | ].
  unfold CHKERRQ.
  pose proof (Hbody a s (or_introl eq_refl) Hs) as Hs'.
  destruct (body a s) as [[ | n msg] s']; simpl in *.
  - apply IH; [ | exact Hs' ]. intros b t Hb. apply Hbody. now right.
  - exact Hs'.
Qed.

(** Bodies that succeed on the states of an invariant make the loop
    succeed. *)
Lemma for_each_ok (P : S -> Prop) (l : list A) :
  (forall a s, In a l -> P s ->
               fst (body a s) = PETSC_OK /\ P (snd (body a s))) ->
  forall s, P s -> fst (for_each l body s) = PETSC_OK.
Proof.
  induction l as [ | a l IH]; intros Hbody s Hs; simpl; [ reflexivity | ].
  unfold CHKERRQ.
  destruct (Hbody a s (or_introl eq_refl) Hs) as [Hok Hs'].
  destruct (body a s) as [[ | n msg] s']; simpl in *; [ | discriminate ].
  apply IH; [ | exact Hs' ]. intros b t Hb. apply Hbody. now right.
Qed.

(** A loop that succeeds has run each of its bodies with success. *)
Lemma for_each_ok_prefix (l1 l2 : list A) (s : S) :
  fst (for_each (l1 ++ l2) body s) = PETSC_OK ->
  fst (for_each l1 body s) = PETSC_OK.
Proof.
  rewrite for_each_app. unfold CHKERRQ.
  destruct (for_each l1 body s) as [[ | n msg] s']; simpl; auto.
Qed.

Lemma for_each_ok_visit (a : A) (l : list A) (s : S) :
  In a l ->
  fst (for_each l body s) = PETSC_OK ->
  fst (for_each (visited_before eq_dec a l) body s) = PETSC_OK /\
  fst (body a (snd (for_each (visited_before eq_dec a l) body s))) = PETSC_OK.
Proof.
  intros Hin Hok. rewrite (visit_split a l Hin) in Hok.
  split; [ now apply for_each_ok_prefix in Hok | ].
  rewrite for_each_app in Hok. unfold CHKERRQ in Hok.
  destruct (for_each (visited_before eq_dec a l) body s) as [[ | n msg] s'];
    simpl in *; [ | discriminate ].
  unfold CHKERRQ in Hok.
  destruct (body a s') as [[ | n msg] s'']; simpl in *;
    [ reflexivity | discriminate ].
Qed.

(** In a range without repetition a point visited before [a] is not
    visited again. *)
Lemma visited_before_once (a b : A) (l : list A) :
  NoDup l -> In a l -> In b (visited_before eq_dec a l) ->
  ~ In b (a :: visited_after eq_dec a l).
Proof.
  intros Hnd Hin Hb. rewrite (visit_split a l Hin) in Hnd.
  revert Hb Hnd. generalize (visited_after eq_dec a l) as post.
  generalize (visited_before eq_dec a l) as pre.
  induction pre as [ | c pre IH]; intros post Hb Hnd; [ destruct Hb | ].
  simpl in Hnd. inversion Hnd as [ | ? ? Hc Hrest]; subst.
  destruct Hb as [-> | Hb].
  - intros Hin'. apply Hc. apply in_or_app. now right.
  - now apply IH.
Qed.

(** In a range sorted by a strict order, the points visited before [a] are
    the points of the range below [a]. *)
Lemma visited_before_sorted (lt : A -> A -> Prop) (a b : A) (l : list A) :
  (forall x, ~ lt x x) ->
  (forall x y, lt x y -> lt y x -> False) ->
  StronglySorted lt l -> In a l ->
  (In b (visited_before eq_dec a l) <-> In b l /\ lt b a).
Proof.
  intros Hirr Hasym Hsorted Hin.
  induction Hsorted as [ | c l Hl IH Hc]; [ destruct Hin | ].
  rewrite Forall_forall in Hc. simpl.
  destruct (eq_dec c a) as [-> | Hne].
  - split; [ intros [] | ]. intros [[<- | Hb] Hlt].
    + now apply Hirr in Hlt.
    + elim (Hasym _ _ Hlt (Hc b Hb)).
  - destruct Hin as [-> | Hin]; [ now elim Hne | ]. simpl. split.
    + intros [<- | Hb]; [ split; [ now left | now apply Hc ] | ].
      apply IH in Hb; [ | exact Hin ]. destruct Hb. split; [ now right | auto ].
    + intros [[<- | Hb] Hlt]; [ now left | ].
      right. apply IH; auto.
Qed.

(** What a loop whose bodies write one place each leaves at a place. *)
Section Places.

Context {V : Type}.
Variable view : A -> S -> V.
Hypothesis body_local :
  forall a b s, a <> b -> view a (snd (body b s)) = view a s.

Lemma for_each_frame (a : A) (l : list A) (s : S) :
  ~ In a l -> view a (snd (for_each l body s)) = view a s.
Proof.
  intros Hnin.
  apply (for_each_invariant (fun t => view a t = view a s)); [ | reflexivity ].
  intros b t Hb Ht. rewrite body_local; [ exact Ht | ].
  intros ->. contradiction.
Qed.

Lemma visited_before_frame (a : A) (l : list A) (s : S) :
  view a (snd (for_each (visited_before eq_dec a l) body s)) = view a s.
Proof.
  apply for_each_frame. intros Hin.
  apply visited_before_incl in Hin. now destruct Hin.
Qed.

Lemma for_each_visit (a : A) (l : list A) (s : S) :
  NoDup l -> In a l ->
  fst (for_each l body s) = PETSC_OK ->
  view a (snd (for_each l body s))
  = view a (snd (body a (snd (for_each (visited_before eq_dec a l) body s)))).
Proof.
  intros Hnd Hin Hok.
  destruct (for_each_ok_visit a l s Hin Hok) as [Hpre Ha].
  rewrite (visit_split a l Hin) at 1.
  rewrite for_each_app. unfold CHKERRQ.
  destruct (for_each (visited_before eq_dec a l) body s) as [[ | n msg] s'];
    simpl in *; [ | discriminate ].
  unfold CHKERRQ.
  destruct (body a s') as [[ | n msg] s'']; simpl in *; [ | discriminate ].
  apply for_each_frame. intros Hin'.
  apply (visited_after_incl a a l Hnd) in Hin'. now destruct Hin'.
Qed.

(** A place visited before [a] holds, when the loop reaches [a], the
    value it has at the end. *)
Lemma for_each_visited_earlier (a b : A) (l : list A) (s : S) :
  NoDup l -> In a l -> In b (visited_before eq_dec a l) ->
  fst (for_each l body s) = PETSC_OK ->
  view b (snd (for_each (visited_before eq_dec a l) body s))
  = view b (snd (for_each l body s)).
Proof.
  intros Hnd Hin Hb Hok.
  pose proof (visited_before_once a b l Hnd Hin Hb) as Hlater.
  pose proof (visit_split a l Hin) as Hsplit.
  remember (visited_before eq_dec a l) as pre.
  remember (visited_after eq_dec a l) as post.
  rewrite Hsplit in Hok |- *.
  rewrite for_each_app in Hok |- *. unfold CHKERRQ at 1 in Hok.
  unfold CHKERRQ at 1.
  destruct (for_each pre body s) as [[ | n msg] s'];
    simpl in *; [ | discriminate ].
  symmetry. apply (for_each_frame b (a :: post) s' Hlater).
Qed.

End Places.

End Loops.

(** The nested loops visit [owned_points], in that order. *)
Lemma for_owned_points {S : Type} (g : IceGrid) (body : Z -> Z -> Petsc S)
  (s : S) :
  for_owned g body s
  = for_each (owned_points g) (fun p => body (fst p) (snd p)) s.
Proof.
  unfold for_owned, owned_points.
  revert s. induction (range (xs g) (xm g)) as [ | i l IH]; intros s; simpl.
  - reflexivity.
  - rewrite for_each_app. unfold CHKERRQ at 1 2.
    assert (Hrow : forall js t,
               for_each js (fun j => body i j) t
               = for_each (map (fun j => (i, j)) js)
                          (fun p => body (fst p) (snd p)) t).
    { induction js as [ | j js IHjs]; intros t; simpl; [ reflexivity | ].
      unfold CHKERRQ. destruct (body i j t) as [[ | n msg] t']; auto. }
    rewrite Hrow.
    destruct (for_each (map (fun j => (i, j)) (range (ys g) (ym g)))
                       (fun p => body (fst p) (snd p)) s) as [[ | n msg] s'].
    + apply IH.
    + reflexivity.
Qed.

(** ** Writes to the model *)

Lemma vh_write_h (m : IceModel) (i j : Z) (x : R) :
  vh (write_h m i j x) = upd (vh m) i j x.
Proof. reflexivity. Qed.

Lemma vMask_write_mask (m : IceModel) (i j : Z) (x : PismMask) :
  vMask (write_mask m i j x) = upd (vMask m) i j x.
Proof. reflexivity. Qed.

Lemma mask_eqb_eq (a b : PismMask) : mask_eqb a b = true <-> a = b.
Proof. destruct a, b; simpl; split; congruence. Qed.

Lemma mask_eqb_neq (a b : PismMask) : mask_eqb a b = false <-> a <> b.
Proof. destruct a, b; simpl; split; congruence. Qed.

Lemma same_inputs_refl (m : IceModel) : same_inputs m m.
Proof. repeat split. Qed.

Ltac break_ifs :=
  repeat match goal with
         | |- context [if ?c then _ else _] => destruct c eqn:?
         end.

Section UpdateSurfaceElevationAndMask.

Context {ext : Externals}.

Lemma update_point_inputs (sl : R) (i j : Z) (m : IceModel) :
  same_inputs m (snd (update_point sl i j m)).
Proof.
  unfold update_point, vote_by_neighbors, flotation_criterion.
  break_ifs; repeat split.
Qed.

Lemma update_point_local (sl : R) (i j i' j' : Z) (m : IceModel) :
  (i', j') <> (i, j) ->
  vh (snd (update_point sl i j m)) i' j' = vh m i' j' /\
  vMask (snd (update_point sl i j m)) i' j' = vMask m i' j'.
Proof.
  intros Hne.
  unfold update_point, vote_by_neighbors, flotation_criterion.
  break_ifs; simpl; rewrite ?upd_other by assumption; auto.
Qed.

(** The body fails exactly on a negative thickness, with the indices of
    the point in the message, and then writes nothing. *)
Lemma update_point_negative (sl : R) (i j : Z) (m : IceModel) :
  vH m i j < 0 ->
  update_point sl i j m = (SETERRQ 1 (Thickness_negative_at_point i j), m).
Proof.
  intros Hneg. unfold update_point.
  destruct (Rlt_dec (vH m i j) 0); [ reflexivity | contradiction ].
Qed.

Lemma update_point_nonnegative (sl : R) (i j : Z) (m : IceModel) :
  0 <= vH m i j -> fst (update_point sl i j m) = PETSC_OK.
Proof.
  intros Hpos. unfold update_point.
  destruct (Rlt_dec (vH m i j) 0); [ lra | ]. break_ifs; reflexivity.
Qed.

Lemma update_point_ok (sl : R) (i j : Z) (m : IceModel) :
  fst (update_point sl i j m) = PETSC_OK -> 0 <= vH m i j.
Proof.
  unfold update_point.
  destruct (Rlt_dec (vH m i j) 0); simpl; [ discriminate | lra ].
Qed.

Lemma updateSurfaceElevationAndMask_loop (m : IceModel) (o : PISMOceanModel) :
  ocean m = Some o ->
  updateSurfaceElevationAndMask m
  = update_loop (currentSeaLevel m o) (owned_points (grid m)) m.
Proof.
  intros Ho. unfold updateSurfaceElevationAndMask. rewrite Ho.
  apply for_owned_points.
Qed.

Lemma update_loop_inputs (sl : R) (l : list (Z * Z)) (m : IceModel) :
  same_inputs m (snd (update_loop sl l m)).
Proof.
  apply (for_each_invariant (update_body sl) (same_inputs m));
    [ | apply same_inputs_refl ].
  intros [i j] s _ Hs. unfold update_body; simpl.
  destruct (update_point_inputs sl i j s) as (H1 & H2 & H3 & H4 & H5 & H6).
  destruct Hs as (G1 & G2 & G3 & G4 & G5 & G6).
  repeat split; congruence.
Qed.

Lemma update_body_local (sl : R) (a b : Z * Z) (m : IceModel) :
  a <> b -> point_view a (snd (update_body sl b m)) = point_view a m.
Proof.
  destruct a as [i' j'], b as [i j]. intros Hne.
  unfold point_view, update_body; simpl.
  destruct (update_point_local sl i j i' j' m Hne) as [-> ->]. reflexivity.
Qed.

(** A point the loop has not reached holds its values of entry. *)
Lemma when_visited_point (sl : R) (m : IceModel) (i j : Z) :
  vh (when_visited sl m i j) i j = vh m i j /\
  vMask (when_visited sl m i j) i j = vMask m i j.
Proof.
  pose proof (visited_before_frame point_eq_dec (update_body sl) point_view
                (update_body_local sl) (i, j) (owned_points (grid m)) m) as Hv.
  unfold point_view in Hv; simpl in Hv. unfold when_visited, update_loop.
  inversion Hv. auto.
Qed.

Lemma when_visited_inputs (sl : R) (m : IceModel) (i j : Z) :
  same_inputs m (when_visited sl m i j).
Proof. apply update_loop_inputs. Qed.

(** After a call that succeeds, an owned point holds what its own visit
    wrote. *)
Lemma update_at_point (m : IceModel) (o : PISMOceanModel) (i j : Z) :
  ocean m = Some o ->
  owned (grid m) i j ->
  fst (updateSurfaceElevationAndMask m) = PETSC_OK ->
  let sl := currentSeaLevel m o in
  let m' := snd (updateSurfaceElevationAndMask m) in
  let visit := snd (update_point sl i j (when_visited sl m i j)) in
  vh m' i j = vh visit i j /\ vMask m' i j = vMask visit i j.
Proof.
  intros Ho Hown Hok sl m' visit. subst m' visit.
  rewrite (updateSurfaceElevationAndMask_loop m o Ho) in *.
  fold sl in Hok |- *.
  pose proof (for_each_visit point_eq_dec (update_body sl) point_view
                (update_body_local sl) (i, j) (owned_points (grid m)) m
                (NoDup_owned_points (grid m))
                (proj2 (In_owned_points (grid m) i j) Hown) Hok) as Hv.
  unfold point_view in Hv; simpl in Hv. inversion Hv. auto.
Qed.

(** The call succeeds exactly when no owned thickness is negative. *)
Lemma update_ok_nonnegative (m : IceModel) (o : PISMOceanModel) :
  ocean m = Some o ->
  (forall i j, owned (grid m) i j -> 0 <= vH m i j) ->
  fst (updateSurfaceElevationAndMask m) = PETSC_OK.
Proof.
  intros Ho Hpos. rewrite (updateSurfaceElevationAndMask_loop m o Ho).
  apply (for_each_ok (update_body (currentSeaLevel m o)) (same_inputs m));
    [ | apply same_inputs_refl ].
  intros [i j] s Hin Hs. split.
  - apply update_point_nonnegative.
    destruct Hs as (_ & _ & _ & _ & -> & _).
    apply Hpos. now apply In_owned_points.
  - unfold update_body; simpl.
    destruct (update_point_inputs (currentSeaLevel m o) i j s)
      as (H1 & H2 & H3 & H4 & H5 & H6).
    destruct Hs as (G1 & G2 & G3 & G4 & G5 & G6).
    repeat split; congruence.
Qed.

Lemma update_ok_visited (m : IceModel) (o : PISMOceanModel) (i j : Z) :
  ocean m = Some o ->
  owned (grid m) i j ->
  fst (updateSurfaceElevationAndMask m) = PETSC_OK ->
  0 <= vH m i j.
Proof.
  intros Ho Hown Hok.
  rewrite (updateSurfaceElevationAndMask_loop m o Ho) in Hok.
  destruct (for_each_ok_visit point_eq_dec
              (update_body (currentSeaLevel m o)) (i, j)
              (owned_points (grid m)) m
              (proj2 (In_owned_points (grid m) i j) Hown) Hok) as [_ Hpt].
  apply update_point_ok in Hpt. simpl in Hpt.
  destruct (when_visited_inputs (currentSeaLevel m o) m i j)
    as (_ & _ & _ & _ & HH & _).
  unfold when_visited, update_loop in HH. now rewrite HH in Hpt.
Qed.

(** The points the loop has visited when it reaches an owned point
    [(i,j)]: the owned points of a smaller [i], and those of the same [i]
    and a smaller [j]. *)
Lemma visited_before_owned (g : IceGrid) (i j i' j' : Z) :
  owned g i j ->
  (In (i', j') (visited_before point_eq_dec (i, j) (owned_points g)) <->
   owned g i' j' /\ visited_earlier (i', j') (i, j)).
Proof.
  intros Hown.
  rewrite (visited_before_sorted point_eq_dec visited_earlier (i, j) (i', j')
             (owned_points g)).
  - now rewrite In_owned_points.
  - intros [a b] [Hlt | [_ Hlt]]; simpl in *; lia.
  - intros [a b] [c d] [H1 | [H1 H1']] [H2 | [H2 H2']]; simpl in *; lia.
  - apply owned_points_sorted.
  - now apply In_owned_points.
Qed.

(** The mask the loop has left when it reaches [(i,j)]: the mask of
    return at the points visited earlier, the mask of entry at the
    others.  So the vote reads the new masks of the neighbours at [i-1]
    and at [(i, j-1)] that are owned, and the old masks of the other
    neighbours. *)
Lemma when_visited_mask (m : IceModel) (o : PISMOceanModel) (i j i' j' : Z) :
  ocean m = Some o ->
  owned (grid m) i j ->
  fst (updateSurfaceElevationAndMask m) = PETSC_OK ->
  let sl := currentSeaLevel m o in
  (owned (grid m) i' j' /\ visited_earlier (i', j') (i, j) ->
   vMask (when_visited sl m i j) i' j'
   = vMask (snd (updateSurfaceElevationAndMask m)) i' j') /\
  (~ (owned (grid m) i' j' /\ visited_earlier (i', j') (i, j)) ->
   vMask (when_visited sl m i j) i' j' = vMask m i' j').
Proof.
  intros Ho Hown Hok sl.
  rewrite (updateSurfaceElevationAndMask_loop m o Ho) in *. fold sl in Hok |- *.
  split; intros Hvis.
  - apply (visited_before_owned (grid m) i j i' j' Hown) in Hvis.
    pose proof (for_each_visited_earlier point_eq_dec (update_body sl)
                  point_view (update_body_local sl) (i, j) (i', j')
                  (owned_points (grid m)) m (NoDup_owned_points (grid m))
                  (proj2 (In_owned_points (grid m) i j) Hown) Hvis Hok) as Hv.
    unfold point_view in Hv; simpl in Hv. injection Hv as _ HM. exact HM.
  - assert (Hnot : ~ In (i', j')
                       (visited_before point_eq_dec (i, j)
                          (owned_points (grid m)))).
    { intros Hin. apply Hvis.
      now apply (visited_before_owned (grid m) i j i' j' Hown). }
    pose proof (for_each_frame (update_body sl) point_view
                  (update_body_local sl) (i', j') _ m Hnot) as Hv.
    unfold point_view in Hv; simpl in Hv. injection Hv as _ HM. exact HM.
Qed.

End UpdateSurfaceElevationAndMask.

Section UpdateProperties.

Context {ext : Externals}.

(** Reduces a statement on an owned point after a successful call to the
    body of the loop at this point, run on a model [mk] that has the
    inputs of [m] and the mask of [m] at the point. *)
Ltac visit_point m o i j Ho Hown Hok mk :=
  let Hh := fresh "Hh" in
  let HM := fresh "HM" in
  destruct (update_at_point m o i j Ho Hown Hok) as [Hh HM];
  rewrite ?Hh, ?HM; clear Hh HM;
  let Hc := fresh "Hcfg" in
  let Hi := fresh "Hice" in
  let HH := fresh "HvH" in
  let Hb := fresh "Hbed" in
  let Hm := fresh "Hmask" in
  destruct (when_visited_inputs (currentSeaLevel m o) m i j)
    as (_ & Hc & Hi & _ & HH & Hb);
  destruct (when_visited_point (currentSeaLevel m o) m i j) as [_ Hm];
  generalize dependent (when_visited (currentSeaLevel m o) m i j);
  intros mk Hc Hi HH Hb Hm.

Ltac point_cases :=
  unfold update_point, vote_by_neighbors, flotation_criterion,
    hgrounded, hfloating;
  simpl.

(** In a dry run a visited point gets [h = bed + H] and keeps its mask. *)
Lemma update_dry (m : IceModel) (o : PISMOceanModel) (i j : Z) :
  ocean m = Some o ->
  owned (grid m) i j ->
  fst (updateSurfaceElevationAndMask m) = PETSC_OK ->
  is_dry_simulation (config m) = true ->
  vh (snd (updateSurfaceElevationAndMask m)) i j = vbed m i j + vH m i j /\
  vMask (snd (updateSurfaceElevationAndMask m)) i j = vMask m i j.
Proof.
  intros Ho Hown Hok Hdry.
  pose proof (update_ok_visited m o i j Ho Hown Hok) as Hpos.
  visit_point m o i j Ho Hown Hok mk.
  point_cases. rewrite Hcfg, HvH, Hbed, Hdry.
  destruct (Rlt_dec (vH m i j) 0); [ lra | ]. simpl.
  rewrite upd_same. auto.
Qed.

(** A wet-run point marked OCEAN_AT_TIME_0 gets the floating surface and
    keeps its mask. *)
Lemma update_ocean_at_time_0 (m : IceModel) (o : PISMOceanModel) (i j : Z) :
  ocean m = Some o ->
  owned (grid m) i j ->
  fst (updateSurfaceElevationAndMask m) = PETSC_OK ->
  is_dry_simulation (config m) = false ->
  vMask m i j = MASK_OCEAN_AT_TIME_0 ->
  vh (snd (updateSurfaceElevationAndMask m)) i j
  = currentSeaLevel m o
    + (1 - rho (ice m) / sea_water_density (config m)) * vH m i j /\
  vMask (snd (updateSurfaceElevationAndMask m)) i j = MASK_OCEAN_AT_TIME_0.
Proof.
  intros Ho Hown Hok Hdry Hocean.
  pose proof (update_ok_visited m o i j Ho Hown Hok) as Hpos.
  visit_point m o i j Ho Hown Hok mk.
  point_cases. rewrite Hcfg, Hice, HvH, Hmask, Hdry, Hocean.
  destruct (Rlt_dec (vH m i j) 0); [ lra | ]. simpl.
  rewrite upd_same. split; [ reflexivity | congruence ].
Qed.

(** The outcome of the flotation test of a wet-run point that is not
    OCEAN_AT_TIME_0, before the vote. *)
Lemma update_wet_point (m : IceModel) (o : PISMOceanModel) (i j : Z) :
  ocean m = Some o ->
  owned (grid m) i j ->
  fst (updateSurfaceElevationAndMask m) = PETSC_OK ->
  is_dry_simulation (config m) = false ->
  vMask m i j <> MASK_OCEAN_AT_TIME_0 ->
  exists mk,
    same_inputs m mk /\ vMask mk i j = vMask m i j /\
    vMask mk = vMask (when_visited (currentSeaLevel m o) m i j) /\
    let m1 := flotation_criterion (currentSeaLevel m o) i j mk in
    vh (snd (updateSurfaceElevationAndMask m)) i j
    = vh (vote_by_neighbors i j m1) i j /\
    vMask (snd (updateSurfaceElevationAndMask m)) i j
    = vMask (vote_by_neighbors i j m1) i j.
Proof.
  intros Ho Hown Hok Hdry Hocean.
  pose proof (update_ok_visited m o i j Ho Hown Hok) as Hpos.
  destruct (update_at_point m o i j Ho Hown Hok) as [Hh HM].
  exists (when_visited (currentSeaLevel m o) m i j).
  pose proof (when_visited_inputs (currentSeaLevel m o) m i j) as Hin.
  destruct (when_visited_point (currentSeaLevel m o) m i j) as [_ Hmk].
  repeat split; try apply Hin; auto.
  - rewrite Hh. unfold update_point.
    destruct Hin as (_ & Hc & _ & _ & HH & _). rewrite Hc, HH, Hmk, Hdry.
    destruct (Rlt_dec (vH m i j) 0); [ lra | ].
    apply mask_eqb_neq in Hocean. rewrite Hocean. reflexivity.
  - rewrite HM. unfold update_point.
    destruct Hin as (_ & Hc & _ & _ & HH & _). rewrite Hc, HH, Hmk, Hdry.
    destruct (Rlt_dec (vH m i j) 0); [ lra | ].
    apply mask_eqb_neq in Hocean. rewrite Hocean. reflexivity.
Qed.

(** The test of the vote compares two integers: the tenth added on the
    right never decides. *)
Lemma vote_threshold_integer (a b : Z) :
  IZR a <= IZR b + 1 / 10 <-> (a <= b)%Z.
Proof.
  split.
  - intros Hle. destruct (Z_le_gt_dec a b) as [ | Hgt]; [ assumption | ].
    assert (Hab : (b + 1 <= a)%Z) by lia.
    apply IZR_le in Hab. rewrite plus_IZR in Hab. lra.
  - intros Hle. apply IZR_le in Hle. lra.
Qed.

(** The flotation test writes the mask of its own point only, so the vote
    reads the neighbours as the loop has left them. *)
Lemma neighmasksum_flotation (sl : R) (i j : Z) (m : IceModel) :
  neighmasksum (vMask (flotation_criterion sl i j m)) i j
  = neighmasksum (vMask m) i j.
Proof.
  assert (Hfar : forall i' j', (i', j') <> (i, j) ->
            vMask (flotation_criterion sl i j m) i' j' = vMask m i' j').
  { intros i' j' Hne. unfold flotation_criterion.
    break_ifs; simpl; rewrite ?upd_other by assumption; reflexivity. }
  unfold neighmasksum.
  rewrite !Hfar; [ reflexivity | .. ]; intros Heq; inversion Heq; lia.
Qed.

(** C3.  In a wet run, at an owned point that is not OCEAN_AT_TIME_0,
    with [hg = bed + H] and [hf = sea level + (1 - rho_ice/rho_ocean) H]:
    a floating point becomes grounded, with [h = hg], exactly when
    [hg > hf + 1] (DRAGGING_SHEET when SSA and plastic till are both
    active, SHEET when SSA is inactive), and otherwise gets [h = hf] and
    the mask FLOATING; a grounded point stays grounded, with [h = hg] and
    its mask kept unless SSA and plastic till are both active, which make
    it DRAGGING_SHEET, exactly when [hg > hf - 1], and otherwise gets
    [h = hf] and the mask FLOATING. *)
Theorem flotation_hysteresis (m : IceModel) (o : PISMOceanModel) (i j : Z) :
  ocean m = Some o ->
  owned (grid m) i j ->
  fst (updateSurfaceElevationAndMask m) = PETSC_OK ->
  is_dry_simulation (config m) = false ->
  vMask m i j <> MASK_OCEAN_AT_TIME_0 ->
  let hg := vbed m i j + vH m i j in
  let hf := currentSeaLevel m o
            + (1 - rho (ice m) / sea_water_density (config m)) * vH m i j in
  let h' := vh (snd (updateSurfaceElevationAndMask m)) i j in
  let mask' := vMask (snd (updateSurfaceElevationAndMask m)) i j in
  (is_floating (vMask m i j) = true ->
     (hg > hf + 1 ->
        h' = hg /\ is_grounded mask' = true /\
        (use_ssa_velocity (config m) = true ->
         do_plastic_till (config m) = true -> mask' = MASK_DRAGGING_SHEET) /\
        (use_ssa_velocity (config m) = false -> mask' = MASK_SHEET)) /\
     (~ hg > hf + 1 -> h' = hf /\ mask' = MASK_FLOATING)) /\
  (is_grounded (vMask m i j) = true ->
     (hg > hf - 1 ->
        h' = hg /\
        mask' = if (use_ssa_velocity (config m)
                    && do_plastic_till (config m))%bool
                then MASK_DRAGGING_SHEET else vMask m i j) /\
     (~ hg > hf - 1 -> h' = hf /\ mask' = MASK_FLOATING)).
Proof.
  intros Ho Hown Hok Hdry Hocean hg hf h' mask'. subst h' mask'.
  destruct (update_wet_point m o i j Ho Hown Hok Hdry Hocean)
    as (mk & Hin & Hmk & _ & Hh & HM).
  rewrite Hh, HM. clear Hh HM.
  destruct Hin as (_ & Hc & Hi & _ & HH & Hb).
  unfold vote_by_neighbors, flotation_criterion, hgrounded, hfloating.
  simpl. rewrite Hc, Hi, HH, Hb, Hmk. fold hg hf.
  destruct (vMask m i j) eqn:Hmask; simpl; try congruence;
    (split; [ intros Hfl | intros Hgr ]; try discriminate).
  - (* SHEET *)
    destruct (Rgt_dec hg (hf - 1)) as [Hgt | Hle];
      (split; [ intros Hgt' | intros Hle' ]; try contradiction);
      destruct (use_ssa_velocity (config m)), (do_plastic_till (config m));
      repeat (simpl; rewrite ?upd_same, ?Hmk, ?Hmask); auto.
  - (* DRAGGING_SHEET *)
    destruct (Rgt_dec hg (hf - 1)) as [Hgt | Hle];
      (split; [ intros Hgt' | intros Hle' ]; try contradiction);
      destruct (use_ssa_velocity (config m)), (do_plastic_till (config m));
      repeat (simpl; rewrite ?upd_same, ?Hmk, ?Hmask); auto.
  - (* FLOATING *)
    destruct (Rgt_dec hg (hf + 1)) as [Hgt | Hle];
      (split; [ intros Hgt' | intros Hle' ]; try contradiction);
      destruct (use_ssa_velocity (config m)), (do_plastic_till (config m));
      repeat (simpl; rewrite ?upd_same, ?Hmk, ?Hmask);
      try (destruct (Rle_dec _ vote_threshold));
      repeat (simpl; rewrite ?upd_same, ?Hmk, ?Hmask);
      repeat split; intros; try reflexivity; try discriminate.
Qed.

(** *** The vote *)

Lemma vote_keeps_h (i j : Z) (m : IceModel) :
  vh (vote_by_neighbors i j m) = vh m.
Proof. unfold vote_by_neighbors. break_ifs; reflexivity. Qed.

(** The vote gives SHEET at or below the threshold and DRAGGING_SHEET
    above it. *)
Lemma vote_outcome (i j : Z) (m : IceModel) :
  vMask m i j = MASK_UNKNOWN ->
  vMask (vote_by_neighbors i j m) i j
  = if (neighmasksum (vMask m) i j
        <=? 7 * mask_value MASK_SHEET + mask_value MASK_DRAGGING_SHEET)%Z
    then MASK_SHEET else MASK_DRAGGING_SHEET.
Proof.
  intros Hunk. unfold vote_by_neighbors, vote_threshold. rewrite Hunk.
  cbn [mask_eqb].
  destruct (Rle_dec _ _) as [Hle | Hgt]; rewrite vMask_write_mask, upd_same.
  - apply vote_threshold_integer in Hle.
    apply Z.leb_le in Hle. now rewrite Hle.
  - destruct (Z.leb_spec (neighmasksum (vMask m) i j)
                (7 * mask_value MASK_SHEET + mask_value MASK_DRAGGING_SHEET))
      as [Hle | _]; [ | reflexivity ].
    apply vote_threshold_integer in Hle. contradiction.
Qed.

(** Whatever the mask was, none is UNKNOWN at the point after the vote. *)
Lemma vote_resolves (i j : Z) (m : IceModel) :
  vMask (vote_by_neighbors i j m) i j <> MASK_UNKNOWN.
Proof.
  unfold vote_by_neighbors.
  destruct (mask_eqb (vMask m i j) MASK_UNKNOWN) eqn:Hunk.
  - destruct (Rle_dec _ _); simpl; rewrite upd_same; discriminate.
  - now apply mask_eqb_neq.
Qed.

(** The flotation test marks a point UNKNOWN in one case only: a floating
    point that grounds while SSA is active and plastic till is not. *)
Lemma flotation_marks_unknown (sl : R) (i j : Z) (m : IceModel) :
  vMask m i j <> MASK_UNKNOWN ->
  vMask (flotation_criterion sl i j m) i j = MASK_UNKNOWN <->
  is_floating (vMask m i j) = true /\
  hgrounded m i j > hfloating sl m i j + 1 /\
  use_ssa_velocity (config m) = true /\
  do_plastic_till (config m) = false.
Proof.
  intros Hknown. unfold flotation_criterion.
  destruct (is_floating (vMask m i j)) eqn:Hfl.
  - destruct (Rgt_dec _ _) as [Hgt | Hle]; simpl.
    + destruct (use_ssa_velocity (config m)), (do_plastic_till (config m));
        simpl; rewrite upd_same; split; intros Hx; try discriminate;
        try (destruct Hx as (_ & _ & ? & ?); discriminate); auto.
    + split; [ contradiction | ]. intros (_ & Hgt & _). contradiction.
  - destruct (Rgt_dec _ _) as [Hgt | Hle]; simpl.
    + destruct (use_ssa_velocity (config m) && do_plastic_till (config m))%bool;
        simpl; rewrite ?upd_same; split; intros Hx; try discriminate;
        try contradiction; destruct Hx as (? & _); discriminate.
    + rewrite upd_same. split; intros Hx; try discriminate.
      destruct Hx as (? & _); discriminate.
Qed.

Lemma update_point_known (sl : R) (i j i' j' : Z) (m : IceModel) :
  vMask m i' j' <> MASK_UNKNOWN ->
  vMask (snd (update_point sl i j m)) i' j' <> MASK_UNKNOWN.
Proof.
  intros Hknown.
  destruct (point_eq_dec (i', j') (i, j)) as [Heq | Hne].
  - inversion Heq; subst. unfold update_point.
    destruct (Rlt_dec _ _); [ exact Hknown | ].
    destruct (is_dry_simulation _); [ exact Hknown | ].
    destruct (mask_eqb _ _); [ exact Hknown | ].
    apply vote_resolves.
  - destruct (update_point_local sl i j i' j' m Hne) as [_ ->]. exact Hknown.
Qed.

(** C4.  A point that the call marks UNKNOWN -- a floating point that
    grounds while SSA velocity is active and plastic till is not -- is
    resolved before the call returns.  With [seen] the mask as the loop
    finds it on reaching the point, the sum is taken over the eight
    box-stencil neighbours [(i-1,j+1)], [(i,j+1)], [(i+1,j+1)],
    [(i-1,j)], [(i+1,j)], [(i-1,j-1)], [(i,j-1)] and [(i+1,j-1)] of the
    codes [PismModMask (seen ...)]: the point is SHEET when this sum is
    at most seven times the code of SHEET plus the code of
    DRAGGING_SHEET, and DRAGGING_SHEET otherwise, never FLOATING.  What
    is seen at a neighbour is its mask of return when it is owned and
    visited earlier, and its mask of entry otherwise.  A point whose
    mask is not UNKNOWN on entry is not UNKNOWN on return, and after a
    wet run that succeeds no owned point is UNKNOWN. *)
Theorem unknown_resolved_by_vote (m : IceModel) (o : PISMOceanModel) :
  ocean m = Some o ->
  let sl := currentSeaLevel m o in
  let m' := snd (updateSurfaceElevationAndMask m) in
  (forall i j,
      owned (grid m) i j ->
      fst (updateSurfaceElevationAndMask m) = PETSC_OK ->
      is_dry_simulation (config m) = false ->
      vMask m i j = MASK_FLOATING ->
      vbed m i j + vH m i j
      > sl + (1 - rho (ice m) / sea_water_density (config m)) * vH m i j + 1 ->
      use_ssa_velocity (config m) = true ->
      do_plastic_till (config m) = false ->
      let seen := vMask (when_visited sl m i j) in
      let sum_of_codes :=
        (PismModMask (seen (i-1) (j+1)) + PismModMask (seen i (j+1))
         + PismModMask (seen (i+1) (j+1))
         + PismModMask (seen (i-1) j) + PismModMask (seen (i+1) j)
         + PismModMask (seen (i-1) (j-1)) + PismModMask (seen i (j-1))
         + PismModMask (seen (i+1) (j-1)))%Z in
      vMask (flotation_criterion sl i j (when_visited sl m i j)) i j
      = MASK_UNKNOWN /\
      vMask m' i j
      = (if (sum_of_codes
             <=? 7 * mask_value MASK_SHEET + mask_value MASK_DRAGGING_SHEET)%Z
         then MASK_SHEET else MASK_DRAGGING_SHEET) /\
      vMask m' i j <> MASK_FLOATING /\
      (forall i' j',
          (owned (grid m) i' j' /\ visited_earlier (i', j') (i, j) ->
           seen i' j' = vMask m' i' j') /\
          (~ (owned (grid m) i' j' /\ visited_earlier (i', j') (i, j)) ->
           seen i' j' = vMask m i' j'))) /\
  (forall i j, vMask m i j <> MASK_UNKNOWN -> vMask m' i j <> MASK_UNKNOWN) /\
  (forall i j,
      owned (grid m) i j ->
      fst (updateSurfaceElevationAndMask m) = PETSC_OK ->
      is_dry_simulation (config m) = false ->
      vMask m' i j <> MASK_UNKNOWN).
Proof.
  intros Ho sl m'. subst m'. split; [ | split ].
  - intros i j Hown Hok Hdry Hfl Hgt Hssa Hplastic seen sum_of_codes.
    assert (Hocean : vMask m i j <> MASK_OCEAN_AT_TIME_0) by congruence.
    destruct (update_wet_point m o i j Ho Hown Hok Hdry Hocean)
      as (mk & Hin & Hmk & Hvis & _ & HM).
    fold sl in Hvis, HM. rewrite HM. clear HM.
    pose proof (when_visited_inputs sl m i j) as Hin'.
    destruct (when_visited_point sl m i j) as [_ Hmk'].
    assert (Hunk : vMask (flotation_criterion sl i j (when_visited sl m i j))
                     i j = MASK_UNKNOWN).
    { apply flotation_marks_unknown.
      - rewrite Hmk', Hfl. discriminate.
      - destruct Hin' as (_ & Hc & Hi & _ & HH & Hb).
        unfold hgrounded, hfloating. rewrite Hmk', Hfl, Hc, Hi, HH, Hb.
        auto. }
    assert (Hunk1 : vMask (flotation_criterion sl i j mk) i j = MASK_UNKNOWN).
    { apply flotation_marks_unknown.
      - rewrite Hmk, Hfl. discriminate.
      - destruct Hin as (_ & Hc & Hi & _ & HH & Hb).
        unfold hgrounded, hfloating. rewrite Hmk, Hfl, Hc, Hi, HH, Hb.
        auto. }
    split; [ exact Hunk | ].
    rewrite (vote_outcome i j _ Hunk1), neighmasksum_flotation, Hvis.
    split; [ reflexivity | ].
    split; [ destruct (_ <=? _)%Z; discriminate | ].
    intros i' j'. subst seen.
    exact (when_visited_mask m o i j i' j' Ho Hown Hok).
  - intros i j Hknown.
    rewrite (updateSurfaceElevationAndMask_loop m o Ho).
    apply (for_each_invariant (update_body (currentSeaLevel m o))
             (fun s => vMask s i j <> MASK_UNKNOWN)); [ | exact Hknown ].
    intros [i0 j0] s _ Hs. now apply update_point_known.
  - intros i j Hown Hok Hdry.
    pose proof (update_ok_visited m o i j Ho Hown Hok) as Hpos.
    destruct (update_at_point m o i j Ho Hown Hok) as [_ HM].
    rewrite HM. fold sl.
    destruct (when_visited_inputs sl m i j) as (_ & Hc & _ & _ & HH & _).
    unfold update_point. rewrite Hc, HH, Hdry.
    destruct (Rlt_dec (vH m i j) 0); [ lra | ].
    destruct (mask_eqb _ _) eqn:Hocean.
    + apply mask_eqb_eq in Hocean. simpl. rewrite Hocean. discriminate.
    + apply vote_resolves.
Qed.

(** *** Negative thickness *)

(** A loop that meets a point of negative thickness stops at the first
    one, with its indices in the message. *)
Lemma update_loop_negative (sl : R) (m : IceModel) (l : list (Z * Z)) :
  forall s,
    same_inputs m s ->
    (exists p, In p l /\ vH m (fst p) (snd p) < 0) ->
    exists p, In p l /\ vH m (fst p) (snd p) < 0 /\
              fst (update_loop sl l s)
              = SETERRQ 1 (Thickness_negative_at_point (fst p) (snd p)).
Proof.
  induction l as [ | [i j] l IH]; intros s Hs [p [Hin Hneg]].
  - destruct Hin.
  - assert (HH : vH s = vH m) by apply Hs.
    destruct (Rlt_dec (vH m i j) 0) as [Hij | Hij].
    + exists (i, j). split; [ now left | ]. split; [ exact Hij | ].
      unfold update_loop; simpl. unfold CHKERRQ, update_body; simpl.
      rewrite update_point_negative by (now rewrite HH). reflexivity.
    + destruct Hin as [<- | Hin]; [ simpl in Hneg; contradiction | ].
      assert (Hs' : same_inputs m (snd (update_point sl i j s))).
      { destruct (update_point_inputs sl i j s) as (H1 & H2 & H3 & H4 & H5 & H6).
        destruct Hs as (G1 & G2 & G3 & G4 & G5 & G6).
        repeat split; congruence. }
      destruct (IH _ Hs' (ex_intro _ p (conj Hin Hneg)))
        as [q (Hq & Hqneg & Hqerr)].
      exists q. split; [ now right | ]. split; [ exact Hqneg | ].
      unfold update_loop; simpl. unfold CHKERRQ, update_body; simpl.
      assert (Hok : fst (update_point sl i j s) = PETSC_OK).
      { apply update_point_nonnegative. rewrite HH. lra. }
      destruct (update_point sl i j s) as [[ | n msg] s']; simpl in *;
        [ exact Hqerr | discriminate ].
Qed.

(** C7.  With an ocean model attached, the call fails with the error
    "Thickness negative at point i, j", for an owned point [(i,j)] of
    negative thickness, whenever there is such a point; it does not fail
    when every owned thickness is non-negative; and in no case does it
    write the thickness. *)
Theorem negative_thickness_is_fatal (m : IceModel) (o : PISMOceanModel) :
  ocean m = Some o ->
  ((exists i j, owned (grid m) i j /\ vH m i j < 0) ->
   exists i j,
     owned (grid m) i j /\ vH m i j < 0 /\
     fst (updateSurfaceElevationAndMask m)
     = SETERRQ 1 (Thickness_negative_at_point i j)) /\
  ((forall i j, owned (grid m) i j -> 0 <= vH m i j) ->
   fst (updateSurfaceElevationAndMask m) = PETSC_OK) /\
  vH (snd (updateSurfaceElevationAndMask m)) = vH m.
Proof.
  intros Ho. split; [ | split ].
  - intros (i & j & Hown & Hneg).
    rewrite (updateSurfaceElevationAndMask_loop m o Ho).
    destruct (update_loop_negative (currentSeaLevel m o) m
                (owned_points (grid m)) m (same_inputs_refl m))
      as [[i' j'] (Hin & Hneg' & Herr)].
    { exists (i, j). split; [ now apply In_owned_points | exact Hneg ]. }
    exists i', j'. split; [ now apply In_owned_points | ]. auto.
  - apply (update_ok_nonnegative m o Ho).
  - rewrite (updateSurfaceElevationAndMask_loop m o Ho).
    apply update_loop_inputs.
Qed.

(** *** The flotation criterion *)

(** C2, amended.  After a call on non-negative thicknesses, an owned point
    of a wet run that is not OCEAN_AT_TIME_0 has
    [h >= max (bed + H) (sea level + (1 - rho_ice/rho_ocean) H) - 1]. *)
Theorem surface_within_margin_of_flotation
  (m : IceModel) (o : PISMOceanModel) (i j : Z) :
  ocean m = Some o ->
  (forall i j, owned (grid m) i j -> 0 <= vH m i j) ->
  owned (grid m) i j ->
  is_dry_simulation (config m) = false ->
  vMask m i j <> MASK_OCEAN_AT_TIME_0 ->
  vh (snd (updateSurfaceElevationAndMask m)) i j
  >= Rmax (vbed m i j + vH m i j)
          (currentSeaLevel m o
           + (1 - rho (ice m) / sea_water_density (config m)) * vH m i j)
     - 1.
Proof.
  intros Ho Hpos Hown Hdry Hocean.
  pose proof (update_ok_nonnegative m o Ho Hpos) as Hok.
  destruct (update_wet_point m o i j Ho Hown Hok Hdry Hocean)
    as (mk & Hin & Hmk & _ & Hh & _).
  rewrite Hh, vote_keeps_h. clear Hh.
  destruct Hin as (_ & Hc & Hi & _ & HH & Hb).
  unfold flotation_criterion, hgrounded, hfloating.
  rewrite Hc, Hi, HH, Hb, Hmk.
  set (hg := vbed m i j + vH m i j).
  set (hf := currentSeaLevel m o + _).
  unfold Rmax.
  destruct (is_floating (vMask m i j));
    destruct (Rgt_dec _ _) as [Hgt | Hle];
    destruct (Rle_dec hg hf);
    repeat match goal with
           | |- context [if ?c then _ else _] => destruct c
           end;
    simpl; rewrite upd_same; lra.
Qed.

End UpdateProperties.

(** ** The mass continuity step *)

Section MassContinuityProperties.

Context {ext : Externals}.

Lemma massCont_body_ok (acab sbmf : field R) (m : IceModel) (l : list (Z * Z))
  (c : Continuity) :
  fst (for_each l (massCont_body acab sbmf m) c) = PETSC_OK.
Proof.
  apply (for_each_ok (massCont_body acab sbmf m) (fun _ => True)); auto.
Qed.

Lemma massCont_body_local (acab sbmf : field R) (m : IceModel)
  (a b : Z * Z) (c : Continuity) :
  a <> b ->
  vHnew (snd (massCont_body acab sbmf m b c)) (fst a) (snd a)
  = vHnew c (fst a) (snd a).
Proof.
  destruct a as [i' j'], b as [i j]. intros Hne.
  unfold massCont_body, massCont_point; simpl. now apply upd_other.
Qed.

(** The work field after the loop: the new thickness, computed from the
    old one, at the owned points, and the old thickness elsewhere. *)
Lemma massCont_loop_owned (acab sbmf : field R) (m : IceModel) (i j : Z) :
  owned (grid m) i j ->
  vHnew (snd (for_owned (grid m) (massCont_point acab sbmf m)
                {| vHnew := vH m; icecount := 0 |})) i j
  = new_thickness acab sbmf m i j (vH m i j).
Proof.
  intros Hown. rewrite for_owned_points.
  set (c0 := {| vHnew := vH m; icecount := 0 |}).
  change (for_each (owned_points (grid m))
            (fun p => massCont_point acab sbmf m (fst p) (snd p)) c0)
    with (for_each (owned_points (grid m)) (massCont_body acab sbmf m) c0).
  pose proof (for_each_visit point_eq_dec (massCont_body acab sbmf m)
                (fun p c => vHnew c (fst p) (snd p))
                (massCont_body_local acab sbmf m)
                (i, j) (owned_points (grid m)) c0
                (NoDup_owned_points (grid m))
                (proj2 (In_owned_points (grid m) i j) Hown)
                (massCont_body_ok acab sbmf m _ c0)) as Hv.
  simpl in Hv. rewrite Hv. clear Hv.
  pose proof (visited_before_frame point_eq_dec (massCont_body acab sbmf m)
                (fun p c => vHnew c (fst p) (snd p))
                (massCont_body_local acab sbmf m)
                (i, j) (owned_points (grid m)) c0) as Hpre.
  simpl in Hpre.
  unfold massCont_body at 1, massCont_point; simpl.
  rewrite upd_same, Hpre. reflexivity.
Qed.

Lemma massCont_loop_elsewhere (acab sbmf : field R) (m : IceModel) (i j : Z) :
  ~ owned (grid m) i j ->
  vHnew (snd (for_owned (grid m) (massCont_point acab sbmf m)
                {| vHnew := vH m; icecount := 0 |})) i j
  = vH m i j.
Proof.
  intros Hnot. rewrite for_owned_points.
  set (c0 := {| vHnew := vH m; icecount := 0 |}).
  apply (for_each_frame (massCont_body acab sbmf m)
           (fun p c => vHnew c (fst p) (snd p))
           (massCont_body_local acab sbmf m) (i, j)).
  intros Hin. apply In_owned_points in Hin. contradiction.
Qed.

Lemma massCont_loop_ok (acab sbmf : field R) (m : IceModel) (c : Continuity) :
  fst (for_owned (grid m) (massCont_point acab sbmf m) c) = PETSC_OK.
Proof. rewrite for_owned_points. apply massCont_body_ok. Qed.

(** With both boundary models attached the step succeeds; the new
    thickness of an owned point is [new_thickness] of the old one. *)
Lemma massContExplicitStep_ok (m : IceModel) (s : PISMSurfaceModel)
  (o : PISMOceanModel) :
  surface m = Some s -> ocean m = Some o ->
  fst (massContExplicitStep m) = PETSC_OK.
Proof.
  intros Hs Ho. unfold massContExplicitStep. rewrite Hs, Ho.
  pose proof (massCont_loop_ok
                (ice_surface_mass_flux s (year (grid m)) (dt m / secpera))
                (shelf_base_mass_flux o (year (grid m)) (dt m / secpera))
                m {| vHnew := vH m; icecount := 0 |}) as Hok.
  destruct (for_owned _ _ _) as [[ | n msg] c]; simpl in *;
    [ reflexivity | discriminate ].
Qed.

Lemma massContExplicitStep_owned (m : IceModel) (s : PISMSurfaceModel)
  (o : PISMOceanModel) (i j : Z) :
  surface m = Some s -> ocean m = Some o ->
  owned (grid m) i j ->
  vH (snd (massContExplicitStep m)) i j
  = new_thickness (acab m s) (shelfbmassflux m o) m i j (vH m i j).
Proof.
  intros Hs Ho Hown. unfold massContExplicitStep. rewrite Hs, Ho.
  pose proof (massCont_loop_ok (acab m s) (shelfbmassflux m o)
                m {| vHnew := vH m; icecount := 0 |}) as Hok.
  pose proof (massCont_loop_owned (acab m s) (shelfbmassflux m o) m i j Hown)
    as Hpt.
  unfold acab, shelfbmassflux in *.
  destruct (for_owned _ _ _) as [[ | n msg] c]; simpl in *;
    [ exact Hpt | discriminate ].
Qed.

Lemma massContExplicitStep_elsewhere (m : IceModel) (i j : Z) :
  ~ owned (grid m) i j ->
  vH (snd (massContExplicitStep m)) i j = vH m i j.
Proof.
  intros Hnot. unfold massContExplicitStep.
  destruct (surface m) as [s | ]; [ | reflexivity ].
  destruct (ocean m) as [o | ]; [ | reflexivity ].
  pose proof (massCont_loop_elsewhere
                (ice_surface_mass_flux s (year (grid m)) (dt m / secpera))
                (shelf_base_mass_flux o (year (grid m)) (dt m / secpera))
                m i j Hnot) as Hpt.
  destruct (for_owned _ _ _) as [[ | n msg] c]; simpl in *;
    [ exact Hpt | reflexivity ].
Qed.

(** The step never writes the mask. *)
Lemma massContExplicitStep_mask (m : IceModel) :
  vMask (snd (massContExplicitStep m)) = vMask m.
Proof.
  unfold massContExplicitStep.
  destruct (surface m) as [s | ]; [ | reflexivity ].
  destruct (ocean m) as [o | ]; [ | reflexivity ].
  destruct (for_owned _ _ _) as [[ | n msg] c]; reflexivity.
Qed.

(** The truncations leave no negative thickness. *)
Lemma new_thickness_nonnegative (a b : field R) (m : IceModel) (i j : Z)
  (Hnew : R) :
  0 <= new_thickness a b m i j Hnew.
Proof.
  unfold new_thickness.
  repeat match goal with
         | |- context [if ?c then _ else _] => destruct c
         end; lra.
Qed.

(** C1.  The step returns normally exactly when the surface and the ocean
    models are attached, and then the new thickness is non-negative at
    every owned point, in every configuration and for all inputs. *)
Theorem new_thickness_is_nonnegative (m : IceModel) :
  (fst (massContExplicitStep m) = PETSC_OK <->
   surface m <> None /\ ocean m <> None) /\
  (fst (massContExplicitStep m) = PETSC_OK ->
   forall i j, owned (grid m) i j ->
               0 <= vH (snd (massContExplicitStep m)) i j).
Proof.
  split; [ split | ].
  - unfold massContExplicitStep.
    destruct (surface m) as [s | ]; [ | discriminate ].
    destruct (ocean m) as [o | ]; [ | discriminate ].
    intros _. split; discriminate.
  - intros [Hs Ho].
    destruct (surface m) as [s | ] eqn:Es; [ | now elim Hs ].
    destruct (ocean m) as [o | ] eqn:Eo; [ | now elim Ho ].
    apply (massContExplicitStep_ok m s o Es Eo).
  - intros Hok i j Hown.
    destruct (surface m) as [s | ] eqn:Es;
      [ | unfold massContExplicitStep in Hok; rewrite Es in Hok;
          discriminate ].
    destruct (ocean m) as [o | ] eqn:Eo;
      [ | unfold massContExplicitStep in Hok; rewrite Es, Eo in Hok;
          discriminate ].
    rewrite (massContExplicitStep_owned m s o i j Es Eo Hown).
    apply new_thickness_nonnegative.
Qed.

(** *** The sliding part of the flux divergence *)

(** [divQ] after its two increments, term by term. *)
Lemma divQ_parts (m : IceModel) (i j : Z) :
  divQ m i j
  = divQ_SIA m i j + (upwind_x m i j + upwind_y m i j) + dilation m i j.
Proof.
  unfold divQ, upwind_x, upwind_y, dilation.
  destruct (Rlt_dec (vub m i j) 0), (Rlt_dec (vvb m i j) 0);
    unfold Rdiv; ring.
Qed.

(** With the absolute value of the velocity in front, the one-sided
    difference is the one towards the upstream neighbour. *)
Lemma upwind_x_upstream (m : IceModel) (i j : Z) :
  upwind_x m i j
  = Rabs (vub m i j) * (vH m i j - vH m (upstream (vub m i j) i) j)
    / dx (grid m).
Proof.
  unfold upwind_x, upstream.
  destruct (Rlt_dec (vub m i j) 0) as [Hneg | Hpos].
  - rewrite Rabs_left by assumption. unfold Rdiv; ring.
  - rewrite Rabs_right by lra. reflexivity.
Qed.

Lemma upwind_y_upstream (m : IceModel) (i j : Z) :
  upwind_y m i j
  = Rabs (vvb m i j) * (vH m i j - vH m i (upstream (vvb m i j) j))
    / dy (grid m).
Proof.
  unfold upwind_y, upstream.
  destruct (Rlt_dec (vvb m i j) 0) as [Hneg | Hpos].
  - rewrite Rabs_left by assumption. unfold Rdiv; ring.
  - rewrite Rabs_right by lra. reflexivity.
Qed.

(** C6.  The step takes the sliding part of the flux divergence from the
    thickness of each owned point.  The new thickness is the old one
    plus [dt] times the mass balance less the divergence, then basal
    melt, the free boundary rule and calving; and the divergence is the
    SIA part plus, for the sliding, an upwinded advective term in each
    direction, [ub (H(i+1,j) - H(i,j)) / dx] when [ub < 0] and
    [ub (H(i,j) - H(i-1,j)) / dx] otherwise, and likewise in [y] with
    [vb], plus the thickness times the centred divergence of the
    velocity.  The one-sided difference is the difference between the
    point and its upstream neighbour, the one the velocity points away
    from. *)
Theorem sliding_divergence_is_upwinded (m : IceModel)
  (s : PISMSurfaceModel) (o : PISMOceanModel) (i j : Z) :
  surface m = Some s -> ocean m = Some o ->
  owned (grid m) i j ->
  let H := vH m in
  let ub := vub m in
  let vb := vvb m in
  let dx := dx (grid m) in
  let dy := dy (grid m) in
  let advection_x :=
    if Rlt_dec (ub i j) 0 then ub i j * (H (i+1)%Z j - H i j) / dx
    else ub i j * (H i j - H (i-1)%Z j) / dx in
  let advection_y :=
    if Rlt_dec (vb i j) 0 then vb i j * (H i (j+1)%Z - H i j) / dy
    else vb i j * (H i j - H i (j-1)%Z) / dy in
  let dilation_term :=
    H i j * ((ub (i+1)%Z j - ub (i-1)%Z j) / (2 * dx)
             + (vb i (j+1)%Z - vb i (j-1)%Z) / (2 * dy)) in
  let sliding := advection_x + advection_y + dilation_term in
  let Hnew :=
    H i j + (acab m s i j - (divQ_SIA m i j + sliding)) * dt m in
  let Hnew :=
    if include_bmr_in_continuity (config m) then
      if is_floating (vMask m i j)
      then Hnew - shelfbmassflux m o i j * dt m
      else Hnew - vbasalMeltRate m i j * dt m
    else Hnew in
  let Hnew := if Rlt_dec Hnew 0 then 0 else Hnew in
  let Hnew :=
    if (ocean_kill (config m)
        && mask_eqb (vMask m i j) MASK_OCEAN_AT_TIME_0)%bool
    then 0 else Hnew in
  let Hnew :=
    if (floating_ice_killed (config m) && is_floating (vMask m i j))%bool
    then 0 else Hnew in
  vH (snd (massContExplicitStep m)) i j = Hnew /\
  advection_x
  = Rabs (ub i j)
    * (H i j - H (if Rlt_dec (ub i j) 0 then (i+1)%Z else (i-1)%Z) j) / dx /\
  advection_y
  = Rabs (vb i j)
    * (H i j - H i (if Rlt_dec (vb i j) 0 then (j+1)%Z else (j-1)%Z)) / dy.
Proof.
  intros Hs Ho Hown. cbv zeta. split; [ | split ].
  - rewrite (massContExplicitStep_owned m s o i j Hs Ho Hown).
    unfold new_thickness.
    assert (E : divQ m i j
                = divQ_SIA m i j
                  + ((if Rlt_dec (vub m i j) 0
                      then vub m i j * (vH m (i+1)%Z j - vH m i j)
                           / dx (grid m)
                      else vub m i j * (vH m i j - vH m (i-1)%Z j)
                           / dx (grid m))
                     + (if Rlt_dec (vvb m i j) 0
                        then vvb m i j * (vH m i (j+1)%Z - vH m i j)
                             / dy (grid m)
                        else vvb m i j * (vH m i j - vH m i (j-1)%Z)
                             / dy (grid m))
                     + vH m i j
                       * ((vub m (i+1)%Z j - vub m (i-1)%Z j)
                          / (2 * dx (grid m))
                          + (vvb m i (j+1)%Z - vvb m i (j-1)%Z)
                            / (2 * dy (grid m))))).
    { unfold divQ.
      destruct (Rlt_dec (vub m i j) 0), (Rlt_dec (vvb m i j) 0);
        unfold Rdiv; ring. }
    rewrite E. reflexivity.
  - destruct (Rlt_dec (vub m i j) 0) as [Hneg | Hpos].
    + rewrite Rabs_left by assumption. unfold Rdiv; ring.
    + rewrite Rabs_right by lra. reflexivity.
  - destruct (Rlt_dec (vvb m i j) 0) as [Hneg | Hpos].
    + rewrite Rabs_left by assumption. unfold Rdiv; ring.
    + rewrite Rabs_right by lra. reflexivity.
Qed.

(** *** Mass balance only *)

(** Without sliding and without SIA flux the divergence vanishes. *)
Lemma divQ_at_rest (m : IceModel) (i j : Z) :
  (forall i j, vub m i j = 0) ->
  (forall i j, vvb m i j = 0) ->
  (computeSIAVelocities m = false \/
   forall i j, vuvbar0 m i j = 0 /\ vuvbar1 m i j = 0) ->
  divQ m i j = 0.
Proof.
  intros Hub Hvb Hsia.
  rewrite divQ_parts, upwind_x_upstream, upwind_y_upstream.
  unfold dilation. rewrite !Hub, !Hvb, Rabs_R0.
  assert (Hq : divQ_SIA m i j = 0).
  { unfold divQ_SIA. destruct Hsia as [-> | Hzero]; [ reflexivity | ].
    destruct (computeSIAVelocities m); [ | reflexivity ].
    destruct (Hzero i j) as [-> ->].
    destruct (Hzero (i-1)%Z j) as [-> _].
    destruct (Hzero i (j-1)%Z) as [_ ->].
    unfold Rdiv; ring. }
  rewrite Hq. unfold Rdiv; ring.
Qed.

(** C5.  With sliding velocities identically zero, SIA fluxes identically
    zero or the SIA computation disabled, basal melt, ocean-kill and
    float-kill disabled, and a constant surface mass balance [mb], the
    step gives [H' = max 0 (H + mb dt)] at every owned point; with
    [mb = 0] it gives [H' = H] at every point, owned or not, where the
    thickness is non-negative, as the model keeps it.  (The SSA
    velocities play no part.) *)
Theorem mass_balance_only (m : IceModel) (s : PISMSurfaceModel)
  (o : PISMOceanModel) (mb : R) :
  surface m = Some s -> ocean m = Some o ->
  (forall i j, vub m i j = 0) ->
  (forall i j, vvb m i j = 0) ->
  (computeSIAVelocities m = false \/
   forall i j, vuvbar0 m i j = 0 /\ vuvbar1 m i j = 0) ->
  include_bmr_in_continuity (config m) = false ->
  ocean_kill (config m) = false ->
  floating_ice_killed (config m) = false ->
  (forall i j, acab m s i j = mb) ->
  fst (massContExplicitStep m) = PETSC_OK /\
  (forall i j, owned (grid m) i j ->
     vH (snd (massContExplicitStep m)) i j = Rmax 0 (vH m i j + mb * dt m)) /\
  (mb = 0 ->
   forall i j,
     (owned (grid m) i j -> 0 <= vH m i j) ->
     vH (snd (massContExplicitStep m)) i j = vH m i j).
Proof.
  intros Hs Ho Hub Hvb Hsia Hbmr Hok Hfk Hacab.
  assert (Hpt : forall i j, owned (grid m) i j ->
            vH (snd (massContExplicitStep m)) i j
            = Rmax 0 (vH m i j + mb * dt m)).
  { intros i j Hown.
    rewrite (massContExplicitStep_owned m s o i j Hs Ho Hown).
    unfold new_thickness.
    rewrite Hbmr, Hok, Hfk, Hacab, (divQ_at_rest m i j Hub Hvb Hsia).
    simpl. unfold Rmax.
    destruct (Rlt_dec _ _), (Rle_dec _ _); lra. }
  split; [ apply (massContExplicitStep_ok m s o Hs Ho) | ].
  split; [ exact Hpt | ].
  intros -> i j Hpos.
  assert (Hdec : owned (grid m) i j \/ ~ owned (grid m) i j).
  { unfold owned. lia. }
  destruct Hdec as [Hown | Hnot].
  - rewrite (Hpt i j Hown). specialize (Hpos Hown).
    unfold Rmax. destruct (Rle_dec _ _); lra.
  - now apply massContExplicitStep_elsewhere.
Qed.

(** *** The superposition factor *)

Lemma atan_nonnegative (x : R) : 0 <= x -> 0 <= atan x.
Proof.
  intros [Hpos | <-].
  - left. rewrite <- atan_0. now apply atan_increasing.
  - rewrite atan_0. lra.
Qed.

Lemma atan_zero (x : R) : atan x = 0 -> x = 0.
Proof.
  intros Hx. destruct (Rtotal_order x 0) as [Hlt | [Heq | Hgt]]; auto.
  - apply atan_increasing in Hlt. rewrite atan_0 in Hlt. lra.
  - apply atan_increasing in Hgt. rewrite atan_0 in Hgt. lra.
Qed.

Lemma inC_fofv_nonnegative : 0 <= inC_fofv.
Proof. unfold inC_fofv, PetscSqr. nra. Qed.

Lemma fofv_range (u v : R) : 0 < fofv u v <= 1.
Proof.
  unfold fofv, outC_fofv.
  set (x := inC_fofv * (PetscSqr u + PetscSqr v)).
  assert (Hx : 0 <= x).
  { unfold x, PetscSqr. pose proof inC_fofv_nonnegative. nra. }
  pose proof (atan_nonnegative x Hx) as Hlo.
  destruct (atan_bound x) as [_ Hhi].
  pose proof PI_RGT_0 as Hpi.
  assert (Hq : 2 / PI * atan x = atan x / (PI / 2)) by (field; lra).
  rewrite Hq.
  assert (H0 : 0 <= atan x / (PI / 2)).
  { apply Rmult_le_pos; [ exact Hlo | ]. left. apply Rinv_0_lt_compat. lra. }
  assert (H1 : atan x / (PI / 2) < 1).
  { apply (Rmult_lt_reg_r (PI / 2)); [ lra | ].
    unfold Rdiv at 1. rewrite Rmult_assoc, Rinv_l by lra. lra. }
  lra.
Qed.

Lemma fofv_one (u v : R) :
  secpera <> 0 -> (fofv u v = 1 <-> u = 0 /\ v = 0).
Proof.
  intros Hsec. unfold fofv, outC_fofv. pose proof PI_RGT_0 as Hpi. split.
  - intros Hf.
    assert (Hat : atan (inC_fofv * (PetscSqr u + PetscSqr v)) = 0).
    { assert (Hm : 2 / PI * atan (inC_fofv * (PetscSqr u + PetscSqr v)) = 0)
        by lra.
      apply Rmult_integral in Hm. destruct Hm as [Hm | Hm]; [ | exact Hm ].
      assert (0 < 2 / PI) by (apply Rdiv_lt_0_compat; lra). lra. }
    apply atan_zero in Hat.
    assert (Hc : 0 < inC_fofv).
    { unfold inC_fofv, PetscSqr. assert (0 < secpera * secpera) by nra. lra. }
    unfold PetscSqr in Hat.
    apply Rmult_integral in Hat. destruct Hat as [Hat | Hat]; [ lra | ].
    split; nra.
  - intros [-> ->]. unfold PetscSqr.
    replace (inC_fofv * (0 * 0 + 0 * 0)) with 0 by ring.
    rewrite atan_0. lra.
Qed.

(** C10.  The factor [f = 1 - (2/pi) atan (c (u^2 + v^2))] lies in
    [(0, 1]] for all real [u], [v], and is [1] at zero speed, and only
    there since [c > 0]; so the four face thicknesses built from
    non-negative thicknesses are non-negative and at most the arithmetic
    mean of the two adjacent thicknesses. *)
Theorem superposition_factor_bounds (m : IceModel) (i j : Z) (u v : R) :
  0 < fofv u v <= 1 /\
  fofv 0 0 = 1 /\
  (secpera <> 0 -> (fofv u v = 1 <-> u = 0 /\ v = 0)) /\
  ((forall i j, 0 <= vH m i j) ->
   let st := staggered_thickness m i j in
   0 <= He st <= 0.5 * (vH m i j + vH m (i+1)%Z j) /\
   0 <= Hw st <= 0.5 * (vH m (i-1)%Z j + vH m i j) /\
   0 <= Hn st <= 0.5 * (vH m i j + vH m i (j+1)%Z) /\
   0 <= Hs st <= 0.5 * (vH m i (j-1)%Z + vH m i j)).
Proof.
  split; [ apply fofv_range | ].
  split.
  { unfold fofv, PetscSqr.
    replace (inC_fofv * (0 * 0 + 0 * 0)) with 0 by ring.
    rewrite atan_0. lra. }
  split; [ apply fofv_one | ].
  intros Hpos st. subst st. unfold staggered_thickness.
  pose proof (Hpos i j). pose proof (Hpos (i+1)%Z j).
  pose proof (Hpos (i-1)%Z j). pose proof (Hpos i (j+1)%Z).
  pose proof (Hpos i (j-1)%Z).
  destruct (do_superpose (config m)
            && mask_eqb (vMask m i j) MASK_DRAGGING_SHEET)%bool; simpl.
  - pose proof (fofv_range (vubarSSA m i j) (vvbarSSA m i j)).
    pose proof (fofv_range (vubarSSA m (i+1)%Z j) (vvbarSSA m (i+1)%Z j)).
    pose proof (fofv_range (vubarSSA m (i-1)%Z j) (vvbarSSA m (i-1)%Z j)).
    pose proof (fofv_range (vubarSSA m i (j+1)%Z) (vvbarSSA m i (j+1)%Z)).
    pose proof (fofv_range (vubarSSA m i (j-1)%Z) (vvbarSSA m i (j-1)%Z)).
    repeat split; nra.
  - repeat split; lra.
Qed.

End MassContinuityProperties.

(** ** The driving stress *)

Section DrivingStressProperties.

Context {ext : Externals}.

Lemma driving_stress_body_ok (m : IceModel) (p : Z * Z)
  (t : field R * field R) :
  fst (driving_stress_body m p t) = PETSC_OK.
Proof.
  destruct t as [tx ty]. unfold driving_stress_body, driving_stress_point.
  destruct (Rle_dec _ _); [ reflexivity | ].
  destruct (surface_gradient m (fst p) (snd p)); reflexivity.
Qed.

Lemma driving_stress_body_local (m : IceModel) (a b : Z * Z)
  (t : field R * field R) :
  a <> b -> stress_view a (snd (driving_stress_body m b t)) = stress_view a t.
Proof.
  destruct a as [i' j'], b as [i j], t as [tx ty]. intros Hne.
  unfold stress_view, driving_stress_body, driving_stress_point; simpl.
  destruct (Rle_dec _ _); [ | destruct (surface_gradient m i j) ]; simpl;
    now rewrite !upd_other.
Qed.

Lemma computeDrivingStress_ok (m : IceModel) (t : field R * field R) :
  fst (computeDrivingStress m t) = PETSC_OK.
Proof.
  unfold computeDrivingStress. rewrite for_owned_points.
  apply (for_each_ok (driving_stress_body m) (fun _ => True)); auto.
  intros a s _ _. split; [ apply driving_stress_body_ok | exact I ].
Qed.

(** An owned point holds what its own visit wrote. *)
Lemma computeDrivingStress_owned (m : IceModel) (t : field R * field R)
  (i j : Z) :
  owned (grid m) i j ->
  exists t0,
    stress_view (i, j) (snd (computeDrivingStress m t))
    = stress_view (i, j) (snd (driving_stress_point m i j t0)).
Proof.
  intros Hown.
  exists (snd (for_each (visited_before point_eq_dec (i, j)
                           (owned_points (grid m)))
                 (driving_stress_body m) t)).
  pose proof (computeDrivingStress_ok m t) as Hok.
  unfold computeDrivingStress in *. rewrite for_owned_points in *.
  apply (for_each_visit point_eq_dec (driving_stress_body m) stress_view
           (driving_stress_body_local m) (i, j) (owned_points (grid m)) t
           (NoDup_owned_points (grid m))
           (proj2 (In_owned_points (grid m) i j) Hown) Hok).
Qed.

(** C8.  The procedure always succeeds, and at every owned point where
    the pressure [rho g H] is not positive -- so at every owned point of
    zero thickness -- both components of the driving stress are written
    as [0], in every configuration. *)
Theorem driving_stress_vanishes (m : IceModel) (vtaudx vtaudy : field R) :
  let r := computeDrivingStress m (vtaudx, vtaudy) in
  fst r = PETSC_OK /\
  (forall i j,
      owned (grid m) i j ->
      rho (ice m) * standard_gravity * vH m i j <= 0 ->
      fst (snd r) i j = 0 /\ snd (snd r) i j = 0) /\
  (forall i j,
      owned (grid m) i j ->
      vH m i j = 0 ->
      fst (snd r) i j = 0 /\ snd (snd r) i j = 0).
Proof.
  intros r. subst r.
  assert (Hzero : forall i j,
             owned (grid m) i j ->
             rho (ice m) * standard_gravity * vH m i j <= 0 ->
             fst (snd (computeDrivingStress m (vtaudx, vtaudy))) i j = 0 /\
             snd (snd (computeDrivingStress m (vtaudx, vtaudy))) i j = 0).
  { intros i j Hown Hp.
    destruct (computeDrivingStress_owned m (vtaudx, vtaudy) i j Hown)
      as [[tx ty] Hv].
    unfold stress_view, driving_stress_point in Hv; simpl in Hv.
    destruct (Rle_dec _ _) as [_ | Hgt]; [ | contradiction ].
    simpl in Hv. rewrite !upd_same in Hv. inversion Hv. auto. }
  split; [ apply computeDrivingStress_ok | ].
  split; [ exact Hzero | ].
  intros i j Hown HH. apply Hzero; [ exact Hown | ].
  rewrite HH. lra.
Qed.

End DrivingStressProperties.

(** ** The permanent ocean *)

Section OceanAtTime0.

Context {ext : Externals}.

Lemma update_point_keeps_ocean (sl : R) (i j i' j' : Z) (m : IceModel) :
  vMask m i' j' = MASK_OCEAN_AT_TIME_0 ->
  vMask (snd (update_point sl i j m)) i' j' = MASK_OCEAN_AT_TIME_0.
Proof.
  intros Hocean.
  destruct (point_eq_dec (i', j') (i, j)) as [Heq | Hne].
  - inversion Heq; subst. unfold update_point.
    destruct (Rlt_dec _ _); [ exact Hocean | ].
    destruct (is_dry_simulation _); [ exact Hocean | ].
    rewrite Hocean. exact Hocean.
  - destruct (update_point_local sl i j i' j' m Hne) as [_ ->]. exact Hocean.
Qed.

(** Whatever the configuration and however the call ends, it leaves an
    OCEAN_AT_TIME_0 mask as it is. *)
Lemma update_keeps_ocean (m : IceModel) (i j : Z) :
  vMask m i j = MASK_OCEAN_AT_TIME_0 ->
  vMask (snd (updateSurfaceElevationAndMask m)) i j = MASK_OCEAN_AT_TIME_0.
Proof.
  intros Hocean.
  destruct (ocean m) as [o | ] eqn:Ho.
  - rewrite (updateSurfaceElevationAndMask_loop m o Ho).
    apply (for_each_invariant (update_body (currentSeaLevel m o))
             (fun s => vMask s i j = MASK_OCEAN_AT_TIME_0));
      [ | exact Hocean ].
    intros [i0 j0] s _ Hs. now apply update_point_keeps_ocean.
  - unfold updateSurfaceElevationAndMask. rewrite Ho. exact Hocean.
Qed.

Lemma model_step_keeps_ocean (m m' : IceModel) (i j : Z) :
  model_step m m' ->
  vMask m i j = MASK_OCEAN_AT_TIME_0 -> vMask m' i j = MASK_OCEAN_AT_TIME_0.
Proof.
  intros Hstep Hocean. destruct Hstep as [m | m | m m' Hsame].
  - now apply update_keeps_ocean.
  - now rewrite massContExplicitStep_mask.
  - now rewrite Hsame.
Qed.

(** C9, amended.  A point whose mask is OCEAN_AT_TIME_0 keeps this mask
    over any number of calls of the two procedures in any configuration;
    and after each call of [updateSurfaceElevationAndMask] that succeeds
    in a run that is not dry, its surface elevation, if the point is
    owned, is [sea level + (1 - rho_ice/rho_ocean) H], whatever the bed
    is. *)
Theorem ocean_at_time_0_persists (m : IceModel) (i j : Z) :
  vMask m i j = MASK_OCEAN_AT_TIME_0 ->
  (forall m', model_run m m' -> vMask m' i j = MASK_OCEAN_AT_TIME_0) /\
  (forall o,
      ocean m = Some o ->
      owned (grid m) i j ->
      fst (updateSurfaceElevationAndMask m) = PETSC_OK ->
      is_dry_simulation (config m) = false ->
      vh (snd (updateSurfaceElevationAndMask m)) i j
      = currentSeaLevel m o
        + (1 - rho (ice m) / sea_water_density (config m)) * vH m i j).
Proof.
  intros Hocean. split.
  - intros m' Hrun. induction Hrun as [m | m m' m'' Hstep _ IH].
    + exact Hocean.
    + apply IH. exact (model_step_keeps_ocean m m' i j Hstep Hocean).
  - intros o Ho Hown Hok Hdry.
    apply (update_ocean_at_time_0 m o i j Ho Hown Hok Hdry Hocean).
Qed.

End OceanAtTime0.

(** * Further properties of the geometry procedures *)

Section UpdateFurther.

Context {ext : Externals}.

(** The update reads the time step, and leaves it as it is. *)
Lemma update_loop_dt (sl : R) (l : list (Z * Z)) (m : IceModel) :
  dt (snd (update_loop sl l m)) = dt m.
Proof.
  apply (for_each_invariant (update_body sl) (fun s => dt s = dt m));
    [ | reflexivity ].
  intros [i j] s _ Hs. rewrite <- Hs.
  unfold update_body, update_point, vote_by_neighbors, flotation_criterion.
  simpl. break_ifs; reflexivity.
Qed.

(** Only the masks of a wet run are written. *)
Lemma update_point_dry_mask (sl : R) (i j : Z) (m : IceModel) :
  is_dry_simulation (config m) = true ->
  vMask (snd (update_point sl i j m)) = vMask m.
Proof.
  intros Hdry. unfold update_point. rewrite Hdry.
  destruct (Rlt_dec _ _); reflexivity.
Qed.

(** X1.  The procedure never writes the thickness or the bed, however
    it ends; and in a dry run it leaves the mask of every owned point as
    it is. *)
Theorem update_keeps_thickness_and_bed (m : IceModel) :
  let m' := snd (updateSurfaceElevationAndMask m) in
  vH m' = vH m /\ vbed m' = vbed m /\
  (is_dry_simulation (config m) = true ->
   forall i j, owned (grid m) i j -> vMask m' i j = vMask m i j).
Proof.
  intros m'. subst m'.
  destruct (ocean m) as [o | ] eqn:Ho.
  - rewrite (updateSurfaceElevationAndMask_loop m o Ho).
    set (sl := currentSeaLevel m o).
    destruct (update_loop_inputs sl (owned_points (grid m)) m)
      as (_ & _ & _ & _ & HH & Hb).
    split; [ exact HH | ]. split; [ exact Hb | ].
    intros Hdry i j _.
    assert (HM : vMask (snd (update_loop sl (owned_points (grid m)) m))
                 = vMask m).
    { apply (for_each_invariant (update_body sl)
               (fun s => config s = config m /\ vMask s = vMask m));
        [ | split; reflexivity ].
      intros [i' j'] s _ [Hc HM]. unfold update_body; simpl. split.
      - destruct (update_point_inputs sl i' j' s) as (_ & Hc' & _).
        congruence.
      - rewrite update_point_dry_mask; congruence. }
    rewrite HM. reflexivity.
  - unfold updateSurfaceElevationAndMask. rewrite Ho. simpl. auto.
Qed.

(** *** The state a wet run leaves *)

(** In a wet run, a visited point that is not OCEAN_AT_TIME_0 is left
    either floating on the floating surface, inside the upper margin, or
    grounded on the grounded surface, inside the lower margin. *)
Lemma update_wet_stable (m : IceModel) (o : PISMOceanModel) (i j : Z) :
  ocean m = Some o ->
  owned (grid m) i j ->
  fst (updateSurfaceElevationAndMask m) = PETSC_OK ->
  is_dry_simulation (config m) = false ->
  vMask m i j <> MASK_OCEAN_AT_TIME_0 ->
  let hg := vbed m i j + vH m i j in
  let hf := currentSeaLevel m o
            + (1 - rho (ice m) / sea_water_density (config m)) * vH m i j in
  let h' := vh (snd (updateSurfaceElevationAndMask m)) i j in
  let mask' := vMask (snd (updateSurfaceElevationAndMask m)) i j in
  (mask' = MASK_FLOATING /\ h' = hf /\ hg <= hf + 1) \/
  (is_grounded mask' = true /\ h' = hg /\ hg > hf - 1 /\
   ((use_ssa_velocity (config m) && do_plastic_till (config m))%bool = true ->
    mask' = MASK_DRAGGING_SHEET)).
Proof.
  intros Ho Hown Hok Hdry Hocean hg hf h' mask'. subst h' mask'.
  destruct (update_wet_point m o i j Ho Hown Hok Hdry Hocean)
    as (mk & Hin & Hmk & _ & Hh & HM).
  rewrite Hh, HM. clear Hh HM.
  destruct Hin as (_ & Hc & Hi & _ & HH & Hb).
  unfold vote_by_neighbors, flotation_criterion, hgrounded, hfloating.
  simpl. rewrite Hc, Hi, HH, Hb, Hmk. fold hg hf.
  destruct (vMask m i j) eqn:Hmask; simpl; try congruence;
    destruct (Rgt_dec hg _) as [Hgt | Hle];
    destruct (use_ssa_velocity (config m)), (do_plastic_till (config m));
    repeat (simpl; rewrite ?upd_same, ?Hmk, ?Hmask);
    try (destruct (Rle_dec _ vote_threshold));
    repeat (simpl; rewrite ?upd_same, ?Hmk, ?Hmask);
    first [ left; repeat split; (reflexivity || lra)
          | right; repeat split; intros; (reflexivity || discriminate || lra) ].
Qed.

(** The body of the loop leaves such a point as it finds it. *)
Lemma update_point_stable (sl : R) (i j : Z) (m : IceModel) :
  0 <= vH m i j ->
  is_dry_simulation (config m) = false ->
  (vMask m i j = MASK_FLOATING /\
   vh m i j = hfloating sl m i j /\
   hgrounded m i j <= hfloating sl m i j + 1) \/
  (is_grounded (vMask m i j) = true /\
   vh m i j = hgrounded m i j /\
   hgrounded m i j > hfloating sl m i j - 1 /\
   ((use_ssa_velocity (config m) && do_plastic_till (config m))%bool = true ->
    vMask m i j = MASK_DRAGGING_SHEET)) ->
  vh (snd (update_point sl i j m)) i j = vh m i j /\
  vMask (snd (update_point sl i j m)) i j = vMask m i j.
Proof.
  intros Hpos Hdry Hst. unfold update_point. rewrite Hdry.
  destruct (Rlt_dec _ _); [ lra | ].
  unfold vote_by_neighbors, flotation_criterion.
  destruct Hst as [(HM & Hh & Hle) | (HM & Hh & Hgt & Hpl)].
  - rewrite HM. simpl.
    destruct (Rgt_dec _ _); [ lra | ]. simpl. rewrite HM. simpl.
    rewrite upd_same. auto.
  - destruct (vMask m i j) eqn:Hmask; try discriminate; simpl;
      (destruct (Rgt_dec _ _); [ | lra ]);
      destruct (use_ssa_velocity (config m) && do_plastic_till (config m))%bool;
      repeat (simpl; rewrite ?upd_same, ?Hmask); auto;
      specialize (Hpl eq_refl); discriminate.
Qed.

(** X2.  After a wet run that succeeds, the mask and the surface elevation of
    every owned point agree: an OCEAN_AT_TIME_0 point is on the floating
    surface; a FLOATING point is on the floating surface, which the
    grounded one exceeds by at most 1; a grounded point (SHEET or
    DRAGGING_SHEET) has [h = bed + H], which is above the floating
    surface less 1.  There is no other case. *)
Theorem mask_agrees_with_surface (m : IceModel) (o : PISMOceanModel)
  (i j : Z) :
  ocean m = Some o ->
  owned (grid m) i j ->
  fst (updateSurfaceElevationAndMask m) = PETSC_OK ->
  is_dry_simulation (config m) = false ->
  let hg := vbed m i j + vH m i j in
  let hf := currentSeaLevel m o
            + (1 - rho (ice m) / sea_water_density (config m)) * vH m i j in
  let h' := vh (snd (updateSurfaceElevationAndMask m)) i j in
  let mask' := vMask (snd (updateSurfaceElevationAndMask m)) i j in
  (mask' = MASK_OCEAN_AT_TIME_0 /\ h' = hf) \/
  (mask' = MASK_FLOATING /\ h' = hf /\ hg <= hf + 1) \/
  (is_grounded mask' = true /\ h' = hg /\ hg > hf - 1).
Proof.
  intros Ho Hown Hok Hdry hg hf h' mask'. subst h' mask'.
  destruct (mask_eqb (vMask m i j) MASK_OCEAN_AT_TIME_0) eqn:Hocean.
  - apply mask_eqb_eq in Hocean. left.
    destruct (update_ocean_at_time_0 m o i j Ho Hown Hok Hdry Hocean)
      as [Hh HM].
    split; [ exact HM | exact Hh ].
  - apply mask_eqb_neq in Hocean. right.
    destruct (update_wet_stable m o i j Ho Hown Hok Hdry Hocean)
      as [Hfl | (Hg & Hh & Hgt & _)]; [ left; exact Hfl | right; auto ].
Qed.

(** X3.  A second call changes nothing at the points a process owns.
    After a call that succeeds, take any model with the same inputs
    and, at the owned points, the surface elevations and the masks the
    call left, whatever its other points hold: a call on it, with the
    same sea level, succeeds and leaves the surface elevation and the
    mask of every owned point as it finds them. *)
Theorem update_twice (m m1 : IceModel) (o : PISMOceanModel) :
  ocean m = Some o ->
  fst (updateSurfaceElevationAndMask m) = PETSC_OK ->
  same_inputs m m1 -> dt m1 = dt m ->
  (forall i j, owned (grid m) i j ->
     vh m1 i j = vh (snd (updateSurfaceElevationAndMask m)) i j /\
     vMask m1 i j = vMask (snd (updateSurfaceElevationAndMask m)) i j) ->
  fst (updateSurfaceElevationAndMask m1) = PETSC_OK /\
  forall i j, owned (grid m) i j ->
    vh (snd (updateSurfaceElevationAndMask m1)) i j = vh m1 i j /\
    vMask (snd (updateSurfaceElevationAndMask m1)) i j = vMask m1 i j.
Proof.
  intros Ho Hok Hin Hdt Hsame.
  destruct Hin as (Hg & Hc & Hi & Ho1 & HH & Hb).
  assert (Ho' : ocean m1 = Some o) by congruence.
  assert (Hsl : currentSeaLevel m1 o = currentSeaLevel m o).
  { unfold currentSeaLevel. now rewrite Hg, Hdt. }
  assert (Hok1 : fst (updateSurfaceElevationAndMask m1) = PETSC_OK).
  { apply (update_ok_nonnegative m1 o Ho'). intros i j Hown.
    rewrite Hg in Hown. rewrite HH.
    apply (update_ok_visited m o i j Ho Hown Hok). }
  split; [ exact Hok1 | ]. intros i j Hown.
  assert (Hown1 : owned (grid m1) i j) by now rewrite Hg.
  pose proof (update_ok_visited m o i j Ho Hown Hok) as Hpos.
  destruct (Hsame i j Hown) as [Hh0 HM0].
  destruct (is_dry_simulation (config m)) eqn:Hdry.
  - destruct (update_dry m o i j Ho Hown Hok Hdry) as [Hh HM].
    assert (Hdry1 : is_dry_simulation (config m1) = true) by congruence.
    destruct (update_dry m1 o i j Ho' Hown1 Hok1 Hdry1) as [Hh1 HM1].
    rewrite Hh1, HM1, Hh0, Hh, HH, Hb. auto.
  - assert (Hdry1 : is_dry_simulation (config m1) = false) by congruence.
    destruct (update_at_point m1 o i j Ho' Hown1 Hok1) as [Hh1 HM1].
    rewrite Hh1, HM1. clear Hh1 HM1.
    destruct (when_visited_inputs (currentSeaLevel m1 o) m1 i j)
      as (_ & Hc2 & Hi2 & _ & HH2 & Hb2).
    destruct (when_visited_point (currentSeaLevel m1 o) m1 i j)
      as [Hh2 HM2].
    rewrite <- Hh2, <- HM2.
    set (mk := when_visited (currentSeaLevel m1 o) m1 i j) in *.
    destruct (mask_eqb (vMask m i j) MASK_OCEAN_AT_TIME_0) eqn:Hocean.
    + apply mask_eqb_eq in Hocean.
      destruct (update_ocean_at_time_0 m o i j Ho Hown Hok Hdry Hocean)
        as [Hh HM].
      unfold update_point. rewrite HH2, HH, Hc2, Hc, Hdry.
      destruct (Rlt_dec _ _); [ lra | ].
      rewrite HM2, HM0, HM. simpl. rewrite upd_same, Hh2, Hh0, Hh.
      unfold hfloating. rewrite Hi2, Hi, Hc2, Hc, HH2, HH, Hsl.
      split; [ reflexivity | congruence ].
    + apply mask_eqb_neq in Hocean.
      pose proof (update_wet_stable m o i j Ho Hown Hok Hdry Hocean) as Hst.
      simpl in Hst. rewrite <- Hh0, <- HM0 in Hst.
      apply update_point_stable.
      * now rewrite HH2, HH.
      * now rewrite Hc2, Hc.
      * unfold hgrounded, hfloating.
        rewrite HM2, Hh2, Hb2, Hb, HH2, HH, Hi2, Hi, Hc2, Hc, Hsl.
        exact Hst.
Qed.

(** *** Which negative thickness is reported *)

Lemma visited_before_app {A : Type}
  (eq_dec : forall a b : A, {a = b} + {a <> b}) (a : A) (pre post : list A) :
  ~ In a pre -> visited_before eq_dec a (pre ++ a :: post) = pre.
Proof.
  induction pre as [ | b pre IH]; intros Hnin; simpl.
  - destruct (eq_dec a a); [ reflexivity | contradiction ].
  - destruct (eq_dec b a) as [-> | Hne].
    + elim Hnin. now left.
    + f_equal. apply IH. intros Hin. apply Hnin. now right.
Qed.

(** The loop stops at the first point of negative thickness it meets, and
    returns the model as it was on reaching this point. *)
Lemma update_loop_first_negative (sl : R) (m : IceModel) (l : list (Z * Z)) :
  forall s,
    same_inputs m s ->
    (exists p, In p l /\ vH m (fst p) (snd p) < 0) ->
    exists pre p post,
      l = pre ++ p :: post /\
      (forall q, In q pre -> 0 <= vH m (fst q) (snd q)) /\
      vH m (fst p) (snd p) < 0 /\
      update_loop sl l s
      = (SETERRQ 1 (Thickness_negative_at_point (fst p) (snd p)),
         snd (update_loop sl pre s)).
Proof.
  induction l as [ | [i j] l IH]; intros s Hs [p [Hin Hneg]].
  - destruct Hin.
  - assert (HH : vH s = vH m) by apply Hs.
    destruct (Rlt_dec (vH m i j) 0) as [Hij | Hij].
    + exists [], (i, j), l. split; [ reflexivity | ].
      split; [ intros q [] | ]. split; [ exact Hij | ].
      unfold update_loop; simpl. unfold CHKERRQ, update_body; simpl.
      rewrite update_point_negative by (now rewrite HH). reflexivity.
    + destruct Hin as [<- | Hin]; [ simpl in Hneg; contradiction | ].
      assert (Hs' : same_inputs m (snd (update_point sl i j s))).
      { destruct (update_point_inputs sl i j s) as (H1 & H2 & H3 & H4 & H5 & H6).
        destruct Hs as (G1 & G2 & G3 & G4 & G5 & G6).
        repeat split; congruence. }
      destruct (IH _ Hs' (ex_intro _ p (conj Hin Hneg)))
        as (pre & q & post & Hl & Hpre & Hq & Herr).
      exists ((i, j) :: pre), q, post.
      split; [ simpl; now rewrite Hl | ].
      split; [ intros r [<- | Hr]; [ simpl; lra | now apply Hpre ] | ].
      split; [ exact Hq | ].
      assert (Hok : fst (update_point sl i j s) = PETSC_OK).
      { apply update_point_nonnegative. rewrite HH. lra. }
      unfold update_loop in *; simpl. unfold CHKERRQ, update_body; simpl.
      destruct (update_point sl i j s) as [[ | n msg] s']; simpl in *;
        [ exact Herr | discriminate ].
Qed.

(** X4.  When some owned thickness is negative, the point the error names is
    the first such point in the order of the loops ([i] outer, [j]
    inner); the call returns the model as the loop had left it on
    reaching that point: the points visited earlier are updated, and this
    point and all later ones keep their surface elevation and mask. *)
Theorem first_negative_thickness_is_reported (m : IceModel)
  (o : PISMOceanModel) :
  ocean m = Some o ->
  (exists i j, owned (grid m) i j /\ vH m i j < 0) ->
  exists i j,
    owned (grid m) i j /\ vH m i j < 0 /\
    (forall i' j', owned (grid m) i' j' -> vH m i' j' < 0 ->
                   ~ visited_earlier (i', j') (i, j)) /\
    updateSurfaceElevationAndMask m
    = (SETERRQ 1 (Thickness_negative_at_point i j),
       when_visited (currentSeaLevel m o) m i j) /\
    (forall i' j',
        ~ (owned (grid m) i' j' /\ visited_earlier (i', j') (i, j)) ->
        vh (snd (updateSurfaceElevationAndMask m)) i' j' = vh m i' j' /\
        vMask (snd (updateSurfaceElevationAndMask m)) i' j' = vMask m i' j').
Proof.
  intros Ho (i0 & j0 & Hown0 & Hneg0).
  set (sl := currentSeaLevel m o).
  destruct (update_loop_first_negative sl m (owned_points (grid m)) m
              (same_inputs_refl m))
    as (pre & [i j] & post & Hl & Hpre & Hneg & Herr).
  { exists (i0, j0). split; [ now apply In_owned_points | exact Hneg0 ]. }
  simpl in Hneg, Herr.
  assert (Hin : In (i, j) (owned_points (grid m))).
  { rewrite Hl. apply in_or_app. right. now left. }
  assert (Hown : owned (grid m) i j) by now apply In_owned_points.
  assert (Hnin : ~ In (i, j) pre).
  { pose proof (NoDup_owned_points (grid m)) as Hnd. rewrite Hl in Hnd.
    apply NoDup_remove_2 in Hnd. intros Hp. apply Hnd.
    apply in_or_app. now left. }
  assert (Hvb : visited_before point_eq_dec (i, j) (owned_points (grid m))
                = pre).
  { rewrite Hl. now apply visited_before_app. }
  assert (Hret : updateSurfaceElevationAndMask m
                 = (SETERRQ 1 (Thickness_negative_at_point i j),
                    when_visited sl m i j)).
  { rewrite (updateSurfaceElevationAndMask_loop m o Ho). fold sl.
    rewrite Herr. unfold when_visited. now rewrite Hvb. }
  exists i, j. split; [ exact Hown | ]. split; [ exact Hneg | ].
  split; [ | split; [ exact Hret | ] ].
  - intros i' j' Hown' Hneg' Hearlier.
    assert (Hin' : In (i', j') pre).
    { rewrite <- Hvb. now apply (visited_before_owned (grid m) i j i' j' Hown). }
    specialize (Hpre _ Hin'). simpl in Hpre. lra.
  - intros i' j' Hnot. rewrite Hret. simpl.
    assert (Hnot' : ~ In (i', j')
                        (visited_before point_eq_dec (i, j)
                           (owned_points (grid m)))).
    { intros Hp. apply Hnot.
      now apply (visited_before_owned (grid m) i j i' j' Hown). }
    pose proof (for_each_frame (update_body sl) point_view
                  (update_body_local sl) (i', j') _ m Hnot') as Hv.
    unfold point_view in Hv; simpl in Hv. injection Hv as Hh HM.
    unfold when_visited, update_loop. auto.
Qed.

End UpdateFurther.

Section MassContinuityFurther.

Context {ext : Externals}.

(** *** The order of the visits does not matter *)

(** Whatever the order in which a loop visits points, each visited point
    gets its new thickness from the value the work field held on entry. *)
Lemma massCont_list_visited (a b : field R) (m : IceModel)
  (l : list (Z * Z)) (c0 : Continuity) (i j : Z) :
  NoDup l -> In (i, j) l ->
  vHnew (snd (for_each l (massCont_body a b m) c0)) i j
  = new_thickness a b m i j (vHnew c0 i j).
Proof.
  intros Hnd Hin.
  pose proof (for_each_visit point_eq_dec (massCont_body a b m)
                (fun p c => vHnew c (fst p) (snd p))
                (massCont_body_local a b m) (i, j) l c0 Hnd Hin
                (massCont_body_ok a b m l c0)) as Hv.
  simpl in Hv. rewrite Hv. clear Hv.
  pose proof (visited_before_frame point_eq_dec (massCont_body a b m)
                (fun p c => vHnew c (fst p) (snd p))
                (massCont_body_local a b m) (i, j) l c0) as Hpre.
  simpl in Hpre.
  unfold massCont_body at 1, massCont_point; simpl.
  rewrite upd_same, Hpre. reflexivity.
Qed.

(** X5.  The step computes every new thickness from the old thickness
    field: at an owned point it is [new_thickness] of the old value, and
    a loop that visits the owned points in any other order, each once,
    gives every owned point the same thickness. *)
Theorem massContExplicitStep_any_order (m : IceModel)
  (s : PISMSurfaceModel) (o : PISMOceanModel) :
  surface m = Some s -> ocean m = Some o ->
  let m' := snd (massContExplicitStep m) in
  (forall i j, owned (grid m) i j ->
     vH m' i j
     = new_thickness (acab m s) (shelfbmassflux m o) m i j (vH m i j)) /\
  (forall l, NoDup l ->
     (forall i j, In (i, j) l <-> owned (grid m) i j) ->
     forall i j, owned (grid m) i j ->
       vHnew (snd (for_each l
                     (massCont_body (acab m s) (shelfbmassflux m o) m)
                     {| vHnew := vH m; icecount := 0 |})) i j
       = vH m' i j).
Proof.
  intros Hs Ho m'. subst m'.
  split; [ intros i j; apply (massContExplicitStep_owned m s o i j Hs Ho) | ].
  intros l Hnd Hl i j Hown.
  rewrite (massContExplicitStep_owned m s o i j Hs Ho Hown).
  apply massCont_list_visited; [ exact Hnd | now apply Hl ].
Qed.

(** *** Calving at the fixed ocean and at floating points *)

Lemma model_run_keeps_ocean (m m' : IceModel) (i j : Z) :
  model_run m m' ->
  vMask m i j = MASK_OCEAN_AT_TIME_0 -> vMask m' i j = MASK_OCEAN_AT_TIME_0.
Proof.
  intros Hrun. induction Hrun as [m | m m' m'' Hstep _ IH]; intros Hocean.
  - exact Hocean.
  - apply IH. exact (model_step_keeps_ocean m m' i j Hstep Hocean).
Qed.

(** X6.  With [ocean_kill], a point that was ever OCEAN_AT_TIME_0 carries no
    ice after a continuity step, however many calls of the two procedures
    came in between; with [floating_ice_killed], no floating point
    carries ice after a step. *)
Theorem calving_leaves_no_ice (m m' : IceModel) (s : PISMSurfaceModel)
  (o : PISMOceanModel) (i j : Z) :
  model_run m m' ->
  surface m' = Some s -> ocean m' = Some o ->
  owned (grid m') i j ->
  (ocean_kill (config m') = true ->
   vMask m i j = MASK_OCEAN_AT_TIME_0 ->
   vH (snd (massContExplicitStep m')) i j = 0 /\
   vMask (snd (massContExplicitStep m')) i j = MASK_OCEAN_AT_TIME_0) /\
  (floating_ice_killed (config m') = true ->
   is_floating (vMask m' i j) = true ->
   vH (snd (massContExplicitStep m')) i j = 0).
Proof.
  intros Hrun Hs Ho Hown.
  rewrite (massContExplicitStep_owned m' s o i j Hs Ho Hown).
  rewrite massContExplicitStep_mask.
  split.
  - intros Hkill Hocean.
    pose proof (model_run_keeps_ocean m m' i j Hrun Hocean) as Hocean'.
    split; [ | exact Hocean' ].
    unfold new_thickness. rewrite Hkill, Hocean'. simpl.
    destruct (floating_ice_killed (config m')); reflexivity.
  - intros Hkill Hfl. unfold new_thickness. rewrite Hkill, Hfl. reflexivity.
Qed.

(** *** Fluxes through shared faces *)

Lemma staggered_faces_agree_x (m : IceModel) (i j : Z) :
  superposed m i j = superposed m (i+1)%Z j ->
  He (staggered_thickness m i j) = Hw (staggered_thickness m (i+1)%Z j).
Proof.
  unfold superposed, staggered_thickness.
  replace (i + 1 - 1)%Z with i by lia.
  intros Heq; rewrite <- Heq;
    destruct (do_superpose (config m)
              && mask_eqb (vMask m i j) MASK_DRAGGING_SHEET)%bool;
    simpl; ring.
Qed.

Lemma staggered_faces_agree_y (m : IceModel) (i j : Z) :
  superposed m i j = superposed m i (j+1)%Z ->
  Hn (staggered_thickness m i j) = Hs (staggered_thickness m i (j+1)%Z).
Proof.
  unfold superposed, staggered_thickness.
  replace (j + 1 - 1)%Z with j by lia.
  intros Heq; rewrite <- Heq;
    destruct (do_superpose (config m)
              && mask_eqb (vMask m i j) MASK_DRAGGING_SHEET)%bool;
    simpl; ring.
Qed.

(** X7.  Two neighbours that take the same branch of the staggered averaging
    see the same thickness on the face they share, so the SIA flux that
    leaves one through this face is the flux that enters the other. *)
Theorem staggered_faces_agree (m : IceModel) (i j : Z) :
  (superposed m i j = superposed m (i+1)%Z j ->
   vuvbar0 m i j * He (staggered_thickness m i j)
   = vuvbar0 m (i + 1 - 1)%Z j * Hw (staggered_thickness m (i+1)%Z j)) /\
  (superposed m i j = superposed m i (j+1)%Z ->
   vuvbar1 m i j * Hn (staggered_thickness m i j)
   = vuvbar1 m i (j + 1 - 1)%Z * Hs (staggered_thickness m i (j+1)%Z)).
Proof.
  replace (i + 1 - 1)%Z with i by lia.
  replace (j + 1 - 1)%Z with j by lia.
  split; intros Heq.
  - now rewrite (staggered_faces_agree_x m i j Heq).
  - now rewrite (staggered_faces_agree_y m i j Heq).
Qed.

Lemma range_succ (lo : Z) (n : nat) :
  range lo (Z.of_nat (S n)) = lo :: range (lo + 1) (Z.of_nat n).
Proof.
  unfold range. rewrite !Nat2Z.id. simpl. f_equal; [ lia | ].
  rewrite <- seq_shift, map_map. apply map_ext. intros k. lia.
Qed.

(** X8.  Without superposition, and with no SIA flux in the [y] direction,
    the SIA flux divergences of a row of points sum, times [dx], to the
    flux through the east face of the last point less the flux through
    the west face of the first: what leaves a point enters its
    neighbour. *)
Theorem sia_flux_telescopes (m : IceModel) (j lo : Z) (n : nat) :
  computeSIAVelocities m = true ->
  do_superpose (config m) = false ->
  dx (grid m) <> 0 ->
  (forall i j, vuvbar1 m i j = 0) ->
  Rsum (map (fun i => divQ_SIA m i j) (range lo (Z.of_nat (S n))))
  * dx (grid m)
  = vuvbar0 m (lo + Z.of_nat n)%Z j
    * He (staggered_thickness m (lo + Z.of_nat n)%Z j)
    - vuvbar0 m (lo - 1)%Z j * Hw (staggered_thickness m lo j).
Proof.
  intros Hsia Hsup Hdx Hy.
  assert (Hpt : forall i,
             divQ_SIA m i j * dx (grid m)
             = vuvbar0 m i j * He (staggered_thickness m i j)
               - vuvbar0 m (i - 1)%Z j * Hw (staggered_thickness m i j)).
  { intros i. unfold divQ_SIA. rewrite Hsia, !Hy.
    set (q := vuvbar0 m i j * _ - _).
    replace ((0 * Hn (staggered_thickness m i j)
              - 0 * Hs (staggered_thickness m i j)) / dy (grid m))
      with 0 by (unfold Rdiv; ring).
    field. exact Hdx. }
  assert (Hface : forall i,
             He (staggered_thickness m i j)
             = Hw (staggered_thickness m (i + 1)%Z j)).
  { intros i. apply (staggered_faces_agree_x m i j).
    unfold superposed. now rewrite Hsup. }
  revert lo. induction n as [ | n IH]; intros lo.
  - rewrite range_succ. simpl. unfold Rsum; simpl.
    replace (lo + 0)%Z with lo by lia.
    rewrite Rplus_0_r. apply Hpt.
  - rewrite range_succ. simpl map. unfold Rsum in *. simpl fold_right.
    rewrite Rmult_plus_distr_r, IH, Hpt, Hface.
    replace (lo + 1 + Z.of_nat n)%Z with (lo + Z.of_nat (S n))%Z by lia.
    replace (lo + 1 - 1)%Z with lo by lia.
    ring.
Qed.

End MassContinuityFurther.

Section MassContinuityNumerics.

Context {ext : Externals}.

(** *** The superposition factor decreases with the speed *)

Lemma atan_monotone (x y : R) : x <= y -> atan x <= atan y.
Proof.
  intros [Hlt | ->]; [ left; now apply atan_increasing | right; reflexivity ].
Qed.

(** X9.  The faster the sliding, the smaller the factor that weights the SIA
    flux: [fofv] is a non-increasing function of [u^2 + v^2], and a
    decreasing one as soon as [secpera] is not zero. *)
Theorem fofv_decreases_with_speed (u1 v1 u2 v2 : R) :
  (PetscSqr u1 + PetscSqr v1 <= PetscSqr u2 + PetscSqr v2 ->
   fofv u2 v2 <= fofv u1 v1) /\
  (secpera <> 0 ->
   PetscSqr u1 + PetscSqr v1 < PetscSqr u2 + PetscSqr v2 ->
   fofv u2 v2 < fofv u1 v1).
Proof.
  pose proof PI_RGT_0 as Hpi.
  assert (Hout : 0 < outC_fofv).
  { unfold outC_fofv. apply Rdiv_lt_0_compat; lra. }
  pose proof inC_fofv_nonnegative as Hin.
  unfold fofv. split.
  - intros Hle.
    assert (Hat : atan (inC_fofv * (PetscSqr u1 + PetscSqr v1))
                  <= atan (inC_fofv * (PetscSqr u2 + PetscSqr v2))).
    { apply atan_monotone. now apply Rmult_le_compat_l. }
    apply (Rmult_le_compat_l outC_fofv) in Hat; lra.
  - intros Hsec Hlt.
    assert (Hc : 0 < inC_fofv).
    { unfold inC_fofv, PetscSqr. assert (0 < secpera * secpera) by nra. lra. }
    assert (Hat : atan (inC_fofv * (PetscSqr u1 + PetscSqr v1))
                  < atan (inC_fofv * (PetscSqr u2 + PetscSqr v2))).
    { apply atan_increasing. now apply Rmult_lt_compat_l. }
    apply (Rmult_lt_compat_l outC_fofv) in Hat; lra.
Qed.

(** *** The count of ice-covered points *)

Lemma icecount_list (a b : field R) (m : IceModel) (l : list (Z * Z)) :
  forall c0,
    icecount (snd (for_each l (massCont_body a b m) c0))
    = icecount c0 + INR (length (filter (has_ice m) l)).
Proof.
  induction l as [ | [i j] l IH]; intros c0.
  - simpl. lra.
  - simpl for_each. unfold CHKERRQ.
    unfold massCont_body at 1, massCont_point; simpl fst; simpl snd.
    cbv iota beta. rewrite IH. cbn [icecount filter].
    unfold has_ice at 2. simpl fst; simpl snd.
    destruct (Rgt_dec (vH m i j) 0).
    + cbn [length]. rewrite S_INR. lra.
    + lra.
Qed.

(** X10.  When the loop of the step ends, [icecount] is the number of owned
    points whose thickness before the step is positive; it lies between
    [0] and the number of owned points. *)
Theorem icecount_counts_ice (a b : field R) (m : IceModel) :
  let c := snd (for_owned (grid m) (massCont_point a b m)
                  {| vHnew := vH m; icecount := 0 |}) in
  icecount c = INR (length (filter (has_ice m) (owned_points (grid m)))) /\
  0 <= icecount c <= INR (length (owned_points (grid m))).
Proof.
  intros c. subst c. rewrite for_owned_points.
  change (for_each (owned_points (grid m))
            (fun p => massCont_point a b m (fst p) (snd p)))
    with (for_each (owned_points (grid m)) (massCont_body a b m)).
  rewrite icecount_list. simpl icecount. rewrite Rplus_0_l.
  split; [ reflexivity | ]. split; [ apply pos_INR | ].
  apply le_INR. apply filter_length_le.
Qed.

(** *** Upwinding under the CFL condition *)

(** X11.  Pure advection by a uniform sliding velocity [(u, v)], with no SIA
    flux, no mass balance and no calving: if the Courant numbers
    [cx = |u| dt / dx] and [cy = |v| dt / dy] satisfy [cx + cy <= 1], the
    new thickness of an owned point is the convex combination
    [(1 - cx - cy) H + cx H_x + cy H_y] of its thickness and of those of
    its two upstream neighbours; so, from non-negative thicknesses, the
    free boundary rule never acts and no new extremum appears. *)
Theorem upwind_step_is_convex (m : IceModel) (s : PISMSurfaceModel)
  (o : PISMOceanModel) (u v : R) (i j : Z) :
  surface m = Some s -> ocean m = Some o ->
  owned (grid m) i j ->
  (forall i j, vub m i j = u) ->
  (forall i j, vvb m i j = v) ->
  computeSIAVelocities m = false ->
  include_bmr_in_continuity (config m) = false ->
  ocean_kill (config m) = false ->
  floating_ice_killed (config m) = false ->
  (forall i j, acab m s i j = 0) ->
  0 < dx (grid m) -> 0 < dy (grid m) -> 0 <= dt m ->
  let cx := Rabs u * dt m / dx (grid m) in
  let cy := Rabs v * dt m / dy (grid m) in
  let Hx := vH m (upstream u i) j in
  let Hy := vH m i (upstream v j) in
  cx + cy <= 1 ->
  0 <= vH m i j -> 0 <= Hx -> 0 <= Hy ->
  let H' := vH (snd (massContExplicitStep m)) i j in
  H' = (1 - cx - cy) * vH m i j + cx * Hx + cy * Hy /\
  Rmin (vH m i j) (Rmin Hx Hy) <= H' <= Rmax (vH m i j) (Rmax Hx Hy).
Proof.
  intros Hs Ho Hown Hub Hvb Hsia Hbmr Hok Hfk Hacab Hdx Hdy Hdt
         cx cy Hx Hy Hcfl HH HHx HHy H'.
  assert (Hcx : 0 <= cx).
  { unfold cx. apply Rmult_le_pos; [ | left; now apply Rinv_0_lt_compat ].
    apply Rmult_le_pos; [ apply Rabs_pos | exact Hdt ]. }
  assert (Hcy : 0 <= cy).
  { unfold cy. apply Rmult_le_pos; [ | left; now apply Rinv_0_lt_compat ].
    apply Rmult_le_pos; [ apply Rabs_pos | exact Hdt ]. }
  assert (Hval : H' = (1 - cx - cy) * vH m i j + cx * Hx + cy * Hy).
  { subst H'. rewrite (massContExplicitStep_owned m s o i j Hs Ho Hown).
    unfold new_thickness. rewrite Hbmr, Hok, Hfk, Hacab. simpl.
    rewrite divQ_parts, upwind_x_upstream, upwind_y_upstream.
    unfold divQ_SIA, dilation. rewrite Hsia, !Hub, !Hvb.
    fold Hx Hy.
    assert (Heq : vH m i j
                  + (0 - (0 + (Rabs u * (vH m i j - Hx) / dx (grid m)
                               + Rabs v * (vH m i j - Hy) / dy (grid m))
                          + vH m i j * ((u - u) / (2 * dx (grid m))
                                        + (v - v) / (2 * dy (grid m)))))
                    * dt m
                  = (1 - cx - cy) * vH m i j + cx * Hx + cy * Hy).
    { unfold cx, cy. field. lra. }
    rewrite Heq.
    destruct (Rlt_dec _ 0) as [Hneg | _]; [ | reflexivity ].
    assert (0 <= (1 - cx - cy) * vH m i j) by (apply Rmult_le_pos; lra).
    assert (0 <= cx * Hx) by (apply Rmult_le_pos; lra).
    assert (0 <= cy * Hy) by (apply Rmult_le_pos; lra).
    lra. }
  split; [ exact Hval | ]. rewrite Hval.
  set (lo := Rmin (vH m i j) (Rmin Hx Hy)).
  set (hi := Rmax (vH m i j) (Rmax Hx Hy)).
  assert (Hlo : lo <= vH m i j /\ lo <= Hx /\ lo <= Hy).
  { unfold lo. pose proof (Rmin_l (vH m i j) (Rmin Hx Hy)).
    pose proof (Rmin_r (vH m i j) (Rmin Hx Hy)).
    pose proof (Rmin_l Hx Hy). pose proof (Rmin_r Hx Hy). lra. }
  assert (Hhi : vH m i j <= hi /\ Hx <= hi /\ Hy <= hi).
  { unfold hi. pose proof (Rmax_l (vH m i j) (Rmax Hx Hy)).
    pose proof (Rmax_r (vH m i j) (Rmax Hx Hy)).
    pose proof (Rmax_l Hx Hy). pose proof (Rmax_r Hx Hy). lra. }
  destruct Hlo as (L1 & L2 & L3). destruct Hhi as (U1 & U2 & U3).
  split; nra.
Qed.

End MassContinuityNumerics.

(** * Further properties of the driving stress *)

Section DrivingStressFurther.

Context {ext : Externals}.

(** What the body writes at its point does not depend on what the output
    fields held. *)
Lemma driving_stress_point_written (m : IceModel) (i j : Z)
  (t : field R * field R) :
  stress_view (i, j) (snd (driving_stress_point m i j t))
  = if Rle_dec (rho (ice m) * standard_gravity * vH m i j) 0
    then (0, 0)
    else (- (rho (ice m) * standard_gravity * vH m i j)
          * fst (surface_gradient m i j),
          - (rho (ice m) * standard_gravity * vH m i j)
          * snd (surface_gradient m i j)).
Proof.
  destruct t as [tx ty]. unfold stress_view, driving_stress_point.
  destruct (Rle_dec _ _); simpl.
  - now rewrite !upd_same.
  - destruct (surface_gradient m i j) as [h_x h_y]. simpl.
    now rewrite !upd_same.
Qed.

(** X12.  At an owned point of positive pressure [p = rho g H] the procedure
    writes [(- p h_x, - p h_y)], with [(h_x, h_y)] the surface gradient
    of the point; the values it writes at owned points do not depend on
    what the output fields held; and it writes no other point. *)
Theorem driving_stress_is_written (m : IceModel) (vtaudx vtaudy : field R) :
  let r := snd (computeDrivingStress m (vtaudx, vtaudy)) in
  (forall i j,
      owned (grid m) i j ->
      0 < rho (ice m) * standard_gravity * vH m i j ->
      fst r i j = - (rho (ice m) * standard_gravity * vH m i j)
                  * fst (surface_gradient m i j) /\
      snd r i j = - (rho (ice m) * standard_gravity * vH m i j)
                  * snd (surface_gradient m i j)) /\
  (forall tx ty i j,
      owned (grid m) i j ->
      fst (snd (computeDrivingStress m (tx, ty))) i j = fst r i j /\
      snd (snd (computeDrivingStress m (tx, ty))) i j = snd r i j) /\
  (forall i j,
      ~ owned (grid m) i j ->
      fst r i j = vtaudx i j /\ snd r i j = vtaudy i j).
Proof.
  intros r. subst r.
  assert (Hval : forall tx ty i j,
             owned (grid m) i j ->
             stress_view (i, j) (snd (computeDrivingStress m (tx, ty)))
             = if Rle_dec (rho (ice m) * standard_gravity * vH m i j) 0
               then (0, 0)
               else (- (rho (ice m) * standard_gravity * vH m i j)
                     * fst (surface_gradient m i j),
                     - (rho (ice m) * standard_gravity * vH m i j)
                     * snd (surface_gradient m i j))).
  { intros tx ty i j Hown.
    destruct (computeDrivingStress_owned m (tx, ty) i j Hown) as [t0 Hv].
    rewrite Hv. apply driving_stress_point_written. }
  split; [ | split ].
  - intros i j Hown Hp.
    pose proof (Hval vtaudx vtaudy i j Hown) as Hv.
    destruct (Rle_dec _ _); [ lra | ].
    unfold stress_view in Hv; simpl in Hv. injection Hv as Hx Hy. auto.
  - intros tx ty i j Hown.
    pose proof (Hval vtaudx vtaudy i j Hown) as Hv.
    pose proof (Hval tx ty i j Hown) as Hv'.
    rewrite <- Hv in Hv'. unfold stress_view in Hv'; simpl in Hv'.
    injection Hv' as Hx Hy. auto.
  - intros i j Hnot.
    unfold computeDrivingStress. rewrite for_owned_points.
    assert (Hnin : ~ In (i, j) (owned_points (grid m))).
    { intros Hin. apply Hnot. now apply In_owned_points. }
    pose proof (for_each_frame (driving_stress_body m) stress_view
                  (driving_stress_body_local m) (i, j) _
                  (vtaudx, vtaudy) Hnin) as Hv.
    unfold stress_view in Hv; simpl in Hv. injection Hv as Hx Hy. auto.
Qed.

(** X13.  On grounded ice with the transformed gradient, where the thickness
    is the same on both sides of the point in each direction, the
    thickness contributes nothing and the surface gradient is the bed
    gradient. *)
Theorem transformed_gradient_on_even_thickness (m : IceModel) (i j : Z) :
  is_grounded (vMask m i j) = true ->
  transformForSurfaceGradient m = true ->
  vH m (i+1)%Z j = vH m (i-1)%Z j ->
  vH m i (j+1)%Z = vH m i (j-1)%Z ->
  surface_gradient m i j
  = (diff_x (grid m) (vbed m) i j, diff_y (grid m) (vbed m) i j).
Proof.
  intros Hg Ht Hx Hy. unfold surface_gradient. rewrite Hg, Ht, Hx, Hy.
  simpl. destruct (Rgt_dec _ _).
  - f_equal; unfold Rdiv; ring.
  - f_equal; ring.
Qed.

End DrivingStressFurther.

(** * Strain-rate invariants *)

(** X14.  The invariant of the compressed form [[u_x, v_y, (u_y + v_x)/2]] is
    the invariant of the four derivatives. *)
Theorem secondInvariantDu_2D_compressed (u_x u_y v_x v_y : R) :
  secondInvariantDu_2D
    (fun k => match k with
              | O => u_x
              | S O => v_y
              | _ => 0.5 * (u_y + v_x)
              end)
  = secondInvariant_2D u_x u_y v_x v_y.
Proof.
  unfold secondInvariantDu_2D, secondInvariant_2D. cbv beta iota.
  assert (Hhalf : 0.5 = / 2) by lra. assert (Htwo : 2.0 = 2) by lra.
  rewrite Hhalf, Htwo. field.
Qed.

(** X15.  The invariant is never negative; it vanishes exactly when there is no
    strain, [u_x = 0], [v_y = 0] and [u_y + v_x = 0]; and a rigid
    rotation, which adds [w] to [u_y] and takes it from [v_x], does not
    change it. *)
Theorem secondInvariant_2D_measures_strain (u_x u_y v_x v_y w : R) :
  0 <= secondInvariant_2D u_x u_y v_x v_y /\
  (secondInvariant_2D u_x u_y v_x v_y = 0 <->
   u_x = 0 /\ v_y = 0 /\ u_y + v_x = 0) /\
  secondInvariant_2D u_x (u_y + w) (v_x - w) v_y
  = secondInvariant_2D u_x u_y v_x v_y.
Proof.
  unfold secondInvariant_2D.
  rewrite !(Rmult_assoc 0.5 (_ + _) (_ + _)).
  assert (H1 : 0 <= u_x * u_x) by apply Rle_0_sqr.
  assert (H2 : 0 <= v_y * v_y) by apply Rle_0_sqr.
  assert (H3 : 0 <= (u_x + v_y) * (u_x + v_y)) by apply Rle_0_sqr.
  assert (H4 : 0 <= (u_y + v_x) * (u_y + v_x)) by apply Rle_0_sqr.
  split; [ lra | ]. split.
  - split.
    + intros Hz.
      assert (Hx : u_x * u_x = 0) by lra.
      assert (Hy : v_y * v_y = 0) by lra.
      assert (Hs : (u_y + v_x) * (u_y + v_x) = 0) by lra.
      apply Rmult_integral in Hx, Hy, Hs. repeat split; tauto.
    + intros (-> & -> & Hs). rewrite Hs. lra.
  - replace (u_y + w + (v_x - w)) with (u_y + v_x) by ring. reflexivity.
Qed.

(** * Interpolation *)

(** X16.  The interpolation is linear in the field; and when the four weights
    are non-negative and sum to one, it reproduces a constant field and
    stays between the smallest and the largest of the four values it
    combines. *)
Theorem interpolate_is_an_average (grid : InterpolationGrid)
  (f g : field R) (a b x y : R) :
  interpolate grid (fun i j => a * f i j + b * g i j) x y
  = a * interpolate grid f x y + b * interpolate grid g x y /\
  (let w := compute_interp_weights grid x y in
   w 0%nat + w 1%nat + w 2%nat + w 3%nat = 1 ->
   interpolate grid (fun _ _ => a) x y = a /\
   (0 <= w 0%nat -> 0 <= w 1%nat -> 0 <= w 2%nat -> 0 <= w 3%nat ->
    forall lo hi,
      (forall i j, lo <= f i j <= hi) ->
      lo <= interpolate grid f x y <= hi)).
Proof.
  unfold interpolate.
  destruct (compute_point_neighbors grid x y) as [[[il ir] jb] jt].
  split; [ ring | ]. cbv zeta.
  set (w := compute_interp_weights grid x y). intros Hsum. split.
  - replace (w 0%nat * a + w 1%nat * a + w 2%nat * a + w 3%nat * a)
      with ((w 0%nat + w 1%nat + w 2%nat + w 3%nat) * a) by ring.
    rewrite Hsum. ring.
  - intros H0 H1 H2 H3 lo hi Hf.
    pose proof (Hf il jb). pose proof (Hf ir jb).
    pose proof (Hf ir jt). pose proof (Hf il jt).
    split; nra.
Qed.

(** * Initialisation *)

Section SetGridFromOptionsProperties.

Context {Spacing : Type}.
Variable string_to_spacing : string -> Spacing.

(** X17.  Every grid the procedure accepts has at least 3 by 3 by 2 points and
    positive half-widths and height, and its numbers of points are the
    answers of the options [-Mx], [-My] and [-Mz]. *)
Theorem accepted_grid_is_valid (cl : CommandLine) (spacing : string)
  (g r : GridParameters Spacing) :
  set_grid_from_options string_to_spacing cl spacing g = inr r ->
  (3 <= grid_Mx r)%Z /\ (3 <= grid_My r)%Z /\ (2 <= grid_Mz r)%Z /\
  0 < grid_Lx r /\ 0 < grid_Ly r /\ 0 < grid_Lz r /\
  grid_Mx r = options_Integer cl "-Mx" (grid_Mx g) /\
  grid_My r = options_Integer cl "-My" (grid_My g) /\
  grid_Mz r = options_Integer cl "-Mz" (grid_Mz g).
Proof.
  unfold set_grid_from_options.
  assert (Hzero : 0.0 = 0) by lra. rewrite Hzero.
  assert (Hvalid : forall x0 y0 Lx Ly Lz,
    (if ((options_Integer cl "-Mx" (grid_Mx g) <? 3)
         || (options_Integer cl "-My" (grid_My g) <? 3)
         || (options_Integer cl "-Mz" (grid_Mz g) <? 2))%Z
     then inl (grid_size_is_invalid
                 (options_Integer cl "-Mx" (grid_Mx g))
                 (options_Integer cl "-My" (grid_My g))
                 (options_Integer cl "-Mz" (grid_Mz g)))
     else if Rle_dec Lx 0
          then inl (grid_extent_is_invalid (Lx / 1000.0) (Ly / 1000.0) Lz)
          else if Rle_dec Ly 0
               then inl (grid_extent_is_invalid (Lx / 1000.0) (Ly / 1000.0) Lz)
               else if Rle_dec Lz 0
                    then inl (grid_extent_is_invalid
                                (Lx / 1000.0) (Ly / 1000.0) Lz)
                    else inr {| grid_x0 := x0; grid_y0 := y0;
                                grid_Lx := Lx; grid_Ly := Ly; grid_Lz := Lz;
                                grid_Mx := options_Integer cl "-Mx" (grid_Mx g);
                                grid_My := options_Integer cl "-My" (grid_My g);
                                grid_Mz := options_Integer cl "-Mz" (grid_Mz g);
                                grid_spacing := string_to_spacing spacing |})
    = inr r ->
    (3 <= grid_Mx r)%Z /\ (3 <= grid_My r)%Z /\ (2 <= grid_Mz r)%Z /\
    0 < grid_Lx r /\ 0 < grid_Ly r /\ 0 < grid_Lz r /\
    grid_Mx r = options_Integer cl "-Mx" (grid_Mx g) /\
    grid_My r = options_Integer cl "-My" (grid_My g) /\
    grid_Mz r = options_Integer cl "-Mz" (grid_Mz g)).
  { intros x0 y0 Lx Ly Lz.
    destruct (_ || _ || _)%bool eqn:Hsize; [ discriminate | ].
    apply orb_false_iff in Hsize. destruct Hsize as [Hsize Hz].
    apply orb_false_iff in Hsize. destruct Hsize as [Hx Hy].
    apply Z.ltb_ge in Hx, Hy, Hz.
    destruct (Rle_dec Lx 0); [ discriminate | ].
    destruct (Rle_dec Ly 0); [ discriminate | ].
    destruct (Rle_dec Lz 0); [ discriminate | ].
    intros Heq. injection Heq as <-. simpl. repeat split; auto; lra. }
  destruct (options_RealList cl "-x_range") as [x_range | ];
    [ destruct (options_RealList cl "-y_range") as [y_range | ] | ];
    try apply Hvalid.
  destruct (negb _ || negb _)%bool; [ discriminate | apply Hvalid ].
Qed.

(** X18.  When [-x_range a,b] and [-y_range c,d] are both given, an accepted
    grid spans exactly these ranges, whatever [-Lx] and [-Ly] say and
    whatever the extent was; a range that is empty or reversed is
    refused; and a list that has not two entries is refused with
    "argument is invalid". *)
Theorem ranges_are_honoured (cl : CommandLine) (spacing : string)
  (g : GridParameters Spacing) (x_range y_range : list R) :
  options_RealList cl "-x_range" = Some x_range ->
  options_RealList cl "-y_range" = Some y_range ->
  ((length x_range <> 2%nat \/ length y_range <> 2%nat) ->
   set_grid_from_options string_to_spacing cl spacing g
   = inl range_argument_is_invalid) /\
  (forall a b c d,
      x_range = [a; b] -> y_range = [c; d] ->
      (forall r,
          set_grid_from_options string_to_spacing cl spacing g = inr r ->
          grid_x0 r - grid_Lx r = a /\ grid_x0 r + grid_Lx r = b /\
          grid_y0 r - grid_Ly r = c /\ grid_y0 r + grid_Ly r = d) /\
      (b <= a \/ d <= c ->
       exists e, set_grid_from_options string_to_spacing cl spacing g
                 = inl e)).
Proof.
  intros Hx Hy. unfold set_grid_from_options. rewrite Hx, Hy.
  assert (Hzero : 0.0 = 0) by lra. rewrite Hzero.
  split.
  - intros Hlen.
    destruct (negb _ || negb _)%bool eqn:Hsize; [ reflexivity | ].
    apply orb_false_iff in Hsize. destruct Hsize as [H1 H2].
    apply negb_false_iff in H1, H2. apply Nat.eqb_eq in H1, H2.
    destruct Hlen; contradiction.
  - intros a b c d -> ->.
    replace (negb (length [a; b] =? 2)%nat || negb (length [c; d] =? 2)%nat)%bool
      with false by reflexivity.
    cbn [nth].
    split.
    + intros r.
      destruct (_ || _ || _)%bool; [ discriminate | ].
      destruct (Rle_dec _ 0); [ discriminate | ].
      destruct (Rle_dec _ 0); [ discriminate | ].
      destruct (Rle_dec _ 0); [ discriminate | ].
      intros Heq. injection Heq as <-. simpl. repeat split; lra.
    + intros Hempty.
      destruct (_ || _ || _)%bool; [ eexists; reflexivity | ].
      destruct (Rle_dec ((b - a) / 2.0) 0);
        [ eexists; reflexivity | ].
      destruct (Rle_dec ((d - c) / 2.0) 0);
        [ eexists; reflexivity | ].
      lra.
Qed.

(** X19.  A range option given alone is ignored; and when the command line
    gives no option at all, so that every option answers with its
    default, a grid that is valid is passed on as it is. *)
Theorem grid_without_options (cl : CommandLine) (spacing : string)
  (g : GridParameters Spacing) :
  (options_RealList cl "-x_range" = None \/
   options_RealList cl "-y_range" = None ->
   set_grid_from_options string_to_spacing cl spacing g
   = set_grid_from_options string_to_spacing
       {| options_Real := options_Real cl;
          options_Integer := options_Integer cl;
          options_RealList := fun _ => None |} spacing g) /\
  ((forall name d, options_Real cl name d = d) ->
   (forall name d, options_Integer cl name d = d) ->
   (forall name, options_RealList cl name = None) ->
   (3 <= grid_Mx g)%Z -> (3 <= grid_My g)%Z -> (2 <= grid_Mz g)%Z ->
   0 < grid_Lx g -> 0 < grid_Ly g -> 0 < grid_Lz g ->
   set_grid_from_options string_to_spacing cl spacing g
   = inr {| grid_x0 := grid_x0 g; grid_y0 := grid_y0 g;
            grid_Lx := grid_Lx g; grid_Ly := grid_Ly g;
            grid_Lz := grid_Lz g;
            grid_Mx := grid_Mx g; grid_My := grid_My g;
            grid_Mz := grid_Mz g;
            grid_spacing := string_to_spacing spacing |}).
Proof.
  split.
  - intros Hnone. unfold set_grid_from_options; simpl.
    destruct Hnone as [-> | Hy]; [ reflexivity | ].
    rewrite Hy. destruct (options_RealList cl "-x_range"); reflexivity.
  - intros HR HI HL HMx HMy HMz HLx HLy HLz.
    unfold set_grid_from_options. rewrite !HL, !HR, !HI.
    apply Z.ltb_ge in HMx, HMy, HMz. rewrite HMx, HMy, HMz. simpl orb.
    cbv iota.
    assert (Ex : 1000.0 * (grid_Lx g / 1000.0) = grid_Lx g) by lra.
    assert (Ey : 1000.0 * (grid_Ly g / 1000.0) = grid_Ly g) by lra.
    rewrite Ex, Ey.
    destruct (Rle_dec (grid_Lx g) 0.0); [ lra | ].
    destruct (Rle_dec (grid_Ly g) 0.0); [ lra | ].
    destruct (Rle_dec (grid_Lz g) 0.0); [ lra | ].
    reflexivity.
Qed.

End SetGridFromOptionsProperties.

(** *** Allocation of the sub-models *)

Section AllocationProperties.

Context {SurfaceModel AtmosphereModel OceanModel : Type}.
Variable ps_create : SurfaceModel.
Variable pa_create : AtmosphereModel.
Variable po_create : OceanModel.

Implicit Types s t :
  @Submodels SurfaceModel AtmosphereModel OceanModel.

Local Open Scope string_scope.

Ltac string_cases :=
  repeat match goal with
         | |- context [String.eqb ?a ?b] => destruct (String.eqb_spec a b)
         | H : context [String.eqb ?a ?b] |- _ =>
           destruct (String.eqb_spec a b)
         end.


Lemma and_then_snd {S : Type} (c k : Throwing S) (x : S) :
  fst (c x) = None -> and_then c k x = k (snd (c x)).
Proof.
  unfold and_then. destruct (c x) as [[e|] y]; simpl;
    [ discriminate | reflexivity ].
Qed.

Lemma and_then_relates {S : Type} (R : S -> S -> Prop) (c k : Throwing S) :
  (forall x y z : S, R x y -> R y z -> R x z) ->
  (forall x : S, R x (snd (c x))) -> (forall x : S, R x (snd (k x))) ->
  forall x : S, R x (snd (and_then c k x)).
Proof.
  intros Ht Hc Hk x. unfold and_then.
  specialize (Hc x). destruct (c x) as [[e|] y]; simpl in *.
  - exact Hc.
  - exact (Ht _ _ _ Hc (Hk y)).
Qed.

Lemma keeps_allocated_refl s : keeps_allocated s s.
Proof. unfold keeps_allocated. repeat split; auto. Qed.

Lemma keeps_allocated_trans s t
  (u : @Submodels SurfaceModel AtmosphereModel OceanModel) :
  keeps_allocated s t -> keeps_allocated t u -> keeps_allocated s u.
Proof.
  unfold keeps_allocated.
  intros (A1 & A2 & A3 & A4 & A5 & A6 & A7 & A8 & A9)
         (B1 & B2 & B3 & B4 & B5 & B6 & B7 & B8 & B9).
  repeat split; auto.
  - destruct (A8 _ H) as [E _]. apply (B8 _ E).
  - destruct (A8 _ H) as [E F]. destruct (B8 _ E) as [_ G]. congruence.
  - destruct (A9 _ H) as [E _]. apply (B9 _ E).
  - destruct (A9 _ H) as [E F]. destruct (B9 _ E) as [_ G]. congruence.
Qed.

Ltac keeps_by_cases :=
  unfold keeps_allocated; simpl; repeat split; intros; congruence.

Lemma allocate_enthalpy_converter_keeps cfg s :
  keeps_allocated s (snd (allocate_enthalpy_converter cfg s)).
Proof.
  unfold allocate_enthalpy_converter.
  destruct (EC s) eqn:E; [ apply keeps_allocated_refl | ].
  destruct (use_linear_in_temperature_heat_capacity cfg); keeps_by_cases.
Qed.

Lemma allocate_iceberg_remover_keeps cfg s :
  keeps_allocated s (snd (allocate_iceberg_remover cfg s)).
Proof.
  unfold allocate_iceberg_remover.
  destruct (iceberg_remover s) eqn:E; [ apply keeps_allocated_refl | ].
  destruct (kill_icebergs cfg); [ keeps_by_cases | apply keeps_allocated_refl ].
Qed.

Lemma allocate_stressbalance_keeps cfg s :
  keeps_allocated s (snd (allocate_stressbalance cfg s)).
Proof.
  unfold allocate_stressbalance.
  destruct (stress_balance s) eqn:E; [ apply keeps_allocated_refl | ].
  destruct (choose_sliding cfg (EC s)); [ apply keeps_allocated_refl | ].
  destruct (choose_modifier cfg (EC s)); [ apply keeps_allocated_refl | ].
  keeps_by_cases.
Qed.

Lemma allocate_subglacial_hydrology_keeps cfg s :
  keeps_allocated s (snd (allocate_subglacial_hydrology cfg s)).
Proof.
  unfold allocate_subglacial_hydrology. cbv zeta.
  destruct (subglacial_hydrology s) eqn:E; [ apply keeps_allocated_refl | ].
  string_cases; try apply keeps_allocated_refl; keeps_by_cases.
Qed.

Lemma allocate_basal_yield_stress_keeps cfg s :
  keeps_allocated s (snd (allocate_basal_yield_stress cfg s)).
Proof.
  unfold allocate_basal_yield_stress. cbv zeta.
  destruct (basal_yield_stress_model s) eqn:E;
    [ apply keeps_allocated_refl | ].
  destruct (_ || _)%bool; [ | apply keeps_allocated_refl ].
  string_cases; try apply keeps_allocated_refl; keeps_by_cases.
Qed.

Lemma allocate_bedrock_thermal_unit_keeps s :
  keeps_allocated s (snd (allocate_bedrock_thermal_unit s)).
Proof.
  unfold allocate_bedrock_thermal_unit.
  destruct (btu s) eqn:E; [ apply keeps_allocated_refl | keeps_by_cases ].
Qed.

Lemma allocate_bed_deformation_keeps cfg s :
  keeps_allocated s (snd (allocate_bed_deformation cfg s)).
Proof.
  unfold allocate_bed_deformation. cbv zeta.
  destruct (beddef s) eqn:E; [ apply keeps_allocated_refl | ].
  string_cases; try apply keeps_allocated_refl; keeps_by_cases.
Qed.

Lemma allocate_couplers_keeps s :
  keeps_allocated s (snd (allocate_couplers ps_create pa_create po_create s)).
Proof.
  unfold allocate_couplers. cbv zeta.
  destruct (surface_model s) eqn:E; destruct (ocean_model s) eqn:F;
    simpl; rewrite ?F; simpl;
    try apply keeps_allocated_refl;
    unfold keeps_allocated; simpl; repeat split; intros; congruence.
Qed.

(** X20.  A pointer that is set on entry is never replaced, whether the
    allocation goes through or throws; and a boundary model given from
    outside keeps its [external] flag. *)
Theorem allocation_keeps_what_is_given cfg s :
  keeps_allocated s
    (snd (allocate_submodels ps_create pa_create po_create cfg s)).
Proof.
  unfold allocate_submodels.
  repeat (apply and_then_relates; [ exact keeps_allocated_trans | | ];
          [ first [ apply allocate_enthalpy_converter_keeps
                  | apply allocate_iceberg_remover_keeps
                  | apply allocate_stressbalance_keeps
                  | apply allocate_subglacial_hydrology_keeps
                  | apply allocate_basal_yield_stress_keeps
                  | apply allocate_bedrock_thermal_unit_keeps
                  | apply allocate_bed_deformation_keeps ] | ]; intros).
  apply allocate_couplers_keeps.
Qed.


(** The states an allocation can leave. *)
Lemma allocate_enthalpy_converter_run cfg s :
  fst (allocate_enthalpy_converter cfg s) = None
  /\ exists ec, snd (allocate_enthalpy_converter cfg s) = set_EC s (Some ec).
Proof.
  unfold allocate_enthalpy_converter.
  destruct (EC s) as [ec|] eqn:E.
  - split; [ reflexivity | ]. exists ec.
    destruct s; simpl in *; subst; reflexivity.
  - destruct (use_linear_in_temperature_heat_capacity cfg);
      (split; [ reflexivity | eexists; reflexivity ]).
Qed.

Lemma allocate_iceberg_remover_run cfg s :
  fst (allocate_iceberg_remover cfg s) = None
  /\ exists v,
       snd (allocate_iceberg_remover cfg s) = set_iceberg_remover s v.
Proof.
  unfold allocate_iceberg_remover.
  destruct (iceberg_remover s) as [x|] eqn:E.
  - split; [ reflexivity | ]. exists (Some x).
    destruct s; simpl in *; subst; reflexivity.
  - destruct (kill_icebergs cfg).
    + split; [ reflexivity | eexists; reflexivity ].
    + split; [ reflexivity | ]. exists None.
      destruct s; simpl in *; subst; reflexivity.
Qed.


Lemma choose_sliding_cases cfg ec sl :
  choose_sliding cfg ec = inr sl ->
  (sl = ZeroSliding ec <-> In (stress_balance_model cfg) ["none"; "sia"])
  /\ (sl = PrescribedSliding ec
      <-> In (stress_balance_model cfg)
             ["prescribed_sliding"; "prescribed_sliding+sia"])
  /\ (sl = SSAFEM ec
      <-> In (stress_balance_model cfg) ["ssa"; "ssa+sia"]
          /\ ssa_method cfg = "fem")
  /\ (sl = SSAFD ec
      <-> In (stress_balance_model cfg) ["ssa"; "ssa+sia"]
          /\ ssa_method cfg = "fd").
Proof.
  unfold choose_sliding. cbv zeta. simpl In.
  string_cases; simpl; intros H; inversion H; subst;
    repeat split; intros; try discriminate; try (intuition congruence).
Qed.

Lemma choose_modifier_cases cfg ec sl :
  choose_sliding cfg ec = inr sl ->
  exists md,
    choose_modifier cfg ec = inr md
    /\ (md = ConstantInColumn ec
        <-> In (stress_balance_model cfg)
               ["none"; "ssa"; "prescribed_sliding"])
    /\ (md = SIAFD ec
        <-> In (stress_balance_model cfg)
               ["sia"; "prescribed_sliding+sia"; "ssa+sia"]).
Proof.
  unfold choose_sliding, choose_modifier. cbv zeta. simpl In.
  string_cases; simpl; intros H; try discriminate;
    eexists; (split; [ reflexivity | ]);
    split; split; intros; try discriminate; try (intuition congruence).
Qed.



Lemma allocate_stressbalance_run cfg s :
  fst (allocate_stressbalance cfg s) = None ->
  exists sb,
    snd (allocate_stressbalance cfg s) = set_stress_balance s (Some sb)
    /\ (stress_balance s = None ->
        choose_sliding cfg (EC s) = inr (sliding sb)
        /\ choose_modifier cfg (EC s) = inr (modifier sb)).
Proof.
  unfold allocate_stressbalance.
  destruct (stress_balance s) as [sb|] eqn:E.
  - intros _. exists sb. split; [ | discriminate ].
    destruct s; simpl in *; subst; reflexivity.
  - destruct (choose_sliding cfg (EC s)) as [e|sl]; [ discriminate | ].
    destruct (choose_modifier cfg (EC s)) as [e|md]; [ discriminate | ].
    intros _. eexists. split; [ reflexivity | ]. intros _. split; reflexivity.
Qed.


Lemma allocate_subglacial_hydrology_run cfg s :
  fst (allocate_subglacial_hydrology cfg s) = None ->
  exists h,
    snd (allocate_subglacial_hydrology cfg s)
    = set_subglacial_hydrology s (Some h)
    /\ (subglacial_hydrology s = None ->
        forall sb, h = DistributedHydrology sb -> sb = stress_balance s).
Proof.
  unfold allocate_subglacial_hydrology. cbv zeta.
  destruct (subglacial_hydrology s) as [h|] eqn:E.
  - intros _. exists h. split; [ | discriminate ].
    destruct s; simpl in *; subst; reflexivity.
  - string_cases; simpl; intros H; try discriminate;
      (eexists; split; [ reflexivity | ]); intros _ sb Hsb;
      congruence.
Qed.


Lemma allocate_basal_yield_stress_run cfg s :
  exists v,
    snd (allocate_basal_yield_stress cfg s)
    = set_basal_yield_stress_model s v
    /\ (basal_yield_stress_model s = None ->
        forall h, v = Some (MohrCoulombYieldStress h) ->
                  h = subglacial_hydrology s).
Proof.
  unfold allocate_basal_yield_stress. cbv zeta.
  destruct (basal_yield_stress_model s) as [y|] eqn:E.
  - exists (Some y). split; [ | discriminate ].
    destruct s; simpl in *; subst; reflexivity.
  - destruct (_ || _)%bool.
    + string_cases; simpl;
        try (eexists; split; [ reflexivity | ]; intros _ h Hh; congruence).
      exists None. split; [ | discriminate ].
      destruct s; simpl in *; subst; reflexivity.
    + exists None. split; [ | discriminate ].
      destruct s; simpl in *; subst; reflexivity.
Qed.

Lemma allocate_bedrock_thermal_unit_run s :
  fst (allocate_bedrock_thermal_unit s) = None
  /\ exists b, snd (allocate_bedrock_thermal_unit s) = set_btu s (Some b).
Proof.
  unfold allocate_bedrock_thermal_unit.
  destruct (btu s) as [b|] eqn:E.
  - split; [ reflexivity | ]. exists b.
    destruct s; simpl in *; subst; reflexivity.
  - split; [ reflexivity | eexists; reflexivity ].
Qed.

Lemma allocate_bed_deformation_run cfg s :
  fst (allocate_bed_deformation cfg s) = None
  /\ exists v, snd (allocate_bed_deformation cfg s) = set_beddef s v.
Proof.
  unfold allocate_bed_deformation. cbv zeta.
  destruct (beddef s) as [b|] eqn:E.
  - split; [ reflexivity | ]. exists (Some b).
    destruct s; simpl in *; subst; reflexivity.
  - string_cases; simpl; (split; [ reflexivity | ]);
      try (eexists; reflexivity).
    exists None. destruct s; simpl in *; subst; reflexivity.
Qed.

Lemma allocate_couplers_run s :
  fst (allocate_couplers ps_create pa_create po_create s) = None
  /\ exists sm es om eo,
       snd (allocate_couplers ps_create pa_create po_create s)
       = {| EC := EC s; iceberg_remover := iceberg_remover s;
            stress_balance := stress_balance s;
            subglacial_hydrology := subglacial_hydrology s;
            basal_yield_stress_model := basal_yield_stress_model s;
            btu := btu s; beddef := beddef s;
            surface_model := Some sm; external_surface_model := es;
            ocean_model := Some om; external_ocean_model := eo |}.
Proof.
  unfold allocate_couplers. cbv zeta.
  destruct s as [a b c d e f g [sm|] es [om|] eo]; simpl;
    (split; [ reflexivity | ]); do 4 eexists; reflexivity.
Qed.

(** A second call of an allocation that went through returns at once. *)
Lemma allocate_enthalpy_converter_again cfg s t :
  EC t = EC (snd (allocate_enthalpy_converter cfg s)) ->
  allocate_enthalpy_converter cfg t = (None, t).
Proof.
  destruct (allocate_enthalpy_converter_run cfg s) as (_ & ec & ->).
  simpl. intros H. unfold allocate_enthalpy_converter. rewrite H.
  reflexivity.
Qed.

Lemma allocate_iceberg_remover_again cfg s t :
  iceberg_remover t = iceberg_remover (snd (allocate_iceberg_remover cfg s)) ->
  allocate_iceberg_remover cfg t = (None, t).
Proof.
  unfold allocate_iceberg_remover.
  destruct (iceberg_remover s) as [x|] eqn:E; simpl.
  - rewrite E. intros ->. reflexivity.
  - destruct (kill_icebergs cfg); simpl.
    + intros ->. reflexivity.
    + rewrite E. intros ->. reflexivity.
Qed.

Lemma allocate_stressbalance_again cfg s t :
  fst (allocate_stressbalance cfg s) = None ->
  stress_balance t = stress_balance (snd (allocate_stressbalance cfg s)) ->
  allocate_stressbalance cfg t = (None, t).
Proof.
  intros H. destruct (allocate_stressbalance_run cfg s H) as (sb & -> & _).
  simpl. intros Ht. unfold allocate_stressbalance. rewrite Ht. reflexivity.
Qed.

Lemma allocate_subglacial_hydrology_again cfg s t :
  fst (allocate_subglacial_hydrology cfg s) = None ->
  subglacial_hydrology t
  = subglacial_hydrology (snd (allocate_subglacial_hydrology cfg s)) ->
  allocate_subglacial_hydrology cfg t = (None, t).
Proof.
  intros H.
  destruct (allocate_subglacial_hydrology_run cfg s H) as (h & -> & _).
  simpl. intros Ht. unfold allocate_subglacial_hydrology. cbv zeta.
  rewrite Ht. reflexivity.
Qed.

Lemma allocate_basal_yield_stress_again cfg s t :
  fst (allocate_basal_yield_stress cfg s) = None ->
  basal_yield_stress_model t
  = basal_yield_stress_model (snd (allocate_basal_yield_stress cfg s)) ->
  allocate_basal_yield_stress cfg t = (None, t).
Proof.
  unfold allocate_basal_yield_stress. cbv zeta.
  destruct (basal_yield_stress_model s) as [y|] eqn:E; simpl.
  - rewrite E. intros _ ->. reflexivity.
  - destruct (_ || _)%bool eqn:Hm.
    + destruct (String.eqb (yield_stress_model cfg) "constant");
        [ simpl; intros _ ->; reflexivity | ].
      destruct (String.eqb (yield_stress_model cfg) "mohr_coulomb");
        [ simpl; intros _ ->; reflexivity | ].
      simpl. discriminate.
    + simpl. rewrite E. intros _ ->. reflexivity.
Qed.

Lemma allocate_bedrock_thermal_unit_again s t :
  btu t = btu (snd (allocate_bedrock_thermal_unit s)) ->
  allocate_bedrock_thermal_unit t = (None, t).
Proof.
  destruct (allocate_bedrock_thermal_unit_run s) as (_ & b & ->).
  simpl. intros H. unfold allocate_bedrock_thermal_unit. rewrite H.
  reflexivity.
Qed.

Lemma allocate_bed_deformation_again cfg s t :
  beddef t = beddef (snd (allocate_bed_deformation cfg s)) ->
  allocate_bed_deformation cfg t = (None, t).
Proof.
  unfold allocate_bed_deformation. cbv zeta.
  destruct (beddef s) as [b|] eqn:E; simpl.
  - rewrite E. intros ->. reflexivity.
  - destruct (String.eqb (bed_deformation_model cfg) "none"); simpl.
    + intros Ht. rewrite Ht. destruct t; simpl in *; subst; reflexivity.
    + destruct (String.eqb (bed_deformation_model cfg) "iso"); simpl;
        [ intros ->; reflexivity | ].
      destruct (String.eqb (bed_deformation_model cfg) "lc"); simpl;
        [ intros ->; reflexivity | ].
      rewrite E. intros ->. reflexivity.
Qed.

Lemma allocate_couplers_again s t :
  surface_model t
  = surface_model (snd (allocate_couplers ps_create pa_create po_create s)) ->
  ocean_model t
  = ocean_model (snd (allocate_couplers ps_create pa_create po_create s)) ->
  allocate_couplers ps_create pa_create po_create t = (None, t).
Proof.
  destruct (allocate_couplers_run s) as (_ & sm & es & om & eo & ->).
  simpl. intros Hs Ho. unfold allocate_couplers. cbv zeta.
  rewrite Hs, Ho. reflexivity.
Qed.


Lemma and_then_inv {S : Type} (c k : Throwing S) (x y : S) :
  and_then c k x = (None, y) ->
  fst (c x) = None /\ k (snd (c x)) = (None, y).
Proof.
  unfold and_then. destruct (c x) as [[e|] z]; simpl;
    [ discriminate | auto ].
Qed.



Lemma choose_sliding_in cfg ec sl :
  choose_sliding cfg ec = inr sl ->
  In sl [ZeroSliding ec; PrescribedSliding ec; SSAFEM ec; SSAFD ec].
Proof.
  unfold choose_sliding. cbv zeta.
  repeat match goal with
         | |- context [if ?c then _ else _] => destruct c
         end; intros H; inversion H; simpl; auto.
Qed.

Lemma choose_modifier_in cfg ec md :
  choose_modifier cfg ec = inr md -> In md [ConstantInColumn ec; SIAFD ec].
Proof.
  unfold choose_modifier. cbv zeta.
  repeat match goal with
         | |- context [if ?c then _ else _] => destruct c
         end; intros H; inversion H; simpl; auto.
Qed.

(** What a run of [allocate_submodels] that goes through leaves, and what
    a later run finds. *)
Lemma allocate_submodels_result cfg s s' :
  allocate_submodels ps_create pa_create po_create cfg s = (None, s') ->
  exists ec v2 sb h v5 b v7 sm es om eo,
    s' = {| EC := Some ec; iceberg_remover := v2;
            stress_balance := Some sb;
            subglacial_hydrology := Some h;
            basal_yield_stress_model := v5;
            btu := Some b; beddef := v7;
            surface_model := Some sm; external_surface_model := es;
            ocean_model := Some om; external_ocean_model := eo |}
    /\ (stress_balance s = None ->
        choose_sliding cfg (Some ec) = inr (sliding sb)
        /\ choose_modifier cfg (Some ec) = inr (modifier sb))
    /\ (subglacial_hydrology s = None ->
        forall x, h = DistributedHydrology x -> x = Some sb)
    /\ (basal_yield_stress_model s = None ->
        forall x, v5 = Some (MohrCoulombYieldStress x) -> x = Some h)
    /\ (surface_model s = None ->
        sm = (ps_create, Some pa_create) /\ es = false)
    /\ (ocean_model s = None -> om = po_create /\ eo = false)
    /\ (forall t,
          EC t = Some ec -> iceberg_remover t = v2 ->
          stress_balance t = Some sb -> subglacial_hydrology t = Some h ->
          basal_yield_stress_model t = v5 -> btu t = Some b ->
          beddef t = v7 -> surface_model t = Some sm ->
          ocean_model t = Some om ->
          allocate_submodels ps_create pa_create po_create cfg t
          = (None, t)).
Proof.
  intros H. unfold allocate_submodels in H.
  apply and_then_inv in H as [F1 H].
  pose proof (allocate_enthalpy_converter_again cfg s) as G1.
  destruct (allocate_enthalpy_converter_run cfg s) as (_ & ec & E1).
  rewrite E1 in H, G1. simpl in G1. clear F1 E1.
  apply and_then_inv in H as [F2 H].
  pose proof (allocate_iceberg_remover_again cfg (set_EC s (Some ec))) as G2.
  destruct (allocate_iceberg_remover_run cfg (set_EC s (Some ec)))
    as (_ & v2 & E2).
  rewrite E2 in H, G2. simpl in G2. clear F2 E2.
  apply and_then_inv in H as [F3 H].
  pose proof (fun t => allocate_stressbalance_again cfg _ t F3) as G3.
  destruct (allocate_stressbalance_run cfg _ F3) as (sb & E3 & W3).
  rewrite E3 in H, G3. simpl in G3, W3. clear F3 E3.
  apply and_then_inv in H as [F4 H].
  pose proof (fun t => allocate_subglacial_hydrology_again cfg _ t F4) as G4.
  destruct (allocate_subglacial_hydrology_run cfg _ F4) as (h & E4 & W4).
  rewrite E4 in H, G4. simpl in G4, W4. clear F4 E4.
  apply and_then_inv in H as [F5 H].
  pose proof (fun t => allocate_basal_yield_stress_again cfg _ t F5) as G5.
  match type of H with
  | context [allocate_basal_yield_stress cfg ?x] =>
    destruct (allocate_basal_yield_stress_run cfg x) as (v5 & E5 & W5)
  end.
  rewrite E5 in H, G5. simpl in G5, W5. clear F5 E5.
  apply and_then_inv in H as [F6 H].
  match type of H with
  | context [allocate_bedrock_thermal_unit ?x] =>
    pose proof (allocate_bedrock_thermal_unit_again x) as G6;
    destruct (allocate_bedrock_thermal_unit_run x) as (_ & b & E6)
  end.
  rewrite E6 in H, G6. simpl in G6. clear F6 E6.
  apply and_then_inv in H as [F7 H].
  match type of H with
  | context [allocate_bed_deformation cfg ?x] =>
    pose proof (allocate_bed_deformation_again cfg x) as G7;
    destruct (allocate_bed_deformation_run cfg x) as (_ & v7 & E7)
  end.
  rewrite E7 in H, G7. simpl in G7. clear F7 E7.
  match type of H with
  | allocate_couplers _ _ _ ?x = _ =>
    pose proof (allocate_couplers_again x) as G8;
    pose proof (allocate_couplers_run x) as (_ & sm & es & om & eo & E8);
    assert (W8 : surface_model s = None ->
                 sm = (ps_create, Some pa_create) /\ es = false);
    [ | assert (W9 : ocean_model s = None -> om = po_create /\ eo = false) ]
  end.
  { intros Hs. revert E8. unfold allocate_couplers. cbv zeta. simpl.
    rewrite Hs. simpl. destruct (ocean_model s); simpl; intros E8;
      inversion E8; auto. }
  { intros Ho. revert E8. unfold allocate_couplers. cbv zeta. simpl.
    destruct (surface_model s); simpl; rewrite Ho; simpl; intros E8;
      inversion E8; auto. }
  rewrite E8 in G8. rewrite H in E8. simpl in E8, G8.
  exists ec, v2, sb, h, v5, b, v7, sm, es, om, eo.
  split; [ exact E8 | ].
  split; [ exact W3 | ].
  split; [ exact W4 | ].
  split; [ exact W5 | ].
  split; [ exact W8 | ].
  split; [ exact W9 | ].
  intros t T1 T2 T3 T4 T5 T6 T7 T8 T9.
  unfold allocate_submodels.
  rewrite and_then_snd; rewrite (G1 t T1); [ | reflexivity ]. simpl snd.
  rewrite and_then_snd; rewrite (G2 t T2); [ | reflexivity ]. simpl snd.
  rewrite and_then_snd; rewrite (G3 t T3); [ | reflexivity ]. simpl snd.
  rewrite and_then_snd; rewrite (G4 t T4); [ | reflexivity ]. simpl snd.
  rewrite and_then_snd; rewrite (G5 t T5); [ | reflexivity ]. simpl snd.
  rewrite and_then_snd; rewrite (G6 t T6); [ | reflexivity ]. simpl snd.
  rewrite and_then_snd; rewrite (G7 t T7); [ | reflexivity ]. simpl snd.
  apply G8; assumption.
Qed.



(** X22.  After an allocation that went through, the enthalpy converter,
    the stress balance, the hydrology, the bedrock thermal unit and the
    two boundary models are set. *)
Theorem allocated_pointers_are_set cfg s s' :
  allocate_submodels ps_create pa_create po_create cfg s = (None, s') ->
  EC s' <> None /\ stress_balance s' <> None
  /\ subglacial_hydrology s' <> None /\ btu s' <> None
  /\ surface_model s' <> None /\ ocean_model s' <> None.
Proof.
  intros H.
  destruct (allocate_submodels_result cfg s s' H)
    as (ec & v2 & sb & h & v5 & b & v7 & sm & es & om & eo & -> & _).
  simpl. repeat split; discriminate.
Qed.

(** X23.  The objects the allocation creates hold the objects of this very
    model: the two parts of the stress balance the enthalpy converter, a
    distributed hydrology the stress balance, and a Mohr-Coulomb yield
    stress the hydrology; and none of the three is a null pointer. *)
Theorem allocated_objects_are_wired cfg s s' :
  allocate_submodels ps_create pa_create po_create cfg s = (None, s') ->
  (stress_balance s = None ->
   exists sb,
     stress_balance s' = Some sb
     /\ In (sliding sb)
           [ZeroSliding (EC s'); PrescribedSliding (EC s');
            SSAFEM (EC s'); SSAFD (EC s')]
     /\ In (modifier sb) [ConstantInColumn (EC s'); SIAFD (EC s')])
  /\ (subglacial_hydrology s = None ->
      forall sb, subglacial_hydrology s' = Some (DistributedHydrology sb) ->
                 sb = stress_balance s')
  /\ (basal_yield_stress_model s = None ->
      forall h,
        basal_yield_stress_model s' = Some (MohrCoulombYieldStress h) ->
        h = subglacial_hydrology s')
  /\ EC s' <> None /\ stress_balance s' <> None
  /\ subglacial_hydrology s' <> None.
Proof.
  intros H.
  destruct (allocate_submodels_result cfg s s' H)
    as (ec & v2 & sb & h & v5 & b & v7 & sm & es & om & eo & -> & W3 & W4
        & W5 & _).
  simpl. split; [ | split; [ | split ] ].
  - intros Hs. destruct (W3 Hs) as [Hsl Hmd]. exists sb.
    split; [ reflexivity | ].
    split; [ exact (choose_sliding_in _ _ _ Hsl)
           | exact (choose_modifier_in _ _ _ Hmd) ].
  - intros Hh x Hx. apply (W4 Hh). congruence.
  - intros Hy x Hx. apply (W5 Hy). exact Hx.
  - repeat split; discriminate.
Qed.

(** X24.  Which stress balance is built, from a model without one: the
    sliding part and the modifier by the name of the model, the SIA
    modifier exactly for "sia", "prescribed_sliding+sia" and "ssa+sia",
    although its test holds for every name; both parts hold the
    converter the model has at the call. *)
Theorem stress_balance_choice cfg s s' :
  stress_balance s = None ->
  allocate_stressbalance cfg s = (None, s') ->
  exists sb,
    stress_balance s' = Some sb
    /\ (sliding sb = ZeroSliding (EC s)
        <-> In (stress_balance_model cfg) ["none"; "sia"])
    /\ (sliding sb = PrescribedSliding (EC s)
        <-> In (stress_balance_model cfg)
               ["prescribed_sliding"; "prescribed_sliding+sia"])
    /\ (sliding sb = SSAFEM (EC s)
        <-> In (stress_balance_model cfg) ["ssa"; "ssa+sia"]
            /\ ssa_method cfg = "fem")
    /\ (sliding sb = SSAFD (EC s)
        <-> In (stress_balance_model cfg) ["ssa"; "ssa+sia"]
            /\ ssa_method cfg = "fd")
    /\ (modifier sb = ConstantInColumn (EC s)
        <-> In (stress_balance_model cfg)
               ["none"; "ssa"; "prescribed_sliding"])
    /\ (modifier sb = SIAFD (EC s)
        <-> In (stress_balance_model cfg)
               ["sia"; "prescribed_sliding+sia"; "ssa+sia"]).
Proof.
  intros Hs H.
  assert (F : fst (allocate_stressbalance cfg s) = None)
    by (rewrite H; reflexivity).
  destruct (allocate_stressbalance_run cfg s F) as (sb & E & W).
  rewrite H in E. simpl in E. subst s'.
  destruct (W Hs) as [Hsl Hmd].
  exists sb. split; [ reflexivity | ].
  destruct (choose_sliding_cases cfg (EC s) _ Hsl) as (C1 & C2 & C3 & C4).
  destruct (choose_modifier_cases cfg (EC s) _ Hsl) as (md & E & C5 & C6).
  rewrite Hmd in E. inversion E; subst md.
  repeat split; tauto.
Qed.

(** X25.  A second allocation, after one that went through, goes through
    and changes nothing. *)
Theorem allocation_twice cfg s s' :
  allocate_submodels ps_create pa_create po_create cfg s = (None, s') ->
  allocate_submodels ps_create pa_create po_create cfg s' = (None, s').
Proof.
  intros H.
  destruct (allocate_submodels_result cfg s s' H)
    as (ec & v2 & sb & h & v5 & b & v7 & sm & es & om & eo & -> & _ & _ & _
        & _ & _ & G).
  apply G; reflexivity.
Qed.

(** X26.  The allocation of the bed deformation model never throws; the model
    is set afterwards exactly when it was set before or the name is
    "iso" or "lc": any other name is taken as "none". *)
Theorem bed_deformation_choice cfg s :
  fst (allocate_bed_deformation cfg s) = None
  /\ (beddef (snd (allocate_bed_deformation cfg s)) <> None
      <-> beddef s <> None \/ In (bed_deformation_model cfg) ["iso"; "lc"]).
Proof.
  unfold allocate_bed_deformation. cbv zeta. simpl In.
  destruct (beddef s) as [b|] eqn:E.
  - simpl. rewrite E. split; [ reflexivity | ].
    split; [ intros _; left; discriminate | discriminate ].
  - string_cases; simpl; rewrite ?E; (split; [ reflexivity | ]);
      split; intros H; try discriminate; try (intuition congruence).
Qed.

(** X27.  A boundary model that is missing is created by the factory and
    marked as not external; the surface model gets the atmosphere model
    the factory creates. *)
Theorem created_boundary_models_are_owned cfg s s' :
  allocate_submodels ps_create pa_create po_create cfg s = (None, s') ->
  (surface_model s = None ->
   surface_model s' = Some (ps_create, Some pa_create)
   /\ external_surface_model s' = false)
  /\ (ocean_model s = None ->
      ocean_model s' = Some po_create /\ external_ocean_model s' = false).
Proof.
  intros H.
  destruct (allocate_submodels_result cfg s s' H)
    as (ec & v2 & sb & h & v5 & b & v7 & sm & es & om & eo & -> & _ & _ & _
        & W8 & W9 & _).
  simpl. split.
  - intros Hs. destruct (W8 Hs) as [-> ->]. auto.
  - intros Ho. destruct (W9 Ho) as [-> ->]. auto.
Qed.

End AllocationProperties.

(** *** The first step of the boundary models *)

Lemma min_element_le (l : list R) (x : R) :
  min_element x l <= x /\ forall y, In y l -> min_element x l <= y.
Proof.
  revert x. induction l as [|z l IH]; intros x; simpl.
  - split; [ lra | tauto ].
  - destruct (IH (if Rlt_dec z x then z else x)) as [H1 H2].
    destruct (Rlt_dec z x).
    + split; [ lra | ]. intros y [<- | Hy]; [ lra | auto ].
    + split; [ lra | ]. intros y [<- | Hy]; [ lra | auto ].
Qed.

Lemma min_element_in (l : list R) (x : R) : In (min_element x l) (x :: l).
Proof.
  revert x. induction l as [|z l IH]; intros x; simpl.
  - auto.
  - destruct (IH (if Rlt_dec z x then z else x)) as [H | H].
    + destruct (Rlt_dec z x); [ right; left | left ]; exact H.
    + right; right; exact H.
Qed.

Section InitStepCouplersProperties.

Context {SurfaceModel OceanModel : Type}.
Variable increment_date : R -> R -> R.
Variable surface_max_timestep : SurfaceModel -> R -> R -> bool -> R * bool.
Variable ocean_max_timestep : OceanModel -> R -> R -> bool -> R * bool.
Variable surface_update : R -> R -> SurfaceModel -> SurfaceModel.
Variable ocean_update : R -> R -> OceanModel -> OceanModel.

(** X28.  Both boundary models are updated from the current time over one
    and the same step.  The step is never shorter than 1; when longer,
    it respects the year and every restriction a boundary model asks
    for; and it is 1, the year or one of these restrictions: a
    restriction below 1 is overridden. *)
Theorem first_step_length (current_time : R) (surface : SurfaceModel)
  (ocean : OceanModel) :
  let apcc := surface_max_timestep surface current_time 0 false in
  let opcc := ocean_max_timestep ocean current_time 0 (snd apcc) in
  exists max_dt,
    init_step_couplers increment_date surface_max_timestep
      ocean_max_timestep surface_update ocean_update current_time
      (surface, ocean)
    = (surface_update current_time max_dt surface,
       ocean_update current_time max_dt ocean)
    /\ 1 <= max_dt
    /\ (1 < max_dt ->
        max_dt <= increment_date current_time 1 - current_time
        /\ (snd apcc = true -> max_dt <= fst apcc)
        /\ (snd opcc = true -> max_dt <= fst opcc))
    /\ (max_dt = 1
        \/ max_dt = increment_date current_time 1 - current_time
        \/ (snd apcc = true /\ max_dt = fst apcc)
        \/ (snd opcc = true /\ max_dt = fst opcc)).
Proof.
  cbv zeta. unfold init_step_couplers. simpl fst. simpl snd.
  eexists. split; [ reflexivity | ].
  unfold init_step_max_dt.
  assert (E0 : 0.0 = 0) by lra. assert (E1 : 1.0 = 1) by lra.
  rewrite E0, E1.
  destruct (surface_max_timestep surface current_time 0 false)
    as [apcc_dt ra]; simpl fst; simpl snd.
  destruct (ocean_max_timestep ocean current_time 0 ra) as [opcc_dt ro];
    simpl fst; simpl snd.
  set (y := increment_date current_time 1 - current_time).
  destruct ra, ro; simpl app; cbv iota;
    match goal with
    | |- context [min_element ?x ?l] =>
      destruct (min_element_le l x) as [L1 L2];
      pose proof (min_element_in l x) as L3;
      destruct (Rlt_dec (min_element x l) 1)
    end; simpl in L2, L3;
    (split; [ lra | ]);
    (split; [ intros Hlt; try lra;
              repeat split; intros; try discriminate; auto;
              apply L2; auto
            | ]);
    intuition auto.
Qed.

End InitStepCouplersProperties.

(** ** Examples *)

Lemma example_owned : owned example_grid 0%Z 0%Z.
Proof. unfold owned; simpl. lia. Qed.

Lemma example_update_ok (cfg : NCConfigVariable) (H bed mb : R)
  (mask : PismMask) :
  0 <= H ->
  fst (updateSurfaceElevationAndMask (ext := example_externals)
         (example_model cfg H bed mb mask)) = PETSC_OK.
Proof.
  intros HH.
  apply (update_ok_nonnegative (example_model cfg H bed mb mask)
           example_ocean eq_refl).
  intros i j _. exact HH.
Qed.

(** The floating scenario of the specification: [H = 50], bed at [-500],
    sea level [0], density ratio [0.92]; the surface is [4] and the point
    stays FLOATING. *)
Lemma flotation_hysteresis_witness :
  let m := example_model example_config 50 (-500) 0 MASK_FLOATING in
  vh (snd (updateSurfaceElevationAndMask (ext := example_externals) m)) 0%Z 0%Z
  = 4 /\
  vMask (snd (updateSurfaceElevationAndMask (ext := example_externals) m)) 0%Z 0%Z
  = MASK_FLOATING.
Proof.
  intros m.
  assert (Hok : fst (updateSurfaceElevationAndMask
                       (ext := example_externals) m) = PETSC_OK).
  { apply example_update_ok. lra. }
  assert (Hne : vMask m 0%Z 0%Z <> MASK_OCEAN_AT_TIME_0) by discriminate.
  destruct (flotation_hysteresis (ext := example_externals) m example_ocean
              0%Z 0%Z eq_refl example_owned Hok eq_refl Hne) as [Hfl _].
  destruct (Hfl eq_refl) as [_ Hstay].
  destruct Hstay as [Hh HM].
  { simpl. unfold currentSeaLevel. simpl. lra. }
  split; [ | exact HM ].
  rewrite Hh. simpl. unfold currentSeaLevel. simpl. lra.
Defined.

Lemma example_when_visited (sl : R) (cfg : NCConfigVariable) (H bed mb : R)
  (mask : PismMask) :
  when_visited (ext := example_externals) sl
    (example_model cfg H bed mb mask) 0%Z 0%Z
  = example_model cfg H bed mb mask.
Proof. reflexivity. Qed.

(** A floating point of thickness 100 on a bed at 0 grounds; with SSA
    velocities and no plastic till it is marked UNKNOWN, and its eight
    floating neighbours, of code 3 each, make it DRAGGING_SHEET. *)
Lemma unknown_resolved_by_vote_witness :
  let m := example_model example_ssa_config 100 0 0 MASK_FLOATING in
  vMask (snd (updateSurfaceElevationAndMask (ext := example_externals) m))
        0%Z 0%Z
  = MASK_DRAGGING_SHEET.
Proof.
  intros m.
  assert (Hok : fst (updateSurfaceElevationAndMask
                       (ext := example_externals) m) = PETSC_OK).
  { apply example_update_ok. lra. }
  destruct (unknown_resolved_by_vote (ext := example_externals) m
              example_ocean eq_refl) as [Hvote _].
  destruct (Hvote 0%Z 0%Z example_owned Hok eq_refl eq_refl) as (_ & HM & _).
  - simpl. unfold currentSeaLevel. simpl. lra.
  - reflexivity.
  - reflexivity.
  - rewrite HM. unfold m. rewrite example_when_visited. reflexivity.
Defined.

(** Sliding to the west at 100 per unit of time over cells 1000 wide,
    between thicknesses 100 at the point and 110 at its eastern
    neighbour, the upstream one: the divergence is [-1] and the new
    thickness 101. *)
Lemma sliding_divergence_is_upwinded_witness :
  vH (snd (massContExplicitStep (ext := example_externals)
             (example_sliding_model (-100) 0))) 0%Z 0%Z
  = 101.
Proof.
  destruct (sliding_divergence_is_upwinded (ext := example_externals)
              (example_sliding_model (-100) 0) (example_surface 0)
              example_ocean 0%Z 0%Z eq_refl eq_refl example_owned)
    as [H _].
  rewrite H. unfold divQ_SIA. simpl.
  destruct (Rlt_dec (-100) 0); [ | lra ].
  destruct (Rlt_dec 0 0); [ lra | ].
  match goal with
  | |- (if Rlt_dec ?x 0 then _ else _) = _ =>
    destruct (Rlt_dec x 0); lra
  end.
Defined.

(** A negative thickness at the owned point stops the call with the
    indices of the point. *)
Lemma negative_thickness_is_fatal_witness :
  let m := example_model example_config (-1) 0 0 MASK_SHEET in
  fst (updateSurfaceElevationAndMask (ext := example_externals) m)
  = SETERRQ 1 (Thickness_negative_at_point 0 0) /\
  vH (snd (updateSurfaceElevationAndMask (ext := example_externals) m)) = vH m.
Proof.
  intros m.
  destruct (negative_thickness_is_fatal (ext := example_externals) m
              example_ocean eq_refl) as (Hneg & _ & Hkeep).
  split; [ | exact Hkeep ].
  destruct Hneg as (i & j & Hown & _ & Herr).
  - exists 0%Z, 0%Z. split; [ exact example_owned | simpl; lra ].
  - unfold owned in Hown; simpl in Hown.
    assert (i = 0%Z) by lia. assert (j = 0%Z) by lia. subst i j.
    exact Herr.
Defined.

(** The floating scenario again: the surface is at most one unit below
    the larger of the grounded and floating elevations. *)
Lemma surface_within_margin_of_flotation_witness :
  let m := example_model example_config 50 (-500) 0 MASK_FLOATING in
  vh (snd (updateSurfaceElevationAndMask (ext := example_externals) m))
     0%Z 0%Z
  >= Rmax (-500 + 50) (0 + (1 - 920 / 1000) * 50) - 1.
Proof.
  intros m.
  apply (surface_within_margin_of_flotation (ext := example_externals) m
           example_ocean 0%Z 0%Z eq_refl).
  - intros i j _. simpl. lra.
  - exact example_owned.
  - reflexivity.
  - discriminate.
Defined.

(** C2 fails in a dry run and at an OCEAN_AT_TIME_0 point.  Dry, with
    [H = 50] on a bed at [-500]: [h = -450], below [max (-450) 4 - 1].
    Wet, OCEAN_AT_TIME_0, without ice on a bed at [100]: [h = 0], below
    [max 100 0 - 1]. *)
Lemma surface_below_margin_dry_or_ocean :
  (let m := example_model example_dry_config 50 (-500) 0 MASK_SHEET in
   let m' := snd (updateSurfaceElevationAndMask (ext := example_externals) m) in
   (forall i j, owned (grid m) i j -> 0 <= vH m i j) /\
   fst (updateSurfaceElevationAndMask (ext := example_externals) m)
   = PETSC_OK /\
   ~ vh m' 0%Z 0%Z
     >= Rmax (vbed m 0%Z 0%Z + vH m 0%Z 0%Z)
             (currentSeaLevel (ext := example_externals) m example_ocean
              + (1 - rho (ice m) / sea_water_density (config m))
                * vH m 0%Z 0%Z)
        - 1) /\
  (let m := example_model example_config 0 100 0 MASK_OCEAN_AT_TIME_0 in
   let m' := snd (updateSurfaceElevationAndMask (ext := example_externals) m) in
   (forall i j, owned (grid m) i j -> 0 <= vH m i j) /\
   fst (updateSurfaceElevationAndMask (ext := example_externals) m)
   = PETSC_OK /\
   ~ vh m' 0%Z 0%Z
     >= Rmax (vbed m 0%Z 0%Z + vH m 0%Z 0%Z)
             (currentSeaLevel (ext := example_externals) m example_ocean
              + (1 - rho (ice m) / sea_water_density (config m))
                * vH m 0%Z 0%Z)
        - 1).
Proof.
  split; intros m m'; subst m'.
  - assert (Hok : fst (updateSurfaceElevationAndMask
                         (ext := example_externals) m) = PETSC_OK).
    { apply example_update_ok. lra. }
    split; [ intros i j _; simpl; lra | ]. split; [ exact Hok | ].
    destruct (update_dry (ext := example_externals) m example_ocean 0%Z 0%Z
                eq_refl example_owned Hok eq_refl) as [-> _].
    unfold currentSeaLevel; simpl. unfold Rmax.
    destruct (Rle_dec _ _); lra.
  - assert (Hok : fst (updateSurfaceElevationAndMask
                         (ext := example_externals) m) = PETSC_OK).
    { apply example_update_ok. lra. }
    split; [ intros i j _; simpl; lra | ]. split; [ exact Hok | ].
    destruct (update_ocean_at_time_0 (ext := example_externals) m
                example_ocean 0%Z 0%Z eq_refl example_owned Hok eq_refl
                eq_refl) as [-> _].
    unfold currentSeaLevel; simpl. unfold Rmax.
    destruct (Rle_dec _ _); lra.
Qed.

(** C9 fails in a dry run: an OCEAN_AT_TIME_0 point without ice on a bed
    at [100] gets [h = bed + H = 100], not the floating elevation [0]. *)
Lemma dry_ocean_surface_is_grounded :
  let m := example_model example_dry_config 0 100 0 MASK_OCEAN_AT_TIME_0 in
  let m' := snd (updateSurfaceElevationAndMask (ext := example_externals) m) in
  vMask m 0%Z 0%Z = MASK_OCEAN_AT_TIME_0 /\
  owned (grid m) 0%Z 0%Z /\
  fst (updateSurfaceElevationAndMask (ext := example_externals) m)
  = PETSC_OK /\
  vh m' 0%Z 0%Z
  <> currentSeaLevel (ext := example_externals) m example_ocean
     + (1 - rho (ice m) / sea_water_density (config m)) * vH m 0%Z 0%Z.
Proof.
  intros m m'. subst m'.
  assert (Hok : fst (updateSurfaceElevationAndMask
                       (ext := example_externals) m) = PETSC_OK).
  { apply example_update_ok. lra. }
  split; [ reflexivity | ]. split; [ exact example_owned | ].
  split; [ exact Hok | ].
  destruct (update_dry (ext := example_externals) m example_ocean 0%Z 0%Z
              eq_refl example_owned Hok eq_refl) as [-> _].
  unfold currentSeaLevel; simpl. lra.
Qed.

(** In a wet run the same point keeps its mask through the update and the
    continuity step, and its surface is the floating elevation [0]. *)
Lemma ocean_at_time_0_persists_witness :
  let m := example_model example_config 0 100 0 MASK_OCEAN_AT_TIME_0 in
  let m1 := snd (updateSurfaceElevationAndMask (ext := example_externals) m) in
  let m2 := snd (massContExplicitStep (ext := example_externals) m1) in
  vMask m2 0%Z 0%Z = MASK_OCEAN_AT_TIME_0 /\ vh m1 0%Z 0%Z = 0.
Proof.
  intros m m1 m2.
  destruct (ocean_at_time_0_persists (ext := example_externals) m 0%Z 0%Z
              eq_refl) as [Hmask Hh].
  split.
  - apply Hmask.
    apply (run_step m m1 m2); [ apply step_updateSurfaceElevationAndMask | ].
    apply (run_step m1 m2 m2); [ apply step_massContExplicitStep | ].
    apply run_done.
  - unfold m1. rewrite (Hh example_ocean eq_refl example_owned).
    + unfold currentSeaLevel; simpl. lra.
    + apply example_update_ok. lra.
    + reflexivity.
Defined.

(** The grounded scenario of the specification: thickness 100, mass
    balance 0.01 over a step of 1. *)
Lemma new_thickness_is_nonnegative_witness :
  let m := example_model example_config 100 0 (1 / 100) MASK_SHEET in
  0 <= vH (snd (massContExplicitStep (ext := example_externals) m)) 0%Z 0%Z.
Proof.
  intros m.
  destruct (new_thickness_is_nonnegative (ext := example_externals) m)
    as [Hret Hpos].
  apply Hpos; [ | exact example_owned ].
  apply Hret. split; discriminate.
Defined.

(** The same scenario gives [H' = 100.01]; and without mass balance the
    thickness stays 100. *)
Lemma mass_balance_only_witness :
  vH (snd (massContExplicitStep (ext := example_externals)
             (example_model example_config 100 0 (1 / 100) MASK_SHEET)))
     0%Z 0%Z = 100 + 1 / 100 /\
  vH (snd (massContExplicitStep (ext := example_externals)
             (example_model example_config 100 0 0 MASK_SHEET)))
     0%Z 0%Z = 100.
Proof.
  split.
  - destruct (mass_balance_only (ext := example_externals)
                (example_model example_config 100 0 (1 / 100) MASK_SHEET)
                (example_surface (1 / 100)) example_ocean (1 / 100)
                eq_refl eq_refl
                (fun _ _ => eq_refl) (fun _ _ => eq_refl)
                (or_intror (fun _ _ => conj eq_refl eq_refl))
                eq_refl eq_refl eq_refl (fun _ _ => eq_refl))
      as (_ & Hpt & _).
    rewrite (Hpt 0%Z 0%Z example_owned). simpl. unfold Rmax.
    destruct (Rle_dec _ _); lra.
  - destruct (mass_balance_only (ext := example_externals)
                (example_model example_config 100 0 0 MASK_SHEET)
                (example_surface 0) example_ocean 0
                eq_refl eq_refl
                (fun _ _ => eq_refl) (fun _ _ => eq_refl)
                (or_intror (fun _ _ => conj eq_refl eq_refl))
                eq_refl eq_refl eq_refl (fun _ _ => eq_refl))
      as (_ & _ & Hsame).
    rewrite (Hsame eq_refl); [ reflexivity | ].
    intros _. simpl. lra.
Defined.

(** Without ice the driving stress is written as zero over whatever the
    output fields held. *)
Lemma driving_stress_vanishes_witness :
  let m := example_model example_config 0 100 0 MASK_SHEET in
  let r := computeDrivingStress (ext := example_externals) m
             (fun _ _ => 1, fun _ _ => 1) in
  fst (snd r) 0%Z 0%Z = 0 /\ snd (snd r) 0%Z 0%Z = 0.
Proof.
  intros m r. subst r.
  destruct (driving_stress_vanishes (ext := example_externals) m
              (fun _ _ => 1) (fun _ _ => 1)) as (_ & _ & Hzero).
  apply Hzero; [ exact example_owned | reflexivity ].
Defined.

(** With the year of 31556926 seconds: the factor is 1 only at rest, and
    between thicknesses of 100 every face thickness lies in [0, 100]. *)
Lemma superposition_factor_bounds_witness :
  let m := example_model example_superpose_config 100 0 0
             MASK_DRAGGING_SHEET in
  let st := staggered_thickness (ext := example_externals) m 0%Z 0%Z in
  0 < fofv (ext := example_externals) 1 2 <= 1 /\
  fofv (ext := example_externals) 1 2 <> 1 /\
  0 <= He st <= 100.
Proof.
  intros m st. subst st.
  destruct (superposition_factor_bounds (ext := example_externals) m
              0%Z 0%Z 1 2) as (Hrange & _ & Hone & Hfaces).
  split; [ exact Hrange | ]. split.
  - intros Hf. apply Hone in Hf; [ | simpl; lra ]. lra.
  - destruct Hfaces as (Hhe & _); [ intros i j; simpl; lra | ].
    simpl in Hhe |- *. lra.
Defined.

(** ** Further examples *)

(** The floating scenario once more: the point is FLOATING on the
    floating surface, one of the three cases. *)
Lemma mask_agrees_with_surface_witness :
  let m := example_model example_config 50 (-500) 0 MASK_FLOATING in
  let m' := snd (updateSurfaceElevationAndMask (ext := example_externals) m) in
  (vMask m' 0%Z 0%Z = MASK_OCEAN_AT_TIME_0 /\ vh m' 0%Z 0%Z = 4) \/
  (vMask m' 0%Z 0%Z = MASK_FLOATING /\ vh m' 0%Z 0%Z = 4 /\ -450 <= 4 + 1) \/
  (is_grounded (vMask m' 0%Z 0%Z) = true /\ vh m' 0%Z 0%Z = -450
   /\ -450 > 4 - 1).
Proof.
  intros m m'. subst m'.
  assert (Hok : fst (updateSurfaceElevationAndMask
                       (ext := example_externals) m) = PETSC_OK).
  { apply example_update_ok. lra. }
  pose proof (mask_agrees_with_surface (ext := example_externals) m
                example_ocean 0%Z 0%Z eq_refl example_owned Hok eq_refl)
    as H.
  cbv zeta in H. unfold currentSeaLevel in H. simpl in H.
  replace (0 + (1 - 920 / 1000) * 50) with 4 in H by lra.
  replace (-500 + 50) with (-450) in H by lra.
  exact H.
Defined.

(** A second call on the model the floating scenario leaves. *)
Lemma update_twice_witness :
  let m := example_model example_config 50 (-500) 0 MASK_FLOATING in
  let m1 := snd (updateSurfaceElevationAndMask (ext := example_externals) m) in
  let m2 := snd (updateSurfaceElevationAndMask (ext := example_externals) m1) in
  vh m2 0%Z 0%Z = vh m1 0%Z 0%Z /\ vMask m2 0%Z 0%Z = vMask m1 0%Z 0%Z.
Proof.
  intros m m1 m2. subst m1 m2.
  assert (Hok : fst (updateSurfaceElevationAndMask
                       (ext := example_externals) m) = PETSC_OK).
  { apply example_update_ok. lra. }
  destruct (update_twice (ext := example_externals) m
              (snd (updateSurfaceElevationAndMask
                      (ext := example_externals) m))
              example_ocean eq_refl Hok) as [_ H].
  - rewrite (updateSurfaceElevationAndMask_loop (ext := example_externals)
               m example_ocean eq_refl).
    apply update_loop_inputs.
  - rewrite (updateSurfaceElevationAndMask_loop (ext := example_externals)
               m example_ocean eq_refl).
    apply update_loop_dt.
  - intros i j _. split; reflexivity.
  - exact (H 0%Z 0%Z example_owned).
Defined.

(** A negative thickness at the only owned point: this is the point the
    error names. *)
Lemma first_negative_thickness_is_reported_witness :
  let m := example_model example_config (-1) 0 0 MASK_SHEET in
  exists i j,
    owned (grid m) i j /\
    fst (updateSurfaceElevationAndMask (ext := example_externals) m)
    = SETERRQ 1 (Thickness_negative_at_point i j).
Proof.
  intros m.
  destruct (first_negative_thickness_is_reported (ext := example_externals)
              m example_ocean eq_refl) as (i & j & Hown & _ & _ & Herr & _).
  - exists 0%Z, 0%Z. split; [ exact example_owned | simpl; lra ].
  - exists i, j. split; [ exact Hown | ]. rewrite Herr. reflexivity.
Defined.

(** The grounded scenario: the new thickness of the owned point is
    [new_thickness] of the old one. *)
Lemma massContExplicitStep_any_order_witness :
  let m := example_model example_config 100 0 (1 / 100) MASK_SHEET in
  vH (snd (massContExplicitStep (ext := example_externals) m)) 0%Z 0%Z
  = new_thickness (ext := example_externals)
      (acab (ext := example_externals) m (example_surface (1 / 100)))
      (shelfbmassflux (ext := example_externals) m example_ocean)
      m 0%Z 0%Z (vH m 0%Z 0%Z).
Proof.
  intros m.
  destruct (massContExplicitStep_any_order (ext := example_externals) m
              (example_surface (1 / 100)) example_ocean eq_refl eq_refl)
    as (H & _).
  exact (H 0%Z 0%Z example_owned).
Defined.

(** Ice of thickness 100 at a point of the fixed ocean is gone after one
    step. *)
Lemma calving_leaves_no_ice_witness :
  let m := example_model example_kill_config 100 (-500) 0
             MASK_OCEAN_AT_TIME_0 in
  vH (snd (massContExplicitStep (ext := example_externals) m)) 0%Z 0%Z = 0.
Proof.
  intros m.
  destruct (calving_leaves_no_ice (ext := example_externals) m m
              (example_surface 0) example_ocean 0%Z 0%Z (run_done m)
              eq_refl eq_refl example_owned) as (H & _).
  destruct (H eq_refl eq_refl) as [H0 _]. exact H0.
Defined.

(** Two points of a row without SIA flux. *)
Lemma sia_flux_telescopes_witness :
  let m := example_model example_config 100 0 0 MASK_SHEET in
  Rsum (map (fun i => divQ_SIA (ext := example_externals) m i 0%Z)
            (range 0 2))
  * dx (grid m)
  = 0.
Proof.
  intros m. change 2%Z with (Z.of_nat 2).
  rewrite (sia_flux_telescopes (ext := example_externals) m 0%Z 0%Z 1%nat
             eq_refl eq_refl).
  - simpl. lra.
  - simpl. lra.
  - intros i j. reflexivity.
Defined.

(** Sliding to the east at 100 per unit of time over cells 1000 wide: a
    tenth of the thickness 110 of the western neighbour replaces a tenth
    of the thickness 100 of the point. *)
Lemma upwind_step_is_convex_witness :
  vH (snd (massContExplicitStep (ext := example_externals)
             (example_sliding_model 100 0))) 0%Z 0%Z
  = 101.
Proof.
  destruct (upwind_step_is_convex (ext := example_externals)
              (example_sliding_model 100 0) (example_surface 0) example_ocean
              100 0 0%Z 0%Z eq_refl eq_refl example_owned
              (fun _ _ => eq_refl) (fun _ _ => eq_refl) eq_refl eq_refl
              eq_refl eq_refl (fun _ _ => eq_refl)) as [H _].
  - simpl. lra.
  - simpl. lra.
  - simpl. lra.
  - simpl. rewrite Rabs_R0, (Rabs_pos_eq 100) by lra. lra.
  - simpl. lra.
  - unfold upstream. destruct (Rlt_dec 100 0); simpl; lra.
  - simpl. lra.
  - rewrite H. unfold upstream.
    destruct (Rlt_dec 100 0); [ lra | ].
    destruct (Rlt_dec 0 0); [ lra | ].
    simpl. rewrite Rabs_R0, (Rabs_pos_eq 100) by lra. lra.
Defined.

(** The same ice: the thickness is 110 on both sides of the point, and
    the surface gradient is that of the flat bed. *)
Lemma transformed_gradient_on_even_thickness_witness :
  surface_gradient (ext := example_externals) (example_sliding_model 100 0)
    0%Z 0%Z
  = ((0 - 0) / (2 * 1000), (0 - 0) / (2 * 1000)).
Proof.
  rewrite (transformed_gradient_on_even_thickness (ext := example_externals)
             (example_sliding_model 100 0) 0%Z 0%Z eq_refl eq_refl eq_refl
             eq_refl).
  reflexivity.
Defined.

Lemma example_grid_accepted :
  set_grid_from_options (fun name => name) example_command_line "quadratic"
    example_grid_parameters
  = inr example_grid_parameters.
Proof.
  unfold set_grid_from_options. simpl.
  assert (E : 1000.0 * (1000 / 1000.0) = 1000) by lra. rewrite E.
  destruct (Rle_dec 1000 0.0); [ lra | ].
  destruct (Rle_dec 4000 0.0); [ lra | ].
  reflexivity.
Qed.

(** The grid of 61 by 61 by 31 points is accepted as it is. *)
Lemma accepted_grid_is_valid_witness :
  let r := example_grid_parameters in
  set_grid_from_options (fun name => name) example_command_line "quadratic"
    example_grid_parameters = inr r
  /\ (3 <= grid_Mx r)%Z /\ (3 <= grid_My r)%Z /\ (2 <= grid_Mz r)%Z
  /\ 0 < grid_Lx r /\ 0 < grid_Ly r /\ 0 < grid_Lz r.
Proof.
  intros r. split; [ exact example_grid_accepted | ].
  destruct (accepted_grid_is_valid (fun name => name) example_command_line
              "quadratic" example_grid_parameters r example_grid_accepted)
    as (H1 & H2 & H3 & H4 & H5 & H6 & _).
  repeat split; assumption.
Defined.

Lemma example_ranges_accepted :
  set_grid_from_options (fun name => name) example_ranges_command_line
    "quadratic" example_grid_parameters
  = inr {| grid_x0 := (0 + 10) / 2.0; grid_y0 := (0 + 20) / 2.0;
           grid_Lx := (10 - 0) / 2.0; grid_Ly := (20 - 0) / 2.0;
           grid_Lz := 4000;
           grid_Mx := 61; grid_My := 61; grid_Mz := 31;
           grid_spacing := "quadratic"%string |}.
Proof.
  unfold set_grid_from_options. simpl.
  destruct (Rle_dec ((10 - 0) / 2.0) 0.0); [ lra | ].
  destruct (Rle_dec ((20 - 0) / 2.0) 0.0); [ lra | ].
  destruct (Rle_dec 4000 0.0); [ lra | ].
  reflexivity.
Qed.

(** With [-x_range 0,10 -y_range 0,20] the accepted grid spans [0, 10]
    by [0, 20], whatever its extent was. *)
Lemma ranges_are_honoured_witness :
  exists r,
    set_grid_from_options (fun name => name) example_ranges_command_line
      "quadratic" example_grid_parameters = inr r
    /\ grid_x0 r - grid_Lx r = 0 /\ grid_x0 r + grid_Lx r = 10
    /\ grid_y0 r - grid_Ly r = 0 /\ grid_y0 r + grid_Ly r = 20.
Proof.
  eexists. split; [ exact example_ranges_accepted | ].
  destruct (ranges_are_honoured (fun name => name)
              example_ranges_command_line "quadratic"
              example_grid_parameters [0; 10] [0; 20] eq_refl eq_refl)
    as [_ H].
  destruct (H 0 10 0 20 eq_refl eq_refl) as [Hr _].
  exact (Hr _ example_ranges_accepted).
Defined.

Lemma example_allocation :
  allocate_submodels tt tt tt example_allocation_config example_unallocated
  = (None,
     snd (allocate_submodels tt tt tt example_allocation_config
            example_unallocated)).
Proof. vm_compute. reflexivity. Qed.

(** Every pointer is set after the allocation of the example. *)
Lemma allocated_pointers_are_set_witness :
  let s' := snd (allocate_submodels tt tt tt example_allocation_config
                   example_unallocated) in
  EC s' <> None /\ stress_balance s' <> None
  /\ subglacial_hydrology s' <> None /\ btu s' <> None
  /\ surface_model s' <> None /\ ocean_model s' <> None.
Proof.
  exact (allocated_pointers_are_set tt tt tt example_allocation_config
           example_unallocated _ example_allocation).
Defined.

(** The distributed hydrology of the example holds the stress balance of
    the model, and its Mohr-Coulomb yield stress holds this hydrology. *)
Lemma allocated_objects_are_wired_witness :
  let s' := snd (allocate_submodels tt tt tt example_allocation_config
                   example_unallocated) in
  subglacial_hydrology s' = Some (DistributedHydrology (stress_balance s'))
  /\ basal_yield_stress_model s'
     = Some (MohrCoulombYieldStress (subglacial_hydrology s'))
  /\ stress_balance s' <> None.
Proof.
  intros s'.
  destruct (allocated_objects_are_wired tt tt tt example_allocation_config
              example_unallocated s' example_allocation)
    as (H1 & H2 & H3 & _).
  destruct (H1 eq_refl) as (sb & Hsb & _).
  split; [ | split ].
  - assert (E : exists x, subglacial_hydrology s'
                          = Some (DistributedHydrology x))
      by (eexists; vm_compute; reflexivity).
    destruct E as [x E]. rewrite E, (H2 eq_refl x E). reflexivity.
  - assert (E : exists x, basal_yield_stress_model s'
                          = Some (MohrCoulombYieldStress x))
      by (eexists; vm_compute; reflexivity).
    destruct E as [x E]. rewrite E, (H3 eq_refl x E). reflexivity.
  - rewrite Hsb. discriminate.
Defined.

(** "ssa+sia" with the method "fd" gives the SSAFD sliding and the SIA
    modifier. *)
Lemma stress_balance_choice_witness :
  let s := snd (allocate_enthalpy_converter example_allocation_config
                  example_unallocated) in
  exists sb,
    stress_balance (snd (allocate_stressbalance example_allocation_config s))
    = Some sb
    /\ sliding sb = SSAFD (EC s) /\ modifier sb = SIAFD (EC s).
Proof.
  intros s.
  destruct (stress_balance_choice example_allocation_config s
              (snd (allocate_stressbalance example_allocation_config s))
              eq_refl eq_refl) as (sb & Hsb & _ & _ & _ & H4 & _ & H6).
  exists sb. split; [ exact Hsb | ]. split.
  - apply H4. split; [ simpl; auto | reflexivity ].
  - apply H6. simpl; auto.
Defined.

(** A second allocation of the example changes nothing. *)
Lemma allocation_twice_witness :
  let s' := snd (allocate_submodels tt tt tt example_allocation_config
                   example_unallocated) in
  allocate_submodels tt tt tt example_allocation_config s' = (None, s').
Proof.
  exact (allocation_twice tt tt tt example_allocation_config
           example_unallocated _ example_allocation).
Defined.

(** The boundary models of the example are created, and owned. *)
Lemma created_boundary_models_are_owned_witness :
  let s' := snd (allocate_submodels tt tt tt example_allocation_config
                   example_unallocated) in
  (surface_model s' = Some (tt, Some tt)
   /\ external_surface_model s' = false)
  /\ ocean_model s' = Some tt /\ external_ocean_model s' = false.
Proof.
  intros s'.
  destruct (created_boundary_models_are_owned tt tt tt
              example_allocation_config example_unallocated s'
              example_allocation)
    as [Hs Ho].
  split; [ exact (Hs eq_refl) | exact (Ho eq_refl) ].
Defined.
